(** * Campus Connect: the opportunity stores and their HTTP handlers

    A shallow embedding of the query-building layer of the Campus Connect
    backend: the models in [backend/src/models] (the shared base model, the
    work-store model and the event-store model), the validators in
    [backend/src/utils/validators.js], and the controllers that call them
    (work, event, cross-table and batch controllers), together with the table
    constraints of [backend/schema.sql] and the route tables of
    [backend/src/routes].

    JavaScript numbers are modelled as exact integers ([Z]); everything the
    handlers compute with (page numbers, limits, row counts, parameter
    indexes) stays far below 2^53 in practice, where the two agree.  Strings
    are byte strings, and white space is ASCII white space. *)

From Stdlib Require Import ZArith Ascii String List Bool Lia DecimalString DecimalPos Permutation.
From stdpp Require Import base option list strings gmap fin_maps.
Import ListNotations.

Set Warnings "-register-all".

Open Scope string_scope.
Open Scope list_scope.
Open Scope Z_scope.

(** ** JavaScript values *)

Module JS.

(** The values that reach the handlers: parsed JSON bodies, parsed query
    strings (strings, arrays and nested objects), and [Date] objects built by
    the filter compiler ([VDate] holds the epoch milliseconds). *)
Inductive value : Type :=
| VUndef
| VNull
| VBool (b : bool)
| VNum (n : Z)
| VStr (s : string)
| VDate (ms : Z)
| VArr (xs : list value)
| VObj (fields : list (string * value)).

(** A plain object: its own properties in insertion order. *)
Definition obj : Type := list (string * value).

(** [o[k]]: the first binding for [k], [undefined] when there is none. *)
Fixpoint get (k : string) (o : obj) : value :=
  match o with
  | [] => VUndef
  | (k', v) :: rest => if String.eqb k k' then v else get k rest
  end.

(** [k in o] for own properties. *)
Fixpoint has (k : string) (o : obj) : bool :=
  match o with
  | [] => false
  | (k', _) :: rest => String.eqb k k' || has k rest
  end.

(** [o[k] = v]: overwrite in place, or append a new property. *)
Fixpoint set (k : string) (v : value) (o : obj) : obj :=
  match o with
  | [] => [(k, v)]
  | (k', v') :: rest =>
      if String.eqb k k' then (k', v) :: rest else (k', v') :: set k v rest
  end.

(** [Object.keys(o)]. *)
Definition keys (o : obj) : list string := map fst o.

(** ToBoolean. *)
Definition truthy (v : value) : bool :=
  match v with
  | VUndef | VNull => false
  | VBool b => b
  | VNum n => negb (n =? 0)
  | VStr s => negb (String.eqb s "")
  | VDate _ | VArr _ | VObj _ => true
  end.

(** [a || b]. *)
Definition or_else (a b : value) : value := if truthy a then a else b.

(** [Array.isArray]. *)
Definition isArray (v : value) : bool :=
  match v with VArr _ => true | _ => false end.

(** Strict equality with a string literal, [v === s]. *)
Definition seq_str (v : value) (s : string) : bool :=
  match v with VStr t => String.eqb t s | _ => false end.

(** Strict equality with [true]. *)
Definition seq_true (v : value) : bool :=
  match v with VBool true => true | _ => false end.

Definition string_of_Z (n : Z) : string := NilZero.string_of_int (Z.to_int n).

Fixpoint join (sep : string) (parts : list string) : string :=
  match parts with
  | [] => ""
  | [p] => p
  | p :: rest => (p ++ sep ++ join sep rest)%string
  end.

(** ToString.  A [Date] prints through the host's locale and clock zone, so
    its text is taken from [date_text]; the handlers never parse it back. *)
Section ToString.
Variable date_text : Z -> string.

Fixpoint toString (v : value) : string :=
  match v with
  | VUndef => "undefined"
  | VNull => "null"
  | VBool true => "true"
  | VBool false => "false"
  | VNum n => string_of_Z n
  | VStr s => s
  | VDate ms => date_text ms
  | VArr xs =>
      join "," (map (fun x => match x with
                              | VUndef | VNull => ""
                              | _ => toString x
                              end) xs)
  | VObj _ => "[object Object]"
  end.
End ToString.

(** *** Strings: whitespace, trimming, splitting *)

Definition is_space (c : ascii) : bool :=
  let n := nat_of_ascii c in
  (Nat.eqb n 32 || (Nat.leb 9 n && Nat.leb n 13))%bool.

Fixpoint trimStart (s : string) : string :=
  match s with
  | String c rest => if is_space c then trimStart rest else s
  | EmptyString => EmptyString
  end.

Fixpoint rev_string_onto (s acc : string) : string :=
  match s with
  | EmptyString => acc
  | String c rest => rev_string_onto rest (String c acc)
  end.

Definition rev_string (s : string) : string := rev_string_onto s EmptyString.

Definition trimEnd (s : string) : string := rev_string (trimStart (rev_string s)).

(** [s.trim()]. *)
Definition trim (s : string) : string := trimEnd (trimStart s).

(** [s.split(',')]: always at least one piece. *)
Fixpoint split_comma_onto (s : string) (cur : string) : list string :=
  match s with
  | EmptyString => [rev_string cur]
  | String c rest =>
      if Ascii.eqb c ","%char
      then rev_string cur :: split_comma_onto rest EmptyString
      else split_comma_onto rest (String c cur)
  end.

Definition split_comma (s : string) : list string := split_comma_onto s EmptyString.

Definition lower_ascii (c : ascii) : ascii :=
  let n := nat_of_ascii c in
  if (Nat.leb 65 n && Nat.leb n 90)%bool then ascii_of_nat (n + 32) else c.

Fixpoint toLowerCase (s : string) : string :=
  match s with
  | EmptyString => EmptyString
  | String c rest => String (lower_ascii c) (toLowerCase rest)
  end.

Definition upper_ascii (c : ascii) : ascii :=
  let n := nat_of_ascii c in
  if (Nat.leb 97 n && Nat.leb n 122)%bool then ascii_of_nat (n - 32) else c.

Fixpoint toUpperCase (s : string) : string :=
  match s with
  | EmptyString => EmptyString
  | String c rest => String (upper_ascii c) (toUpperCase rest)
  end.

(** *** parseInt *)

(** The value of a digit in the given radix (10 or 16). *)
Definition digit_value (radix : Z) (c : ascii) : option Z :=
  let n := Z.of_nat (nat_of_ascii c) in
  let d :=
    if (48 <=? n) && (n <=? 57) then Some (n - 48)
    else if (97 <=? n) && (n <=? 102) then Some (n - 87)
    else if (65 <=? n) && (n <=? 70) then Some (n - 55)
    else None in
  match d with
  | Some k => if k <? radix then Some k else None
  | None => None
  end.

(** The longest prefix of digits, accumulated left to right; [None] when the
    prefix is empty. *)
Fixpoint parse_digits (radix : Z) (s : string) (acc : option Z) : option Z :=
  match s with
  | EmptyString => acc
  | String c rest =>
      match digit_value radix c with
      | Some d =>
          parse_digits radix rest
            (Some (match acc with Some a => a * radix + d | None => d end))
      | None => acc
      end
  end.

(** [parseInt(s)] without a radix: leading whitespace is skipped, a sign is
    read, a [0x]/[0X] prefix selects base 16, and the digits that follow are
    the result.  [None] is [NaN]. *)
Definition parseInt_string (s : string) : option Z :=
  let s1 := trimStart s in
  let '(sign, s2) :=
    match s1 with
    | String "-"%char rest => (-1, rest)
    | String "+"%char rest => (1, rest)
    | _ => (1, s1)
    end in
  let '(radix, s3) :=
    match s2 with
    | String "0"%char (String "x"%char rest) => (16, rest)
    | String "0"%char (String "X"%char rest) => (16, rest)
    | _ => (10, s2)
    end in
  match parse_digits radix s3 None with
  | Some m => Some (sign * m)
  | None => None
  end.

End JS.

(** ** The storage engine: cells, rows, tables, constraints *)

Module Sql.
Import JS.

(** What a column holds.  [CTime] is a timestamp in epoch milliseconds,
    [CArr] a [TEXT[]] value. *)
Inductive cell : Type :=
| CNull
| CText (s : string)
| CBool (b : bool)
| CInt (n : Z)
| CArr (xs : list string)
| CTime (ms : Z).

(** A row maps column names to cells; every column of its table is present,
    [CNull] standing for SQL NULL. *)
Abbreviation row := (gmap string cell).

Inductive coltype : Type :=
| TUuid
| TVarchar (n : nat)
| TText
| TTextArr
| TTimestamptz
| TBoolean
| TInteger.

(** The two stores. *)
Inductive table : Type := Work | Event.

Definition table_eqb (a b : table) : bool :=
  match a, b with
  | Work, Work | Event, Event => true
  | _, _ => false
  end.

(** A thrown JavaScript error; [code] is the SQLSTATE when the error comes
    from the database driver. *)
Record error : Type := mkError { message : string; code : option string }.

Definition js_error (msg : string) : error := mkError msg None.
Definition pg_error (sqlstate msg : string) : error := mkError msg (Some sqlstate).

Inductive outcome (A : Type) : Type :=
| Ok (a : A)
| Throw (e : error).
Arguments Ok {A} a.
Arguments Throw {A} e.

Definition obind {A B} (x : outcome A) (f : A -> outcome B) : outcome B :=
  match x with
  | Ok a => f a
  | Throw e => Throw e
  end.

(** The parts of PostgreSQL, of its Node driver and of the JavaScript host
    that the repository relies on but does not contain. *)
Class Engine : Type := {
  (** how a bound JavaScript value becomes a cell of the given column type:
      the driver's text encoding followed by the server's input conversion;
      it throws (SQLSTATE 22P02, 22001, ...) on text the type rejects *)
  bind : coltype -> value -> outcome cell;
  (** [LOWER] *)
  sql_lower : string -> string;
  (** [text LIKE pattern] *)
  sql_like : string -> string -> bool;
  (** [to_tsvector('english', doc) @@ plainto_tsquery('english', q)] *)
  fts_match : string -> string -> bool;
  (** the order [ORDER BY] uses on two non-null cells of one column *)
  cell_leb : cell -> cell -> bool;
  (** [gen_random_uuid()], as a function of the generator's state *)
  gen_random_uuid : nat -> string;
  (** the host's [Date.prototype.toString] *)
  date_text : Z -> string
}.

Fixpoint strings_eqb (xs ys : list string) : bool :=
  match xs, ys with
  | [], [] => true
  | x :: xs', y :: ys' => String.eqb x y && strings_eqb xs' ys'
  | _, _ => false
  end.

Definition cell_eqb (a b : cell) : bool :=
  match a, b with
  | CNull, CNull => true
  | CText s, CText t => String.eqb s t
  | CBool x, CBool y => Bool.eqb x y
  | CInt x, CInt y => x =? y
  | CArr xs, CArr ys => strings_eqb xs ys
  | CTime x, CTime y => x =? y
  | _, _ => false
  end.

(** SQL [a = b] inside WHERE: a comparison with NULL is not true. *)
Definition sql_eq (a b : cell) : bool :=
  match a, b with
  | CNull, _ | _, CNull => false
  | _, _ => cell_eqb a b
  end.

(** The cell of a column, NULL when the row has no such column. *)
Definition col (r : row) (c : string) : cell := default CNull (r !! c).

(** *** Schema (backend/schema.sql) *)

Definition tableName (t : table) : string :=
  match t with Work => "opportunities_work" | Event => "opportunities_event" end.

Definition typeField (t : table) : string :=
  match t with Work => "work_type" | Event => "event_type" end.

Definition columns (t : table) : list (string * coltype) :=
  match t with
  | Work =>
      [ ("id", TUuid); ("work_type", TVarchar 20); ("title", TVarchar 500);
        ("apply_url", TText); ("city", TVarchar 100); ("country", TVarchar 100);
        ("work_style", TVarchar 10); ("organization", TVarchar 200);
        ("company", TVarchar 200); ("image_url", TText);
        ("stipend", TVarchar 100); ("duration", TVarchar 50);
        ("salary", TVarchar 100); ("experience", TVarchar 100);
        ("skills", TTextArr); ("who_can_apply", TVarchar 255);
        ("deadline", TTimestamptz); ("tags", TTextArr);
        ("source", TVarchar 100); ("external_id", TVarchar 255);
        ("status", TVarchar 20); ("is_verified", TBoolean);
        ("is_featured", TBoolean); ("view_count", TInteger);
        ("posted_date", TTimestamptz); ("last_seen_date", TTimestamptz);
        ("created_at", TTimestamptz); ("updated_at", TTimestamptz) ]
  | Event =>
      [ ("id", TUuid); ("event_type", TVarchar 20); ("title", TVarchar 500);
        ("apply_url", TText); ("city", TVarchar 100); ("country", TVarchar 100);
        ("organization", TVarchar 200); ("image_url", TText);
        ("team_size", TVarchar 50); ("fees", TVarchar 20); ("perks", TText);
        ("event_date", TTimestamptz); ("learning_type", TVarchar 50);
        ("deadline", TTimestamptz); ("tags", TTextArr); ("domain", TTextArr);
        ("source", TVarchar 100); ("external_id", TVarchar 255);
        ("status", TVarchar 20); ("is_verified", TBoolean);
        ("is_featured", TBoolean); ("view_count", TInteger);
        ("posted_date", TTimestamptz); ("last_seen_date", TTimestamptz);
        ("created_at", TTimestamptz); ("updated_at", TTimestamptz) ]
  end.

Fixpoint assoc {A} (k : string) (l : list (string * A)) : option A :=
  match l with
  | [] => None
  | (k', a) :: rest => if String.eqb k k' then Some a else assoc k rest
  end.

Definition col_type (t : table) (c : string) : option coltype := assoc c (columns t).

(** Column and table constraints. *)
Inductive constraint : Type :=
| NotNull (c : string)
| CheckIn (c : string) (allowed : list string)   (* c IN (...) *)
| CheckNonBlank (c : string)                     (* LENGTH(TRIM(c)) > 0 *)
| CheckHttp (c : string)                         (* c ~* '^https?://' *)
| CheckNonNeg (c : string).                      (* c >= 0 *)

Definition constraints (t : table) : list constraint :=
  match t with
  | Work =>
      [ NotNull "id"; NotNull "work_type"; NotNull "title"; NotNull "apply_url";
        NotNull "posted_date"; NotNull "last_seen_date"; NotNull "created_at";
        NotNull "updated_at";
        CheckIn "work_type" ["internship"; "job"];
        CheckNonBlank "title"; CheckHttp "apply_url";
        CheckIn "work_style" ["remote"; "hybrid"; "onsite"];
        CheckHttp "image_url";
        CheckIn "status" ["active"; "expired"];
        CheckNonNeg "view_count" ]
  | Event =>
      [ NotNull "id"; NotNull "event_type"; NotNull "title"; NotNull "apply_url";
        NotNull "posted_date"; NotNull "last_seen_date"; NotNull "created_at";
        NotNull "updated_at";
        CheckIn "event_type" ["hackathon"; "learning"; "scholarship"];
        CheckNonBlank "title"; CheckHttp "apply_url";
        CheckIn "fees" ["paid"; "unpaid"];
        CheckIn "learning_type" ["workshop"; "course"; "bootcamp"; "mentorship"];
        CheckHttp "image_url";
        CheckIn "status" ["active"; "expired"; "archived"];
        CheckNonNeg "view_count" ]
  end.

Fixpoint mem_string (s : string) (l : list string) : bool :=
  match l with
  | [] => false
  | x :: rest => String.eqb s x || mem_string s rest
  end.

(** SQL [TRIM]: blanks (character 32) removed at both ends. *)
Fixpoint ltrim_blank (s : string) : string :=
  match s with
  | String " "%char rest => ltrim_blank rest
  | _ => s
  end.

Definition trim_blank (s : string) : string :=
  rev_string (ltrim_blank (rev_string (ltrim_blank s))).

Definition starts_with (p s : string) : bool := String.prefix p s.

Definition is_http (s : string) : bool :=
  let l := toLowerCase s in
  starts_with "http://" l || starts_with "https://" l.

(** A CHECK passes when its expression is true or NULL. *)
Definition holds (k : constraint) (r : row) : bool :=
  match k with
  | NotNull c => match col r c with CNull => false | _ => true end
  | CheckIn c allowed =>
      match col r c with CText s => mem_string s allowed | _ => true end
  | CheckNonBlank c =>
      match col r c with
      | CText s => negb (String.eqb (trim_blank s) "")
      | _ => true
      end
  | CheckHttp c => match col r c with CText s => is_http s | _ => true end
  | CheckNonNeg c => match col r c with CInt n => 0 <=? n | _ => true end
  end.

Definition violation (k : constraint) : error :=
  match k with
  | NotNull c => pg_error "23502" c
  | CheckIn c _ | CheckNonBlank c | CheckHttp c | CheckNonNeg c => pg_error "23514" c
  end.

Fixpoint check_all (ks : list constraint) (r : row) : outcome unit :=
  match ks with
  | [] => Ok tt
  | k :: rest => if holds k r then check_all rest r else Throw (violation k)
  end.

Definition check_row (t : table) (r : row) : outcome unit := check_all (constraints t) r.

(** The unique indexes: the primary key, the (type, apply_url) pair and the
    external identifier.  NULL never collides. *)
Definition uniques (t : table) : list (list string) :=
  [ ["id"]; [typeField t; "apply_url"]; ["external_id"] ].

Definition same_key (cols : list string) (a b : row) : bool :=
  forallb (fun c => sql_eq (col a c) (col b c)) cols.

Definition unique_ok (t : table) (rows : list row) (r : row) : bool :=
  forallb (fun key => negb (existsb (same_key key r) rows)) (uniques t).

(** *** The database *)

(** The statements the models send, by kind and table. *)
Inductive stmt : Type :=
| StUpsert (t : table)
| StSelectById (t : table)
| StBumpViews (t : table)
| StUpdate (t : table)
| StDelete (t : table)
| StArchive (t : table)
| StCount (t : table)
| StSelectPage (t : table).

(** The two tables, the server clock read by [NOW()], the state of the UUID
    generator, and the statements received so far (oldest first). *)
Record db : Type := mkDb {
  work_rows : list row;
  event_rows : list row;
  clock : Z;
  uuid_state : nat;
  log : list stmt
}.

Definition rows_of (t : table) (d : db) : list row :=
  match t with Work => work_rows d | Event => event_rows d end.

Definition with_rows (t : table) (rs : list row) (d : db) : db :=
  match t with
  | Work => mkDb rs (event_rows d) (clock d) (uuid_state d) (log d)
  | Event => mkDb (work_rows d) rs (clock d) (uuid_state d) (log d)
  end.

Definition logged (s : stmt) (d : db) : db :=
  mkDb (work_rows d) (event_rows d) (clock d) (uuid_state d) (log d ++ [s]).

Definition next_uuid (d : db) : db :=
  mkDb (work_rows d) (event_rows d) (clock d) (S (uuid_state d)) (log d).

(** Time passing between two requests. *)
Definition at_time (now : Z) (d : db) : db :=
  mkDb (work_rows d) (event_rows d) now (uuid_state d) (log d).

(** Code that talks to the database: it may throw, and it leaves a database
    behind either way. *)
Definition M (A : Type) : Type := db -> outcome A * db.

Definition ret {A} (a : A) : M A := fun d => (Ok a, d).
Definition throw {A} (e : error) : M A := fun d => (Throw e, d).
Definition bindM {A B} (m : M A) (k : A -> M B) : M B :=
  fun d => match m d with
           | (Ok a, d') => k a d'
           | (Throw e, d') => (Throw e, d')
           end.
Definition lift {A} (x : outcome A) : M A := fun d => (x, d).

(** *** INSERT ... ON CONFLICT ... DO UPDATE *)

(** The right-hand sides the two upserts use in their SET lists. *)
Inductive setexpr : Type :=
| ENow                                   (* NOW() *)
| EExcluded (c : string)                 (* EXCLUDED.c *)
| EReviveFrom (revived : list string).
  (* CASE WHEN t.status IN revived THEN 'active' ELSE t.status END *)

Record upsert_stmt : Type := mkUpsert {
  into : table;
  insert_columns : list string;          (* bound to $1, $2, ... in order *)
  conflict_target : list string;
  do_update_set : list (string * setexpr)
}.

Definition blank_row (t : table) : row :=
  fold_right (fun '(c, _) r => <[c := CNull]> r) ∅ (columns t).

(** The column defaults of the schema. *)
Definition default_row (t : table) (now : Z) (uuid : string) : row :=
  <["id" := CText uuid]>
  (<["source" := CText "manual"]>
  (<["status" := CText "active"]>
  (<["is_verified" := CBool false]>
  (<["is_featured" := CBool false]>
  (<["view_count" := CInt 0]>
  (<["posted_date" := CTime now]>
  (<["last_seen_date" := CTime now]>
  (<["created_at" := CTime now]>
  (<["updated_at" := CTime now]> (blank_row t)))))))))).

Definition need_col (t : table) (c : string) : outcome coltype :=
  match col_type t c with
  | Some ty => Ok ty
  | None => Throw (pg_error "42703" c)
  end.

Definition eval_set (old excluded : row) (now : Z) (e : setexpr) : cell :=
  match e with
  | ENow => CTime now
  | EExcluded c => col excluded c
  | EReviveFrom revived =>
      match col old "status" with
      | CText s => if mem_string s revived then CText "active" else CText s
      | other => other
      end
  end.

(** Every right-hand side is evaluated on the stored row. *)
Definition apply_set (old excluded : row) (now : Z) (sets : list (string * setexpr)) : row :=
  fold_left (fun r '(c, e) => <[c := eval_set old excluded now e]> r) sets old.

(** The trigger [update_updated_at_column], fired before every row update. *)
Definition touch (now : Z) (r : row) : row := <["updated_at" := CTime now]> r.

Fixpoint replace_first (p : row -> bool) (new : row) (rs : list row) : list row :=
  match rs with
  | [] => []
  | r :: rest => if p r then new :: rest else r :: replace_first p new rest
  end.

Section Statements.
Context {E : Engine}.

(** Bind the statement's parameters to the listed columns of a row. *)
Fixpoint assign_params (t : table) (cols : list string) (vals : list value)
    (r : row) : outcome row :=
  match cols, vals with
  | [], [] => Ok r
  | c :: cs, v :: vs =>
      obind (need_col t c) (fun ty =>
      obind (bind ty v) (fun x =>
      assign_params t cs vs (<[c := x]> r)))
  | _, _ => Throw (pg_error "08P01" "parameter count")
  end.

(** The upsert: the proposed row is built and checked first; a stored row
    with the same conflict key is then updated in place, otherwise the
    proposed row is inserted, subject to the other unique indexes.  The
    returned row carries the [action] column of the RETURNING clause
    ([xmax = 0] holds exactly for a row this statement inserted). *)
Definition exec_upsert (q : upsert_stmt) (vals : list value) : M row :=
  fun d0 =>
    let d := next_uuid (logged (StUpsert (into q)) d0) in
    let t := into q in
    let now := clock d0 in
    match assign_params t (insert_columns q) vals
            (default_row t now (gen_random_uuid (uuid_state d0))) with
    | Throw e => (Throw e, d)
    | Ok proposed =>
        match check_row t proposed with
        | Throw e => (Throw e, d)
        | Ok _ =>
            let hit := same_key (conflict_target q) proposed in
            match find hit (rows_of t d) with
            | Some old =>
                let new := touch now (apply_set old proposed now (do_update_set q)) in
                match check_row t new with
                | Throw e => (Throw e, d)
                | Ok _ =>
                    (Ok (<["action" := CText "updated"]> new),
                     with_rows t (replace_first hit new (rows_of t d)) d)
                end
            | None =>
                if unique_ok t (rows_of t d) proposed
                then (Ok (<["action" := CText "created"]> proposed),
                      with_rows t (rows_of t d ++ [proposed]) d)
                else (Throw (pg_error "23505" "duplicate key"), d)
            end
        end
    end.

(** *** UPDATE and DELETE by identifier *)

Definition param (vals : list value) (p : nat) : outcome value :=
  match p with
  | O => Throw (pg_error "42P02" "there is no parameter $0")
  | S k =>
      match nth_error vals k with
      | Some v => Ok v
      | None => Throw (pg_error "08P01" "parameter count")
      end
  end.

(** [WHERE id = $p]. *)
Definition id_is (vals : list value) (p : nat) : outcome (row -> bool) :=
  obind (param vals p) (fun v =>
  obind (bind TUuid v) (fun x =>
  Ok (fun r => sql_eq (col r "id") x))).

(** Rewrite the rows that [hit] selects; the trigger stamps each rewritten
    row and the table constraints are checked on it.  The result is the new
    table and the rewritten rows (RETURNING). *)
Fixpoint update_rows (t : table) (now : Z) (hit : row -> bool)
    (f : row -> outcome row) (rs : list row) : outcome (list row * list row) :=
  match rs with
  | [] => Ok ([], [])
  | r :: rest =>
      if hit r then
        obind (f r) (fun r1 =>
        let r2 := touch now r1 in
        obind (check_row t r2) (fun _ =>
        obind (update_rows t now hit f rest) (fun '(all, changed) =>
        Ok (r2 :: all, r2 :: changed))))
      else
        obind (update_rows t now hit f rest) (fun '(all, changed) =>
        Ok (r :: all, changed))
  end.

Definition run_update (t : table) (s : stmt) (hit : outcome (row -> bool))
    (f : Z -> row -> outcome row) : M (list row) :=
  fun d0 =>
    let d := logged s d0 in
    match hit with
    | Throw e => (Throw e, d)
    | Ok h =>
        match update_rows t (clock d0) h (f (clock d0)) (rows_of t d) with
        | Throw e => (Throw e, d)
        | Ok (all, changed) => (Ok changed, with_rows t all d)
        end
    end.

(** [SELECT * FROM t WHERE id = $1]. *)
Definition select_by_id (t : table) (vals : list value) : M (list row) :=
  fun d0 =>
    let d := logged (StSelectById t) d0 in
    match id_is vals 1 with
    | Throw e => (Throw e, d)
    | Ok h => (Ok (List.filter h (rows_of t d)), d)
    end.

(** [SET view_count = view_count + 1, updated_at = NOW()] on one row; the
    column is a 32-bit integer. *)
Definition bump_row (now : Z) (r : row) : outcome row :=
  match col r "view_count" with
  | CInt n =>
      if n + 1 <=? 2147483647
      then Ok (<["updated_at" := CTime now]> (<["view_count" := CInt (n + 1)]> r))
      else Throw (pg_error "22003" "integer out of range")
  | _ => Ok (<["updated_at" := CTime now]> r)
  end.

(** [UPDATE t SET view_count = view_count + 1, updated_at = NOW()
     WHERE id = $1 RETURNING view_count]. *)
Definition bump_views (t : table) (vals : list value) : M (list row) :=
  run_update t (StBumpViews t) (id_is vals 1) bump_row.

(** [DELETE FROM t WHERE id = $1 RETURNING id]. *)
Definition delete_by_id (t : table) (vals : list value) : M (list row) :=
  fun d0 =>
    let d := logged (StDelete t) d0 in
    match id_is vals 1 with
    | Throw e => (Throw e, d)
    | Ok h =>
        (Ok (List.filter h (rows_of t d)),
         with_rows t (List.filter (fun r => negb (h r)) (rows_of t d)) d)
    end.

(** [SET status = 'archived', updated_at = NOW()] on one row. *)
Definition archive_row (now : Z) (r : row) : row :=
  <["updated_at" := CTime now]> (<["status" := CText "archived"]> r).

(** [UPDATE t SET status = 'archived', updated_at = NOW()
     WHERE id = $1 RETURNING id]. *)
Definition archive_by_id (t : table) (vals : list value) : M (list row) :=
  run_update t (StArchive t) (id_is vals 1) (fun now r => Ok (archive_row now r)).

(** One item of a SET list assembled at run time. *)
Inductive setitem : Type :=
| SetParam (c : string) (p : nat)     (* c = $p *)
| SetNow (c : string).                (* c = NOW() *)

Definition set_column (i : setitem) : string :=
  match i with SetParam c _ | SetNow c => c end.

Fixpoint distinct (l : list string) : bool :=
  match l with
  | [] => true
  | x :: rest => negb (mem_string x rest) && distinct rest
  end.

(** Resolve a SET list against the table: every column must exist and
    every parameter must convert to its column's type. *)
Fixpoint resolve_sets (t : table) (vals : list value) (now : Z)
    (items : list setitem) : outcome (list (string * cell)) :=
  match items with
  | [] => Ok []
  | SetParam c p :: rest =>
      obind (need_col t c) (fun ty =>
      obind (param vals p) (fun v =>
      obind (bind ty v) (fun x =>
      obind (resolve_sets t vals now rest) (fun more => Ok ((c, x) :: more)))))
  | SetNow c :: rest =>
      obind (need_col t c) (fun _ =>
      obind (resolve_sets t vals now rest) (fun more => Ok ((c, CTime now) :: more)))
  end.

(** [UPDATE t SET items WHERE id = $idp RETURNING *]. *)
Definition update_by_id (t : table) (items : list setitem) (idp : nat)
    (vals : list value) : M (list row) :=
  fun d0 =>
    if negb (distinct (map set_column items))
    then (Throw (pg_error "42601" "multiple assignments to same column"),
          logged (StUpdate t) d0)
    else if negb (Nat.eqb (length vals) idp)
    then (Throw (pg_error "08P01" "parameter count"), logged (StUpdate t) d0)
    else
      match resolve_sets t vals (clock d0) items with
      | Throw e => (Throw e, logged (StUpdate t) d0)
      | Ok sets =>
          run_update t (StUpdate t) (id_is vals idp)
            (fun _ r => Ok (fold_left (fun r '(c, x) => <[c := x]> r) sets r)) d0
      end.

(** *** WHERE clauses, ORDER BY, LIMIT/OFFSET *)

(** The predicates the filter compiler emits; [p], [q] are the positional
    parameters they mention. *)
Inductive cond : Type :=
| CEq (c : string) (p : nat)            (* c = $p *)
| CLikeCI (c : string) (p : nat)        (* LOWER(c) LIKE LOWER($p) *)
| CIsTrue (c : string)                  (* c = true *)
| CSearch (p : nat)
  (* to_tsvector('english', title || ' ' || COALESCE(organization, '')
       || ' ' || COALESCE(company, '')) @@ plainto_tsquery('english', $p) *)
| COverlap (c : string) (p : nat)       (* c && $p *)
| CBetween (c : string) (p q : nat).    (* c BETWEEN $p AND $q *)

Definition dollar (p : nat) : string := ("$" ++ string_of_Z (Z.of_nat p))%string.

(** The SQL text of a predicate, as the template strings produce it (the
    search predicate keeps the line breaks of its template). *)
Definition render (k : cond) : string :=
  (match k with
   | CEq c p => c ++ " = " ++ dollar p
   | CLikeCI c p => "LOWER(" ++ c ++ ") LIKE LOWER(" ++ dollar p ++ ")"
   | CIsTrue c => c ++ " = true"
   | CSearch p =>
       "
        (to_tsvector('english', title || ' ' || COALESCE(organization, '') || ' ' || COALESCE(company, '')) 
        @@ plainto_tsquery('english', " ++ dollar p ++ "))
      "
   | COverlap c p => c ++ " && " ++ dollar p
   | CBetween c p q => c ++ " BETWEEN " ++ dollar p ++ " AND " ++ dollar q
   end)%string.

(** The parameters a predicate mentions. *)
Definition cond_params (k : cond) : list nat :=
  match k with
  | CEq _ p | CLikeCI _ p | CSearch p | COverlap _ p => [p]
  | CIsTrue _ => []
  | CBetween _ p q => [p; q]
  end.

Definition coalesce_text (x : cell) : string :=
  match x with CText s => s | _ => "" end.

Definition overlaps (xs ys : list string) : bool :=
  existsb (fun x => mem_string x ys) xs.

(** What a predicate means on the rows of table [t], once its parameters
    are bound.  A column the table does not have is an error of the whole
    statement. *)
Definition compile_cond (t : table) (vals : list value) (k : cond)
    : outcome (row -> bool) :=
  match k with
  | CEq c p =>
      obind (need_col t c) (fun ty =>
      obind (param vals p) (fun v =>
      obind (bind ty v) (fun x =>
      Ok (fun r => sql_eq (col r c) x))))
  | CLikeCI c p =>
      obind (need_col t c) (fun _ =>
      obind (param vals p) (fun v =>
      obind (bind TText v) (fun x =>
      Ok (fun r =>
            match col r c, x with
            | CText s, CText pat => sql_like (sql_lower s) (sql_lower pat)
            | _, _ => false
            end))))
  | CIsTrue c =>
      obind (need_col t c) (fun _ =>
      Ok (fun r => match col r c with CBool true => true | _ => false end))
  | CSearch p =>
      obind (need_col t "title") (fun _ =>
      obind (need_col t "organization") (fun _ =>
      obind (need_col t "company") (fun _ =>
      obind (param vals p) (fun v =>
      obind (bind TText v) (fun x =>
      Ok (fun r =>
            match col r "title", x with
            | CText title, CText q =>
                fts_match (title ++ " " ++ coalesce_text (col r "organization")
                           ++ " " ++ coalesce_text (col r "company"))%string q
            | _, _ => false
            end))))))
  | COverlap c p =>
      obind (need_col t c) (fun _ =>
      obind (param vals p) (fun v =>
      obind (bind TTextArr v) (fun x =>
      Ok (fun r =>
            match col r c, x with
            | CArr have, CArr want => overlaps have want
            | _, _ => false
            end))))
  | CBetween c p q =>
      obind (need_col t c) (fun _ =>
      obind (param vals p) (fun v =>
      obind (bind TTimestamptz v) (fun lo =>
      obind (param vals q) (fun w =>
      obind (bind TTimestamptz w) (fun hi =>
      Ok (fun r =>
            match col r c, lo, hi with
            | CTime x, CTime a, CTime b => (a <=? x) && (x <=? b)
            | _, _, _ => false
            end))))))
  end.

(** The conjunction of the compiled predicates. *)
Fixpoint compile_where (t : table) (vals : list value) (ks : list cond)
    : outcome (row -> bool) :=
  match ks with
  | [] => Ok (fun _ => true)
  | k :: rest =>
      obind (compile_cond t vals k) (fun f =>
      obind (compile_where t vals rest) (fun g =>
      Ok (fun r => f r && g r)))
  end.

(** The count query, [SELECT COUNT FROM t WHERE ks], all of [vals] being
    parameters of the predicates.  The driver hands a [bigint] over as its
    decimal text. *)
Definition select_count (t : table) (ks : list cond) (vals : list value) : M string :=
  fun d0 =>
    let d := logged (StCount t) d0 in
    match compile_where t vals ks with
    | Throw e => (Throw e, d)
    | Ok f => (Ok (string_of_Z (Z.of_nat (length (List.filter f (rows_of t d))))), d)
    end.

(** ORDER BY: NULL sorts as larger than every value. *)
Definition asc_leb (a b : cell) : bool :=
  match a, b with
  | _, CNull => true
  | CNull, _ => false
  | _, _ => cell_leb a b
  end.

Definition order_leb (c : string) (descending : bool) (r1 r2 : row) : bool :=
  if descending then asc_leb (col r2 c) (col r1 c) else asc_leb (col r1 c) (col r2 c).

Fixpoint insert_sorted (le : row -> row -> bool) (x : row) (l : list row) : list row :=
  match l with
  | [] => [x]
  | y :: rest => if le x y then x :: l else y :: insert_sorted le x rest
  end.

Definition sort_rows (le : row -> row -> bool) (l : list row) : list row :=
  fold_right (insert_sorted le) [] l.

Definition row_count (what : string) (v : value) : outcome nat :=
  obind (bind TInteger v) (fun x =>
  match x with
  | CInt n => if n <? 0 then Throw (pg_error "2201W" what) else Ok (Z.to_nat n)
  | _ => Throw (pg_error "2201W" what)
  end).

(** [SELECT * FROM t WHERE ks ORDER BY c dir LIMIT $lp OFFSET $op]. *)
Definition select_page (t : table) (ks : list cond) (c : string) (descending : bool)
    (lp op : nat) (vals : list value) : M (list row) :=
  fun d0 =>
    let d := logged (StSelectPage t) d0 in
    match compile_where t vals ks with
    | Throw e => (Throw e, d)
    | Ok f =>
        match need_col t c with
        | Throw e => (Throw e, d)
        | Ok _ =>
            match obind (param vals lp) (row_count "LIMIT"),
                  obind (param vals op) (row_count "OFFSET") with
            | Ok lim, Ok off =>
                (Ok (firstn lim (skipn off
                       (sort_rows (order_leb c descending) (List.filter f (rows_of t d))))), d)
            | Throw e, _ | _, Throw e => (Throw e, d)
            end
        end
    end.

End Statements.

End Sql.


(** ** The models (backend/src/models) *)

Module Model.
Import JS Sql.

(** The filter compiler's result; [whereClause] is derived from
    [conditions] by [where_text]. *)
Record where_result : Type := mkWhere {
  conditions : list cond;
  values : list value;
  paramIndex : nat          (* the next unused parameter slot *)
}.

Definition where_text (ks : list cond) : string :=
  match ks with
  | [] => ""
  | _ => ("WHERE " ++ join " AND " (map render ks))%string
  end.

(** [conditions.push(k $paramIndex); values.push(v); paramIndex++]. *)
Definition push1 (k : nat -> cond) (v : value) (w : where_result) : where_result :=
  mkWhere (conditions w ++ [k (paramIndex w)]) (values w ++ [v]) (S (paramIndex w)).

(** [conditions.push(k $paramIndex $(paramIndex + 1)); values.push(v1, v2);
    paramIndex += 2]. *)
Definition push2 (k : nat -> nat -> cond) (v1 v2 : value) (w : where_result)
    : where_result :=
  mkWhere (conditions w ++ [k (paramIndex w) (S (paramIndex w))])
          (values w ++ [v1; v2]) (S (S (paramIndex w))).

(** A predicate without parameter. *)
Definition push0 (k : cond) (w : where_result) : where_result :=
  mkWhere (conditions w ++ [k]) (values w) (paramIndex w).

(** [Array.isArray(v) ? v : v.split(',').map(x => x.trim())], for a truthy
    [v]; a value with no [split] method throws. *)
Definition as_array (name : string) (v : value) : outcome value :=
  match v with
  | VArr _ => Ok v
  | VStr s => Ok (VArr (map (fun x => VStr (trim x)) (split_comma s)))
  | _ => Throw (js_error ("filters." ++ name ++ ".split is not a function"))
  end.

Definition thirty_days : Z := 30 * 24 * 60 * 60 * 1000.
Definition seven_days : Z := 7 * 24 * 60 * 60 * 1000.

Section Models.
Context {E : Engine}.

Definition wrapped (v : value) : value :=
  VStr ("%" ++ toString date_text v ++ "%").

(** The blocks of [buildWhereClause], in source order. *)
Definition type_filter (t : table) (f : obj) (w : where_result) : outcome where_result :=
  if truthy (get "type" f) then Ok (push1 (CEq (typeField t)) (get "type" f) w)
  else Ok w.

Definition status_filter (f : obj) (w : where_result) : outcome where_result :=
  if truthy (get "status" f) then Ok (push1 (CEq "status") (get "status" f) w)
  else if negb (truthy (get "includeInactive" f))
  then Ok (push1 (CEq "status") (VStr "active") w)
  else Ok w.

Definition like_filter (key : string) (f : obj) (w : where_result) : outcome where_result :=
  if truthy (get key f) then Ok (push1 (CLikeCI key) (wrapped (get key f)) w)
  else Ok w.

Definition eq_filter (key : string) (f : obj) (w : where_result) : outcome where_result :=
  if truthy (get key f) then Ok (push1 (CEq key) (get key f) w)
  else Ok w.

Definition flag_filter (key column : string) (f : obj) (w : where_result)
    : outcome where_result :=
  if seq_str (get key f) "true" || seq_true (get key f)
  then Ok (push0 (CIsTrue column) w)
  else Ok w.

Definition search_filter (f : obj) (w : where_result) : outcome where_result :=
  if truthy (get "search" f) then Ok (push1 CSearch (get "search" f) w)
  else Ok w.

Definition array_filter (key : string) (f : obj) (w : where_result) : outcome where_result :=
  if truthy (get key f)
  then obind (as_array key (get key f)) (fun arr => Ok (push1 (COverlap key) arr w))
  else Ok w.

Definition deadline_filter (now : Z) (f : obj) (w : where_result) : outcome where_result :=
  if truthy (get "deadline" f) then
    if seq_str (get "deadline" f) "upcoming"
    then Ok (push2 (CBetween "deadline") (VDate now) (VDate (now + thirty_days)) w)
    else if seq_str (get "deadline" f) "this_week"
    then Ok (push2 (CBetween "deadline") (VDate now) (VDate (now + seven_days)) w)
    else if seq_str (get "deadline" f) "this_month"
    then Ok (push2 (CBetween "deadline") (VDate now) (VDate (now + thirty_days)) w)
    else Ok w
  else Ok w.

Definition filter_blocks (t : table) (now : Z)
    : list (obj -> where_result -> outcome where_result) :=
  [ type_filter t; status_filter; like_filter "city"; like_filter "country";
    eq_filter "work_style"; flag_filter "featured" "is_featured";
    flag_filter "verified" "is_verified"; search_filter;
    array_filter "tags"; array_filter "skills"; array_filter "domain";
    eq_filter "fees"; deadline_filter now ].

Fixpoint run_blocks (blocks : list (obj -> where_result -> outcome where_result))
    (f : obj) (w : where_result) : outcome where_result :=
  match blocks with
  | [] => Ok w
  | b :: rest => obind (b f w) (run_blocks rest f)
  end.

(** [buildWhereClause(filters)] of the model for table [t]; [now] is what
    [new Date()] reads. *)
Definition buildWhereClause (t : table) (now : Z) (filters : obj) : outcome where_result :=
  run_blocks (filter_blocks t now) filters (mkWhere [] [] 1).

(** [buildOrderClause(sort, order)]: the validated column and direction of
    [ORDER BY column direction]. *)
Definition validSortFields : list string :=
  ["posted_date"; "deadline"; "view_count"; "created_at"; "event_date"; "title"].

Definition validOrders : list string := ["asc"; "desc"].

(** [Array.isArray(x) ? x[0] : x]. *)
Definition first_if_array (x : value) : value :=
  match x with
  | VArr [] => VUndef
  | VArr (y :: _) => y
  | _ => x
  end.

Definition buildOrderClause (sort order : value) : string * string :=
  let sort := match sort with VUndef => VStr "posted_date" | _ => sort end in
  let order := match order with VUndef => VStr "desc" | _ => order end in
  let safeSort := first_if_array sort in
  let safeOrder := first_if_array order in
  let sortField :=
    match safeSort with
    | VStr s => if mem_string s validSortFields then s else "posted_date"
    | _ => "posted_date"
    end in
  let sortOrder :=
    match safeOrder with
    | VStr s => if mem_string (toLowerCase s) validOrders then toUpperCase s else "DESC"
    | _ => "DESC"
    end in
  (sortField, sortOrder).

Definition order_text (o : string * string) : string :=
  ("ORDER BY " ++ fst o ++ " " ++ snd o)%string.

(** [Math.ceil(a / b)] for integers; [None] when the quotient is not finite. *)
Definition ceil_div (a b : Z) : option Z :=
  if b =? 0 then None else Some (- ((- a) / b)).

(** [None] stands for a number that is not finite ([NaN], [Infinity]). *)
Record pagination : Type := mkPagination {
  total : option Z;
  page : Z;
  limit : Z;
  totalPages : option Z;
  hasMore : bool
}.

Record listing : Type := mkListing { data : list row; pages : pagination }.

(** [findAll(filters, page, limit)], the same text in both models. *)
Definition findAll (t : table) (filters : obj) (page limit : Z) : M listing :=
  let offset := (page - 1) * limit in
  fun d =>
    bindM (lift (buildWhereClause t (clock d) filters)) (fun w =>
    let o := buildOrderClause (get "sort" filters) (get "order" filters) in
    bindM (select_count t (conditions w) (values w)) (fun count =>
    let total := parseInt_string count in
    let vals := values w ++ [VNum limit; VNum offset] in
    bindM (select_page t (conditions w) (fst o) (String.eqb (snd o) "DESC")
             (paramIndex w) (S (paramIndex w)) vals) (fun rows =>
    ret (mkListing rows
           (mkPagination total page limit
              (match total with Some n => ceil_div n limit | None => None end)
              (match total with Some n => page * limit <? n | None => false end)))))) d.

(** *** create *)

Definition work_upsert : upsert_stmt :=
  mkUpsert Work
    [ "work_type"; "title"; "apply_url"; "city"; "country"; "work_style";
      "organization"; "company"; "image_url"; "stipend"; "duration";
      "salary"; "experience"; "skills"; "who_can_apply"; "deadline";
      "tags"; "source"; "external_id"; "is_verified"; "is_featured" ]
    [ "work_type"; "apply_url" ]
    [ ("last_seen_date", ENow);
      ("status", EReviveFrom ["expired"]);
      ("title", EExcluded "title");
      ("city", EExcluded "city");
      ("country", EExcluded "country");
      ("work_style", EExcluded "work_style");
      ("organization", EExcluded "organization");
      ("company", EExcluded "company");
      ("deadline", EExcluded "deadline");
      ("tags", EExcluded "tags");
      ("stipend", EExcluded "stipend");
      ("duration", EExcluded "duration");
      ("salary", EExcluded "salary");
      ("experience", EExcluded "experience");
      ("skills", EExcluded "skills");
      ("updated_at", ENow) ].

Definition work_values (data : obj) (workType : value) : list value :=
  [ workType;
    get "title" data;
    get "apply_url" data;
    or_else (get "city" data) VNull;
    or_else (get "country" data) VNull;
    or_else (get "work_style" data) VNull;
    or_else (get "organization" data) VNull;
    or_else (or_else (get "company" data) (get "organization" data)) VNull;
    or_else (get "image_url" data) VNull;
    or_else (get "stipend" data) VNull;
    or_else (get "duration" data) VNull;
    or_else (get "salary" data) VNull;
    or_else (get "experience" data) VNull;
    or_else (get "skills" data) VNull;
    or_else (get "who_can_apply" data) VNull;
    or_else (get "deadline" data) VNull;
    or_else (get "tags" data) VNull;
    or_else (get "source" data) (VStr "manual");
    or_else (get "external_id" data) VNull;
    or_else (get "is_verified" data) (VBool false);
    or_else (get "is_featured" data) (VBool false) ].

Definition event_upsert : upsert_stmt :=
  mkUpsert Event
    [ "event_type"; "title"; "apply_url"; "city"; "country";
      "organization"; "image_url"; "team_size"; "fees"; "perks";
      "event_date"; "learning_type"; "deadline"; "tags"; "domain";
      "source"; "external_id"; "is_verified"; "is_featured" ]
    [ "event_type"; "apply_url" ]
    [ ("last_seen_date", ENow);
      ("status", EReviveFrom ["expired"; "archived"]);
      ("title", EExcluded "title");
      ("city", EExcluded "city");
      ("country", EExcluded "country");
      ("organization", EExcluded "organization");
      ("deadline", EExcluded "deadline");
      ("event_date", EExcluded "event_date");
      ("tags", EExcluded "tags");
      ("domain", EExcluded "domain");
      ("team_size", EExcluded "team_size");
      ("fees", EExcluded "fees");
      ("perks", EExcluded "perks");
      ("updated_at", ENow) ].

Definition event_values (data : obj) (eventType : value) : list value :=
  [ eventType;
    get "title" data;
    get "apply_url" data;
    or_else (get "city" data) VNull;
    or_else (get "country" data) VNull;
    or_else (get "organization" data) VNull;
    or_else (get "image_url" data) VNull;
    or_else (get "team_size" data) VNull;
    or_else (get "fees" data) VNull;
    or_else (get "perks" data) VNull;
    or_else (get "event_date" data) VNull;
    or_else (get "learning_type" data) VNull;
    or_else (get "deadline" data) VNull;
    or_else (get "tags" data) VNull;
    or_else (get "domain" data) VNull;
    or_else (get "source" data) (VStr "manual");
    or_else (get "external_id" data) VNull;
    or_else (get "is_verified" data) (VBool false);
    or_else (get "is_featured" data) (VBool false) ].

Definition upsert_of (t : table) : upsert_stmt :=
  match t with Work => work_upsert | Event => event_upsert end.

Definition values_of (t : table) : obj -> value -> list value :=
  match t with Work => work_values | Event => event_values end.

(** [create(data, type)] of the model for table [t]: one statement, whose
    only returned row is the result. *)
Definition create (t : table) (data : obj) (type : value) : M row :=
  exec_upsert (upsert_of t) (values_of t data type).

(** *** The shared base model *)

(** [findById(id)]: [result.rows[0] || null]. *)
Definition findById (t : table) (id : string) : M (option row) :=
  bindM (select_by_id t [VStr id]) (fun rows => ret (head rows)).

(** [incrementViewCount(id)]. *)
Definition incrementViewCount (t : table) (id : string) : M (option row) :=
  bindM (bump_views t [VStr id]) (fun rows => ret (head rows)).

Definition allowedFields : list string :=
  [ "title"; "city"; "country"; "work_style"; "organization";
    "company"; "image_url"; "deadline"; "tags"; "stipend";
    "duration"; "salary"; "experience"; "skills"; "who_can_apply";
    "team_size"; "fees"; "perks"; "event_date"; "learning_type";
    "domain"; "is_verified"; "is_featured"; "status" ].

Definition is_undefined (v : value) : bool :=
  match v with VUndef => true | _ => false end.

(** The SET list under construction in [update]. *)
Record set_state : Type := mkSet {
  setClause : list setitem;
  setValues : list value;
  setIndex : nat
}.

(** One turn of [Object.keys(updates).forEach(...)]. *)
Definition collect_field (updates : obj) (st : set_state) (field : string) : set_state :=
  if mem_string field allowedFields && negb (is_undefined (get field updates))
  then mkSet (setClause st ++ [SetParam field (setIndex st)])
             (setValues st ++ [get field updates])
             (S (setIndex st))
  else st.

Definition collect_fields (updates : obj) : set_state :=
  fold_left (collect_field updates) (keys updates) (mkSet [] [] 1).

(** [update(id, updates)]. *)
Definition update (t : table) (id : string) (updates : obj) : M row :=
  let st := collect_fields updates in
  if Nat.eqb (length (setClause st)) 0
  then throw (js_error "No valid fields to update")
  else
    bindM (update_by_id t (setClause st ++ [SetNow "updated_at"]) (setIndex st)
             (setValues st ++ [VStr id])) (fun rows =>
    match rows with
    | [] => throw (js_error "Opportunity not found")
    | r :: _ => ret r
    end).

(** [delete(id, hardDelete)]; the result is the [id] cell of the first
    affected row. *)
Definition delete (t : table) (id : string) (hardDelete : bool) : M cell :=
  if hardDelete then
    bindM (delete_by_id t [VStr id]) (fun rows =>
    match rows with
    | [] => throw (js_error "Opportunity not found")
    | r :: _ => ret (col r "id")
    end)
  else
    bindM (archive_by_id t [VStr id]) (fun rows =>
    match rows with
    | [] => throw (js_error "Opportunity not found")
    | r :: _ => ret (col r "id")
    end).

(** *** bulkUpsert *)

(** One entry of the array [bulkUpsert] returns. *)
Inductive bulk_entry : Type :=
| Stored (id type : cell) (tbl : string) (status : cell) (url : cell)
| Failed (url type : value) (tbl : string) (reason : string).

(** [try { create(opp, opp[typeField]) ... } catch (err) { ... }]. *)
Definition upsert_one (t : table) (opp : obj) : M bulk_entry :=
  fun d =>
    match create t opp (get (typeField t) opp) d with
    | (Ok r, d') =>
        (Ok (Stored (col r "id") (col r (typeField t)) (tableName t)
               (col r "action") (col r "apply_url")), d')
    | (Throw err, d') =>
        (Ok (Failed (get "apply_url" opp) (get (typeField t) opp) (tableName t)
               (message err)), d')
    end.

Fixpoint bulkUpsert (t : table) (opportunities : list obj) : M (list bulk_entry) :=
  match opportunities with
  | [] => ret []
  | opp :: rest =>
      bindM (upsert_one t opp) (fun e =>
      bindM (bulkUpsert t rest) (fun es => ret (e :: es)))
  end.

End Models.

End Model.

(** ** Validators (backend/src/utils/validators.js) *)

Module Validators.
Import JS Sql.

Definition is_hex (c : ascii) : bool :=
  match digit_value 16 c with Some _ => true | None => false end.

(** [n] hexadecimal digits, then the rest of the string. *)
Fixpoint hex_run (n : nat) (s : string) : option string :=
  match n with
  | O => Some s
  | S k =>
      match s with
      | String c rest => if is_hex c then hex_run k rest else None
      | EmptyString => None
      end
  end.

Definition dash (s : option string) : option string :=
  match s with
  | Some (String "-"%char rest) => Some rest
  | _ => None
  end.

(** [/^[0-9a-f]{8}-[0-9a-f]{4}-[0-9a-f]{4}-[0-9a-f]{4}-[0-9a-f]{12}$/i.test(id)]. *)
Definition isValidUUID (id : string) : bool :=
  match
    mbind (hex_run 12) (dash (mbind (hex_run 4) (dash (mbind (hex_run 4)
      (dash (mbind (hex_run 4) (dash (hex_run 8 id))))))))
  with
  | Some EmptyString => true
  | _ => false
  end.

Section Pagination.
Context {E : Engine}.

(** [parseInt(v)]. *)
Definition parseInt (v : value) : option Z := parseInt_string (toString date_text v).

(** [parseInt(v) || d]: [NaN] and [0] both give the default. *)
Definition parseInt_or (v : value) (d : Z) : Z :=
  match parseInt v with
  | Some n => if n =? 0 then d else n
  | None => d
  end.

(** [validatePagination(page, limit, maxLimit = 50)]. *)
Definition validatePagination (page limit : value) (maxLimit : Z) : Z * Z :=
  let sanitizedPage := Z.max 1 (parseInt_or page 1) in
  let sanitizedLimit := Z.min maxLimit (Z.max 1 (parseInt_or limit 10)) in
  (sanitizedPage, sanitizedLimit).

End Pagination.

End Validators.

(** ** Responses and error handling (backend/src/middleware/errorHandler.js) *)

Module Http.
Import JS Sql Model.

(** The counters of the batch report. *)
Record tally : Type := mkTally { created : nat; updated : nat; failed : nat }.

(** What a handler sends. *)
Inductive body : Type :=
| NoBody                                               (* send() *)
| Failure (error : string) (message : option string)   (* success: false *)
| Item (data : row) (message : option string)          (* success: true, data *)
| Page (data : list row) (pages : pagination) (filters : obj)
| BatchReport (total : nat) (summary : tally) (breakdown : list (string * tally))
              (results : option (list bulk_entry)).

Record response : Type := mkResponse { status : nat; content : body }.

Fixpoint contains (needle hay : string) : bool :=
  String.prefix needle hay ||
  match hay with
  | EmptyString => false
  | String _ rest => contains needle rest
  end.

(** [err.code === sqlstate]. *)
Definition code_is (err : error) (sqlstate : string) : bool :=
  match code err with
  | Some c => String.eqb c sqlstate
  | None => false
  end.

(** [errorHandler(err, req, res, next)], outside development mode (where
    the bodies carry extra diagnostic fields).  A NOT NULL violation carries
    the column's name as its message, which is what [err.column] reads. *)
Definition errorHandler (err : error) : response :=
  if code_is err "23505" then
    mkResponse 409 (Failure "Duplicate entry"
      (Some "An opportunity with this URL already exists for this type"))
  else if code_is err "23503" then
    mkResponse 400 (Failure "Invalid reference" (Some "Referenced record does not exist"))
  else if code_is err "23502" then
    mkResponse 400 (Failure "Missing required field"
      (Some ("Field '" ++ message err ++ "' is required")%string))
  else if code_is err "22P02" then
    mkResponse 400 (Failure "Invalid format" (Some "Invalid data format provided"))
  else if contains "not found" (toLowerCase (message err)) then
    mkResponse 404 (Failure "Not found" (Some (message err)))
  else
    mkResponse 500 (Failure "Internal Server Error" (Some "An unexpected error occurred")).

(** [asyncHandler(fn)]: a rejected handler goes to [errorHandler]. *)
Definition asyncHandler (h : M response) : db -> response * db :=
  fun d =>
    match h d with
    | (Ok r, d') => (r, d')
    | (Throw e, d') => (errorHandler e, d')
    end.

End Http.

(** ** Controllers (backend/src/controllers) *)

Module Controllers.
Import JS Sql Model Validators Http.

(** What a handler reads from the request. *)
Record request : Type := mkRequest {
  param_id : string;      (* req.params.id *)
  query : obj;            (* req.query *)
  payload : obj           (* req.body *)
}.

Section Handlers.
Context {E : Engine}.

(** *** Listing endpoints (workController.js, eventController.js) *)

(** The filter bag of the work listings:
    [{...req.query, work_type, sort: req.query.sort || 'posted_date',
      order: req.query.order || 'desc'}]. *)
Definition work_filters (workType : string) (q : obj) : obj :=
  set "order" (or_else (get "order" q) (VStr "desc"))
    (set "sort" (or_else (get "sort" q) (VStr "posted_date"))
       (set "work_type" (VStr workType) q)).

(** The filter bag of the event listings:
    [{...req.query, type, sort: ..., order: ...}]. *)
Definition event_filters (eventType : string) (q : obj) : obj :=
  set "order" (or_else (get "order" q) (VStr "desc"))
    (set "sort" (or_else (get "sort" q) (VStr "posted_date"))
       (set "type" (VStr eventType) q)).

Definition echo (fixed : string * string) (names : list string) (q : obj) : obj :=
  (fst fixed, VStr (snd fixed)) :: map (fun k => (k, get k q)) names.

Definition list_handler (t : table) (filters : obj) (echoed : obj) (req : request)
    : M response :=
  let '(page, limit) :=
    validatePagination (get "page" (query req)) (get "limit" (query req)) 50 in
  bindM (findAll t filters page limit) (fun result =>
  ret (mkResponse 200 (Page (data result) (pages result) echoed))).

Definition getInternships (req : request) : db -> response * db :=
  asyncHandler
    (list_handler Work (work_filters "internship" (query req))
       (echo ("work_type", "internship")
          ["city"; "country"; "work_style"; "skills"; "search"] (query req)) req).

Definition getJobs (req : request) : db -> response * db :=
  asyncHandler
    (list_handler Work (work_filters "job" (query req))
       (echo ("work_type", "job")
          ["city"; "country"; "work_style"; "experience"; "search"] (query req)) req).

Definition getHackathons (req : request) : db -> response * db :=
  asyncHandler
    (list_handler Event (event_filters "hackathon" (query req))
       (echo ("event_type", "hackathon") ["city"; "fees"; "domain"] (query req)) req).

Definition getScholarships (req : request) : db -> response * db :=
  asyncHandler
    (list_handler Event (event_filters "scholarship" (query req))
       (echo ("event_type", "scholarship") ["city"; "fees"] (query req)) req).

Definition getLearning (req : request) : db -> response * db :=
  asyncHandler
    (list_handler Event (event_filters "learning" (query req))
       (echo ("event_type", "learning") ["learning_type"; "fees"] (query req)) req).

(** *** Cross-table operations (opportunityController.js) *)

(** Work table first, then the event table; the result remembers which
    table answered. *)
Definition resolve (id : string) : M (option (row * table)) :=
  bindM (findById Work id) (fun found =>
  match found with
  | Some r => ret (Some (r, Work))
  | None =>
      bindM (findById Event id) (fun found' =>
      match found' with
      | Some r => ret (Some (r, Event))
      | None => ret None
      end)
  end).

Definition category (t : table) : string :=
  match t with Work => "work" | Event => "event" end.

(** [(opportunity.view_count || 0) + 1]. *)
Definition viewed (r : row) : cell :=
  match col r "view_count" with
  | CInt n => CInt (n + 1)
  | _ => CInt 1
  end.

Definition getById (req : request) : db -> response * db :=
  asyncHandler (
    let id := param_id req in
    if negb (isValidUUID id)
    then ret (mkResponse 400 (Failure "Invalid ID format" (Some "ID must be a valid UUID")))
    else
      bindM (resolve id) (fun found =>
      match found with
      | None =>
          ret (mkResponse 404 (Failure "Opportunity not found"
                 (Some ("No opportunity found with ID: " ++ id)%string)))
      | Some (opportunity, t) =>
          bindM (incrementViewCount t id) (fun _ =>
          ret (mkResponse 200
                 (Item (<["category" := CText (category t)]>
                          (<["view_count" := viewed opportunity]> opportunity)) None)))
      end)).

Definition update (req : request) : db -> response * db :=
  asyncHandler (
    let id := param_id req in
    let updates := payload req in
    if negb (isValidUUID id)
    then ret (mkResponse 400 (Failure "Invalid ID format" None))
    else if truthy (get "work_type" updates) || truthy (get "event_type" updates)
    then ret (mkResponse 400 (Failure "Cannot change opportunity type"
                (Some "work_type and event_type cannot be modified")))
    else
      bindM (resolve id) (fun found =>
      match found with
      | None => ret (mkResponse 404 (Failure "Opportunity not found" None))
      | Some (_, t) =>
          bindM (Model.update t id updates) (fun updated =>
          ret (mkResponse 200 (Item updated (Some "Opportunity updated successfully"))))
      end)).

Definition delete (req : request) : db -> response * db :=
  asyncHandler (
    let id := param_id req in
    if negb (isValidUUID id)
    then ret (mkResponse 400 (Failure "Invalid ID format" None))
    else
      bindM (findById Work id) (fun opportunity =>
      match opportunity with
      | Some _ =>
          bindM (Model.delete Work id true) (fun _ => ret (mkResponse 204 NoBody))
      | None =>
          bindM (findById Event id) (fun opportunity' =>
          match opportunity' with
          | Some _ =>
              bindM (Model.delete Event id false) (fun _ => ret (mkResponse 204 NoBody))
          | None => ret (mkResponse 404 (Failure "Opportunity not found" None))
          end)
      end)).

(** *** Batch ingestion (batchController.js) *)

Definition work_types : list string := ["internship"; "job"].
Definition event_types : list string := ["hackathon"; "learning"; "scholarship"].

(** [list.includes(v)] for a list of strings. *)
Definition includes (l : list string) (v : value) : bool :=
  match v with VStr s => mem_string s l | _ => false end.

(** The two arrays filled by the [forEach] loop. *)
Record partitioned : Type := mkPartitioned { workOpps : list obj; eventOpps : list obj }.

(** One turn of the loop.  The handler stamps [source] on the element, drops
    it when it has no [type], and otherwise routes a copy that carries the
    type under the table's own column name.  Assigning a property of [null]
    or [undefined] throws; on any other value that is not a plain object the
    assignment has no effect and [type] reads as [undefined]. *)
Definition route (source : value) (acc : partitioned) (item : value) : outcome partitioned :=
  match item with
  | VUndef | VNull => Throw (js_error "Cannot set properties of null (setting 'source')")
  | VObj fields =>
      let opp := set "source" (or_else source (VStr "batch")) fields in
      if negb (truthy (get "type" opp)) then Ok acc
      else if includes work_types (get "type" opp)
      then Ok (mkPartitioned (workOpps acc ++ [set "work_type" (get "type" opp) opp])
                 (eventOpps acc))
      else if includes event_types (get "type" opp)
      then Ok (mkPartitioned (workOpps acc)
                 (eventOpps acc ++ [set "event_type" (get "type" opp) opp]))
      else Ok acc
  | _ => Ok acc
  end.

Fixpoint route_all (source : value) (acc : partitioned) (items : list value)
    : outcome partitioned :=
  match items with
  | [] => Ok acc
  | item :: rest => obind (route source acc item) (fun acc' => route_all source acc' rest)
  end.

Definition entry_status (e : bulk_entry) : string :=
  match e with
  | Stored _ _ _ (CText s) _ => s
  | Stored _ _ _ _ _ => ""
  | Failed _ _ _ _ => "failed"
  end.

Definition entry_table (e : bulk_entry) : string :=
  match e with Stored _ _ tbl _ _ | Failed _ _ tbl _ => tbl end.

Definition entry_type (e : bulk_entry) : string :=
  match e with
  | Stored _ (CText ty) _ _ _ => ty
  | Failed _ (VStr ty) _ _ => ty
  | _ => ""
  end.

Definition count_status (st : string) (es : list bulk_entry) : nat :=
  length (List.filter (fun e => String.eqb (entry_status e) st) es).

Definition tally_of (es : list bulk_entry) : tally :=
  mkTally (count_status "created" es) (count_status "updated" es) (count_status "failed" es).

(** The per-type counters: an entry counts under its type when the type
    belongs to the family of the table the entry came from. *)
Definition breakdown_of (es : list bulk_entry) : list (string * tally) :=
  map (fun '(tbl, ty) =>
         (ty, tally_of (List.filter (fun e => String.eqb (entry_table e) tbl
                                          && String.eqb (entry_type e) ty) es)))
      [ ("opportunities_work", "internship"); ("opportunities_work", "job");
        ("opportunities_event", "hackathon"); ("opportunities_event", "learning");
        ("opportunities_event", "scholarship") ].

(** The two bulk upserts are started together; they work on different
    tables, and the work table's statements are taken first here. *)
Definition batchCreate (req : request) : db -> response * db :=
  asyncHandler (
    let source := get "source" (payload req) in
    let opportunities := get "opportunities" (payload req) in
    match opportunities with
    | VArr items =>
        if Nat.eqb (length items) 0
        then ret (mkResponse 400 (Failure "Empty batch"
                    (Some "opportunities array cannot be empty")))
        else if Nat.ltb 500 (length items)
        then ret (mkResponse 400 (Failure "Batch too large"
                    (Some "Maximum 500 opportunities per batch")))
        else
          bindM (lift (route_all source (mkPartitioned [] []) items)) (fun parts =>
          bindM (if Nat.ltb 0 (length (workOpps parts))
                 then bulkUpsert Work (workOpps parts) else ret []) (fun workResults =>
          bindM (if Nat.ltb 0 (length (eventOpps parts))
                 then bulkUpsert Event (eventOpps parts) else ret []) (fun eventResults =>
          let allResults := workResults ++ eventResults in
          ret (mkResponse 200
                 (BatchReport (length items) (tally_of allResults)
                    (breakdown_of allResults)
                    (if Nat.leb (length allResults) 100 then Some allResults else None))))))
    | _ =>
        (* !opportunities || !Array.isArray(opportunities) *)
        ret (mkResponse 400 (Failure "Invalid input" (Some "opportunities must be an array")))
    end).

End Handlers.

End Controllers.

(** ** A small engine to run the model on

    One way of filling in [Engine], enough to run the handlers on concrete
    requests: text, numbers and booleans convert the obvious way, a
    timestamp is given as epoch milliseconds, and full-text search is a
    case-insensitive substring test.  The general results below hold for
    every engine. *)

Module Reference.
Import JS Sql Validators Http.

Definition bind_text (max : option nat) (s : string) : outcome cell :=
  match max with
  | Some n =>
      if Nat.leb (String.length s) n then Ok (CText s)
      else Throw (pg_error "22001" "value too long")
  | None => Ok (CText s)
  end.

Fixpoint all_strings (xs : list value) : option (list string) :=
  match xs with
  | [] => Some []
  | VStr s :: rest =>
      match all_strings rest with Some l => Some (s :: l) | None => None end
  | _ => None
  end.

Definition ref_bind (ty : coltype) (v : value) : outcome cell :=
  match v with
  | VUndef | VNull => Ok CNull
  | _ =>
      match ty, v with
      | TUuid, VStr s =>
          if isValidUUID s then Ok (CText (toLowerCase s))
          else Throw (pg_error "22P02" "invalid input syntax for type uuid")
      | TVarchar n, VStr s => bind_text (Some n) s
      | TVarchar n, VNum z => bind_text (Some n) (string_of_Z z)
      | TText, VStr s => Ok (CText s)
      | TText, VNum z => Ok (CText (string_of_Z z))
      | TTextArr, VArr xs =>
          match all_strings xs with
          | Some l => Ok (CArr l)
          | None => Throw (pg_error "22P02" "malformed array literal")
          end
      | TTimestamptz, VDate ms => Ok (CTime ms)
      | TTimestamptz, VNum ms => Ok (CTime ms)
      | TBoolean, VBool b => Ok (CBool b)
      | TInteger, VNum n => Ok (CInt n)
      | _, _ => Throw (pg_error "22P02" "invalid input syntax")
      end
  end.

(** [LIKE]: [%] matches any run of characters, [_] any one character. *)
Fixpoint ref_like (s pat : string) {struct pat} : bool :=
  match pat with
  | EmptyString => match s with EmptyString => true | _ => false end
  | String "%"%char pat' =>
      (fix from (s : string) : bool :=
         ref_like s pat' ||
         match s with
         | EmptyString => false
         | String _ s' => from s'
         end) s
  | String "_"%char pat' =>
      match s with
      | EmptyString => false
      | String _ s' => ref_like s' pat'
      end
  | String c pat' =>
      match s with
      | EmptyString => false
      | String c' s' => Ascii.eqb c c' && ref_like s' pat'
      end
  end.

Definition ref_leb (a b : cell) : bool :=
  match a, b with
  | CInt x, CInt y | CTime x, CTime y => x <=? y
  | CText s, CText t => String.leb s t
  | CBool x, CBool y => implb x y
  | _, _ => true
  end.

Fixpoint zeros (n : nat) : string :=
  match n with
  | O => ""
  | S k => String "0"%char (zeros k)
  end.

Definition pad_left (width : nat) (s : string) : string :=
  (zeros (width - String.length s) ++ s)%string.

Definition ref_uuid (n : nat) : string :=
  ("00000000-0000-4000-8000-" ++ pad_left 12 (string_of_Z (Z.of_nat n)))%string.

Definition engine : Engine := {|
  bind := ref_bind;
  sql_lower := toLowerCase;
  sql_like := ref_like;
  fts_match := fun doc q => contains (toLowerCase q) (toLowerCase doc);
  cell_leb := ref_leb;
  gen_random_uuid := ref_uuid;
  date_text := fun ms => ("Date(" ++ string_of_Z ms ++ ")")%string
|}.

(** An empty database at time 1000. *)
Definition empty_db : db := mkDb [] [] 1000 0 [].

End Reference.

(** ** Notions used to state the properties *)

Module Spec.
Import JS Sql Model Validators Http Controllers.

(** The filter key a predicate answers to (the table of recognised
    filters): the type predicate answers to [type], the flag predicates to
    [featured] and [verified], every other predicate to the key named like
    its column. *)
Definition filter_key (t : table) (k : cond) : string :=
  match k with
  | CEq c _ => if String.eqb c (typeField t) then "type" else c
  | CLikeCI c _ => c
  | CIsTrue c =>
      if String.eqb c "is_featured" then "featured"
      else if String.eqb c "is_verified" then "verified" else c
  | CSearch _ => "search"
  | COverlap c _ => c
  | CBetween c _ _ => c
  end.

(** The predicate was asked for: its key is in the bag, with a non-empty
    value. *)
Definition requested (t : table) (filters : obj) (k : cond) : Prop :=
  has (filter_key t k) filters = true /\ truthy (get (filter_key t k) filters) = true.

(** The predicate is the default [status = 'active']. *)
Definition default_status (filters : obj) (vals : list value) (k : cond) : Prop :=
  exists p, k = CEq "status" p /\ param vals p = Ok (VStr "active") /\
            truthy (get "status" filters) = false /\
            truthy (get "includeInactive" filters) = false.

Definition justified (t : table) (filters : obj) (vals : list value) (k : cond) : Prop :=
  requested t filters k \/ default_status filters vals k.

(** What the blocks of the filter compiler maintain. *)
Definition compiled (t : table) (filters : obj) (w : where_result) : Prop :=
  paramIndex w = S (length (values w)) /\
  Forall (justified t filters (values w)) (conditions w) /\
  Forall (fun k => Forall (fun p => (1 <= p <= length (values w))%nat) (cond_params k))
         (conditions w).

(** A block of the compiler keeps its result compiled. *)
Definition keeps (t : table) (b : obj -> where_result -> outcome where_result) : Prop :=
  forall f w w', compiled t f w -> b f w = Ok w' -> compiled t f w'.

(** The table a statement is sent to. *)
Definition stmt_table (s : stmt) : table :=
  match s with
  | StUpsert t | StSelectById t | StBumpViews t | StUpdate t
  | StDelete t | StArchive t | StCount t | StSelectPage t => t
  end.

(** The row carries identifier [x]. *)
Definition holder (x : cell) : row -> bool := fun r => sql_eq (col r "id") x.

(** The column a constraint looks at. *)
Definition ccol (k : constraint) : string :=
  match k with
  | NotNull c | CheckIn c _ | CheckNonBlank c | CheckHttp c | CheckNonNeg c => c
  end.

(** A row as the archiving UPDATE leaves it at time [now]. *)
Definition archived (now : Z) (r : row) : row := touch now (archive_row now r).

(** The number read so far, [a], continued with the digits [d]. *)
Definition continued (d : Decimal.uint) (a : N) : N :=
  match a with
  | N0 => Pos.of_uint d
  | Npos p => Npos (Pos.of_uint_acc d p)
  end.

(** The second result carries everything the first does, in front. *)
Definition extends (w w' : where_result) : Prop :=
  exists ks vs, conditions w' = conditions w ++ ks /\ values w' = values w ++ vs.

Definition appends (b : obj -> where_result -> outcome where_result) : Prop :=
  forall f w w', b f w = Ok w' -> extends w w'.

End Spec.

(** ** Sample data *)

Module Samples.
Import JS Sql Model Validators Http Controllers Reference.

Definition posting : obj :=
  [("title", VStr "X"); ("apply_url", VStr "https://good.example/a")].

(** The work table after one job was posted. *)
Definition one_job : db := snd (create (E := engine) Work posting (VStr "job") empty_db).

(** [GET] with no query string. *)
Definition bare : request := mkRequest "" [] [].


(** An internship that was posted once and has expired since. *)
Definition stale : db :=
  let d := snd (create (E := engine) Work posting (VStr "internship") empty_db) in
  with_rows Work (map (fun r => <["status" := CText "expired"]> r) (work_rows d)) d.

Definition stale_row : row := List.hd ∅ (work_rows stale).

(** The same posting, verified and from another source, submitted again. *)
Definition reposting : obj :=
  [("title", VStr "Y"); ("apply_url", VStr "https://good.example/a");
   ("is_verified", VBool true); ("source", VStr "scraper")].

Definition reingested : outcome row * db :=
  create (E := engine) Work reposting (VStr "internship") stale.

Definition reingested_row : row :=
  match fst reingested with Ok r => r | Throw _ => ∅ end.

(** The identifier the engine gave to the first row it stored. *)
Definition first_id : string := "00000000-0000-4000-8000-000000000000".

(** A PATCH that names no updatable field. *)
Definition idle_patch : request := mkRequest first_id [] [("views", VNum 7)].

Definition looked_up : outcome (option (row * table)) * db :=
  resolve (E := engine) first_id one_job.

Definition looked_up_entity : row * table :=
  match fst looked_up with Ok (Some x) => x | _ => (∅, Work) end.

Definition first_created : outcome row * db :=
  create (E := engine) Work posting (VStr "internship") empty_db.

Definition first_created_row : row :=
  match fst first_created with Ok r => r | Throw _ => ∅ end.

Definition second_created : outcome row * db :=
  create (E := engine) Work posting (VStr "internship") (at_time 2000 (snd first_created)).

Definition second_created_row : row :=
  match fst second_created with Ok r => r | Throw _ => ∅ end.

(** The event table after one hackathon was posted. *)
Definition one_hackathon : db :=
  snd (create (E := engine) Event posting (VStr "hackathon") empty_db).

Definition hackathon_row : row := List.hd ∅ (event_rows one_hackathon).



(** A request that names the first identifier and, for PATCH, a new title. *)
Definition by_first_id : request := mkRequest first_id [] [("title", VStr "Z")].

(** A row passes the constraints of the event table and can be viewed
    once more. *)
Definition sound_event_row (r : row) : bool :=
  match check_row Event r with Ok _ => true | Throw _ => false end &&
  match col r "view_count" with CInt n => n <? 2147483647 | _ => true end.

(** A batch of 501 postings. *)
Definition oversized : request :=
  mkRequest "" []
    [("source", VStr "scraper");
     ("opportunities", VArr (repeat (VObj (("type", VStr "job") :: posting)) 501))].

End Samples.

(** ** The other validators (backend/src/utils/validators.js) *)

Module Checks.
Import JS Sql Model Validators Http.

(** The parts of the JavaScript host that the validators call and the
    repository does not contain. *)
Class Host : Type := {
  (** [new URL(text)]: the [protocol] and the [hostname] of the parsed
      address, [None] when the constructor throws *)
  url_parts : string -> option (string * string);
  (** [new Date(v).getTime()], [None] for [NaN] *)
  date_ms : value -> option Z;
  (** [Number(text) > n] *)
  text_exceeds : string -> Z -> bool
}.

(** *** sanitizeText *)

(** What follows the first [>] of [s]. *)
Fixpoint after_gt (s : string) : option string :=
  match s with
  | EmptyString => None
  | String c rest => if Ascii.eqb c ">" then Some rest else after_gt rest
  end.

(** [<[^>]+>] at the head of [s]: what follows the match. *)
Definition tag_at (s : string) : option string :=
  match s with
  | String c0 (String c1 rest) =>
      if Ascii.eqb c0 "<" && negb (Ascii.eqb c1 ">") then after_gt rest else None
  | _ => None
  end.

(** The lower-case text [p] at the head of [s], letters of [s] in either
    case: what follows it. *)
Fixpoint skip_ci (p s : string) : option string :=
  match p with
  | EmptyString => Some s
  | String a p' =>
      match s with
      | String c s' => if Ascii.eqb (lower_ascii c) a then skip_ci p' s' else None
      | EmptyString => None
      end
  end.

(** The characters [.] does not match. *)
Definition line_end (c : ascii) : bool :=
  Ascii.eqb c "010" || Ascii.eqb c "013".

(** [.*?<\/script>] at the head of [s]: the closing tag nearest to the
    head, no line break before it. *)
Fixpoint script_end (s : string) : option string :=
  match skip_ci "</script>" s with
  | Some rest => Some rest
  | None =>
      match s with
      | String c rest => if line_end c then None else script_end rest
      | EmptyString => None
      end
  end.

(** [<script[^>]*>.*?<\/script>] with the flag [i], at the head of [s]. *)
Definition script_at (s : string) : option string :=
  match skip_ci "<script" s with
  | Some r1 =>
      match after_gt r1 with
      | Some r2 => script_end r2
      | None => None
      end
  | None => None
  end.

(** [s.replace(re, '')] for a global expression that matches no empty
    text; [head_match] tells what follows a match at the head of a string.
    Matches are taken from left to right and do not overlap.  Every step
    consumes a character, so the length of [s] is fuel enough. *)
Fixpoint remove_matches (head_match : string -> option string) (fuel : nat) (s : string)
    : string :=
  match fuel with
  | O => s
  | S k =>
      match s with
      | EmptyString => EmptyString
      | String c rest =>
          match head_match s with
          | Some after => remove_matches head_match k after
          | None => String c (remove_matches head_match k rest)
          end
      end
  end.

Definition remove_all (head_match : string -> option string) (s : string) : string :=
  remove_matches head_match (String.length s) s.

(** [sanitizeText(text)]. *)
Definition sanitizeText (text : value) : string :=
  match text with
  | VStr s =>
      if String.eqb s "" then ""
      else remove_all tag_at (remove_all script_at (trim s))
  | _ => ""
  end.

Section Validation.
Context {E : Engine} {H : Host}.

(** *** isValidUrl *)

Definition digit_between (lo hi : nat) (c : ascii) : bool :=
  Nat.leb lo (nat_of_ascii c) && Nat.leb (nat_of_ascii c) hi.

(** [/^172\.(1[6-9]|2[0-9]|3[0-1])\./] *)
Definition private_172 (hostname : string) : bool :=
  String.prefix "172." hostname &&
  match String.get 4 hostname, String.get 5 hostname, String.get 6 hostname with
  | Some a, Some b, Some c =>
      ((Ascii.eqb a "1" && digit_between 54 57 b)
       || (Ascii.eqb a "2" && digit_between 48 57 b)
       || (Ascii.eqb a "3" && digit_between 48 49 b))
      && Ascii.eqb c "."
  | _, _, _ => false
  end.

(** [isValidUrl(url)]; the constructor reads its argument as text. *)
Definition isValidUrl (url : value) : bool :=
  match url_parts (toString date_text url) with
  | None => false
  | Some (protocol, hostname) =>
      if negb (mem_string protocol ["http:"; "https:"]) then false
      else
        let hostname := toLowerCase hostname in
        if String.eqb hostname "localhost"
           || String.eqb hostname "127.0.0.1"
           || String.prefix "192.168." hostname
           || String.prefix "10." hostname
           || private_172 hostname
        then false
        else true
  end.

(** *** Reading fields of any type *)

(** [v.length], for a [v] that is neither [null] nor [undefined]. *)
Definition length_of (v : value) : value :=
  match v with
  | VStr s => VNum (Z.of_nat (String.length s))
  | VArr xs => VNum (Z.of_nat (length xs))
  | VObj fields => get "length" fields
  | _ => VUndef
  end.

(** [v > n]: the value is read as a number, and [NaN] is not greater. *)
Definition exceeds (v : value) (n : Z) : bool :=
  match v with
  | VUndef => false
  | VNull => n <? 0
  | VBool b => n <? (if b then 1 else 0)
  | VNum k => n <? k
  | VDate ms => n <? ms
  | VStr _ | VArr _ => text_exceeds (toString date_text v) n
  | VObj _ => false
  end.

(** [s] between double quotes. *)
Definition quoted (s : string) : string :=
  String "034" (s ++ String "034" EmptyString).

(** One entry of the [errors] array: [{ field, message }]. *)
Definition issue : Type := (string * string)%type.

(** *** The checks, in the order of the source *)

Definition check_title (data : obj) : outcome (list issue) :=
  match get "title" data with
  | VStr s =>
      if String.eqb s "" then Ok [("title", "Title is required and must be a string")]
      else if Nat.eqb (String.length (trim s)) 0
      then Ok [("title", "Title cannot be empty")]
      else if Nat.ltb 500 (String.length s)
      then Ok [("title", "Title must be less than 500 characters")]
      else Ok []
  | _ => Ok [("title", "Title is required and must be a string")]
  end.

Definition check_apply_url (data : obj) : outcome (list issue) :=
  if negb (truthy (get "apply_url" data))
  then Ok [("apply_url", "apply_url is required")]
  else if negb (isValidUrl (get "apply_url" data))
  then Ok [("apply_url", "apply_url must be a valid HTTP/HTTPS URL (not localhost)")]
  else Ok [].

(** [if (data[key] && data[key].length > n) errors.push(...)]. *)
Definition check_length (key : string) (n : Z) (message : string) (data : obj)
    : outcome (list issue) :=
  if truthy (get key data) && exceeds (length_of (get key data)) n
  then Ok [(key, message)]
  else Ok [].

(** [if (data[key] && !allowed.includes(data[key].toLowerCase()))
      errors.push(...)]; only a string has the method. *)
Definition check_choice (key : string) (allowed : list string) (message : string)
    (data : obj) : outcome (list issue) :=
  if truthy (get key data) then
    match get key data with
    | VStr s => if mem_string (toLowerCase s) allowed then Ok [] else Ok [(key, message)]
    | _ => Throw (js_error ("data." ++ key ++ ".toLowerCase is not a function"))
    end
  else Ok [].

Definition check_image_url (data : obj) : outcome (list issue) :=
  if truthy (get "image_url" data) && negb (isValidUrl (get "image_url" data))
  then Ok [("image_url", "image_url must be a valid URL")]
  else Ok [].

(** [now] is what [new Date()] reads. *)
Definition check_deadline (now : Z) (data : obj) : outcome (list issue) :=
  if truthy (get "deadline" data) then
    match date_ms (get "deadline" data) with
    | None => Ok [("deadline", "Invalid deadline format (use ISO 8601)")]
    | Some ms =>
        if ms <? now then Ok [("deadline", "Deadline must be a future date")] else Ok []
    end
  else Ok [].

Definition check_event_date (data : obj) : outcome (list issue) :=
  if truthy (get "event_date" data) then
    match date_ms (get "event_date" data) with
    | None => Ok [("event_date", "Invalid event_date format (use ISO 8601)")]
    | Some _ => Ok []
    end
  else Ok [].

(** [if (data[key]) { if (!Array.isArray(data[key])) ... else if
    (data[key].length > n) ... }]. *)
Definition check_list (key : string) (n : nat) (not_array too_many : string) (data : obj)
    : outcome (list issue) :=
  match get key data with
  | VArr xs => if Nat.ltb n (length xs) then Ok [(key, too_many)] else Ok []
  | v => if truthy v then Ok [(key, not_array)] else Ok []
  end.

(** The checks that run for one type only. *)
Definition only_for (type : string) (workType : value)
    (check : obj -> outcome (list issue)) (data : obj) : outcome (list issue) :=
  if seq_str workType type then check data else Ok [].

(** The checks run in order, each adding to [errors]; the first one that
    throws ends the validation. *)
Fixpoint run_checks (checks : list (obj -> outcome (list issue))) (data : obj)
    : outcome (list issue) :=
  match checks with
  | [] => Ok []
  | check :: rest =>
      obind (check data) (fun found =>
      obind (run_checks rest data) (fun more => Ok (found ++ more)))
  end.

(** What a validator returns: [{ isValid: errors.length === 0, errors }]. *)
Record validation : Type := mkValidation { isValid : bool; errors : list issue }.

Definition judged (found : outcome (list issue)) : outcome validation :=
  obind found (fun errors => Ok (mkValidation (Nat.eqb (length errors) 0) errors)).

Definition work_checks (now : Z) (workType : value)
    : list (obj -> outcome (list issue)) :=
  [ check_title;
    check_apply_url;
    check_length "city" 100 "City must be less than 100 characters";
    check_length "country" 100 "Country must be less than 100 characters";
    check_choice "work_style" ["remote"; "hybrid"; "onsite"]
      "work_style must be one of: remote, hybrid, onsite";
    check_image_url;
    check_deadline now;
    check_list "tags" 10 "Tags must be an array" "Maximum 10 tags allowed";
    check_list "skills" 20 "Skills must be an array" "Maximum 20 skills allowed";
    only_for "internship" workType
      (check_length "stipend" 100 "Stipend must be less than 100 characters");
    only_for "internship" workType
      (check_length "duration" 50 "Duration must be less than 50 characters");
    only_for "job" workType
      (check_length "salary" 100 "Salary must be less than 100 characters");
    only_for "job" workType
      (check_length "experience" 100 "Experience must be less than 100 characters") ].

(** [validateWorkOpportunity(data, workType)]. *)
Definition validateWorkOpportunity (now : Z) (data : obj) (workType : value)
    : outcome validation :=
  judged (run_checks (work_checks now workType) data).

Definition event_checks (now : Z) : list (obj -> outcome (list issue)) :=
  [ check_title;
    check_apply_url;
    check_length "city" 100 "City must be less than 100 characters";
    check_length "country" 100 "Country must be less than 100 characters";
    check_image_url;
    check_choice "fees" ["paid"; "unpaid"]
      ("fees must be either " ++ quoted "paid" ++ " or " ++ quoted "unpaid");
    check_choice "learning_type" ["workshop"; "course"; "bootcamp"; "mentorship"]
      ("learning_type must be one of: "
       ++ join ", " ["workshop"; "course"; "bootcamp"; "mentorship"]);
    check_deadline now;
    check_event_date;
    check_list "tags" 10 "Tags must be an array" "Maximum 10 tags allowed";
    check_list "domain" 10 "Domain must be an array" "Maximum 10 domains allowed" ].

(** [validateEventOpportunity(data, eventType)]; the type is not looked
    at. *)
Definition validateEventOpportunity (now : Z) (data : obj) (eventType : value)
    : outcome validation :=
  judged (run_checks (event_checks now) data).

End Validation.

End Checks.

(** ** The other queries of the models (backend/src/models) *)

Module Queries.
Import JS Sql Model.

(** What the fixed statements say besides the predicates of the filter
    compiler. *)
Inductive clause : Type :=
| Asked (k : cond)                  (* a predicate over parameters, as above *)
| TextIs (c s : string)             (* c = 's' *)
| Either (a b : cond).              (* (a OR b) *)

(** One row of [getStats]; the driver hands every count over as its
    decimal text. *)
Record stat : Type := mkStat {
  stat_type : cell;
  stat_total : string;
  stat_active : string;
  stat_expired : string;
  stat_archived : string;
  stat_featured : string;
  stat_verified : string
}.

(** The distinct cells of a list, each at its first place. *)
Fixpoint distinct_cells (xs : list cell) : list cell :=
  match xs with
  | [] => []
  | x :: rest => x :: List.filter (fun y => negb (cell_eqb y x)) (distinct_cells rest)
  end.

Section Queries.
Context {E : Engine}.

Definition compile_clause (t : table) (vals : list value) (k : clause)
    : outcome (row -> bool) :=
  match k with
  | Asked k => compile_cond t vals k
  | TextIs c s =>
      obind (need_col t c) (fun _ => Ok (fun r => sql_eq (col r c) (CText s)))
  | Either a b =>
      obind (compile_cond t vals a) (fun f =>
      obind (compile_cond t vals b) (fun g =>
      Ok (fun r => f r || g r)))
  end.

Fixpoint compile_clauses (t : table) (vals : list value) (ks : list clause)
    : outcome (row -> bool) :=
  match ks with
  | [] => Ok (fun _ => true)
  | k :: rest =>
      obind (compile_clause t vals k) (fun f =>
      obind (compile_clauses t vals rest) (fun g =>
      Ok (fun r => f r && g r)))
  end.

(** [SELECT * FROM t WHERE ks ORDER BY c dir LIMIT $lp]. *)
Definition select_top (t : table) (ks : list clause) (c : string) (descending : bool)
    (lp : nat) (vals : list value) : M (list row) :=
  fun d0 =>
    let d := logged (StSelectPage t) d0 in
    match compile_clauses t vals ks with
    | Throw e => (Throw e, d)
    | Ok f =>
        match need_col t c with
        | Throw e => (Throw e, d)
        | Ok _ =>
            match obind (param vals lp) (row_count "LIMIT") with
            | Ok lim =>
                (Ok (firstn lim
                       (sort_rows (order_leb c descending) (List.filter f (rows_of t d)))),
                 d)
            | Throw e => (Throw e, d)
            end
        end
    end.

(** A parameter with a default value. *)
Definition or_default (v : value) (d : Z) : value :=
  match v with VUndef => VNum d | _ => v end.

(** [getFeatured(type, limit = 4)], the same text in both models but for
    the name of the type column. *)
Definition getFeatured (t : table) (type limit : value) : M (list row) :=
  select_top t
    [ Asked (CEq (typeField t) 1); TextIs "status" "active"; Asked (CIsTrue "is_featured") ]
    "posted_date" true 2 [type; or_default limit 4].

(** [findByOrganization(organizationName, limit = 10)] of the work
    model. *)
Definition findByOrganization (organizationName limit : value) : M (list row) :=
  select_top Work
    [ Either (CLikeCI "organization" 1) (CLikeCI "company" 1); TextIs "status" "active" ]
    "posted_date" true 2 [wrapped organizationName; or_default limit 10].

(** [findFreeEvents(eventType = null, limit = 20)] of the event model:
    the type predicate and its parameter are added when a type is given. *)
Definition findFreeEvents (eventType limit : value) : M (list row) :=
  let typed := truthy eventType in
  let values := if typed then [eventType] else [] in
  select_top Event
    ([ TextIs "status" "active"; TextIs "fees" "unpaid" ]
     ++ if typed then [Asked (CEq "event_type" 1)] else [])
    "posted_date" true (length values + 1) (values ++ [or_default limit 20]).

Definition counted (p : row -> bool) (rs : list row) : string :=
  string_of_Z (Z.of_nat (length (List.filter p rs))).

(** [getStats()]: one row per type, NULL being a type of its own.  The
    statement does not order its groups; they are listed here as the types
    first occur in the table. *)
Definition getStats (t : table) : M (list stat) :=
  fun d0 =>
    let d := logged (StCount t) d0 in
    let rs := rows_of t d in
    (Ok (map (fun k =>
                let group := List.filter (fun r => cell_eqb (col r (typeField t)) k) rs in
                mkStat k
                  (counted (fun _ => true) group)
                  (counted (fun r => sql_eq (col r "status") (CText "active")) group)
                  (counted (fun r => sql_eq (col r "status") (CText "expired")) group)
                  (counted (fun r => sql_eq (col r "status") (CText "archived")) group)
                  (counted (fun r => sql_eq (col r "is_featured") (CBool true)) group)
                  (counted (fun r => sql_eq (col r "is_verified") (CBool true)) group))
             (distinct_cells (map (fun r => col r (typeField t)) rs))),
     d).

End Queries.

End Queries.

(** ** The other handlers (workController.js, eventController.js) *)

Module Endpoints.
Import JS Sql Model Validators Http Controllers Checks Queries.

(** What the handlers of this part send, besides the bodies above. *)
Inductive sent : Type :=
| Standard (b : body)
| Rejected (details : list issue)
  (* success: false, error: 'Validation failed', details *)
| Listed (data : list row) (count : nat) (note : option (string * string)).
  (* success: true, data, count; [note] is the third field some lists have *)

Record answer : Type := mkAnswer { code : nat; carried : sent }.

(** [asyncHandler(fn)] for these handlers. *)
Definition guarded (h : M answer) : db -> answer * db :=
  fun d =>
    match h d with
    | (Ok a, d') => (a, d')
    | (Throw e, d') =>
        (mkAnswer (status (errorHandler e)) (Standard (content (errorHandler e))), d')
    end.

Section Creating.
Context {E : Engine} {H : Host}.

(** A cell inside a template literal. *)
Definition cell_text (x : cell) : string :=
  match x with
  | CNull => "null"
  | CText s => s
  | CBool true => "true"
  | CBool false => "false"
  | CInt n => string_of_Z n
  | CArr xs => join "," xs
  | CTime ms => date_text ms
  end.

(** The five creating handlers: validate, refuse with 400, or upsert and
    answer 201 with [`${label} ${opportunity.action}d successfully`]. *)
Definition creating (t : table)
    (validate : Z -> obj -> value -> outcome validation)
    (type label : string) (req : request) : db -> answer * db :=
  guarded (fun d =>
    match validate (clock d) (payload req) (VStr type) with
    | Throw e => (Throw e, d)
    | Ok validation =>
        if negb (isValid validation)
        then (Ok (mkAnswer 400 (Rejected (errors validation))), d)
        else
          bindM (create t (payload req) (VStr type)) (fun opportunity =>
          ret (mkAnswer 201
                 (Standard
                    (Item opportunity
                       (Some (label ++ " " ++ cell_text (col opportunity "action")
                              ++ "d successfully")%string))))) d
    end).

Definition createInternship : request -> db -> answer * db :=
  creating Work validateWorkOpportunity "internship" "Internship".

Definition createJob : request -> db -> answer * db :=
  creating Work validateWorkOpportunity "job" "Job".

Definition createHackathon : request -> db -> answer * db :=
  creating Event validateEventOpportunity "hackathon" "Hackathon".

Definition createScholarship : request -> db -> answer * db :=
  creating Event validateEventOpportunity "scholarship" "Scholarship".

Definition createLearning : request -> db -> answer * db :=
  creating Event validateEventOpportunity "learning" "Learning program".

End Creating.

Section Listing.
Context {E : Engine}.

(** The four featured lists: [parseInt(req.query.limit) || 4] rows of the
    handler's type. *)
Definition featuring (t : table) (type : string) (req : request) : db -> answer * db :=
  guarded (
    let limit := parseInt_or (get "limit" (query req)) 4 in
    bindM (getFeatured t (VStr type) (VNum limit)) (fun featured =>
    ret (mkAnswer 200 (Listed featured (length featured) None)))).

Definition getFeaturedInternships : request -> db -> answer * db :=
  featuring Work "internship".

Definition getFeaturedJobs : request -> db -> answer * db :=
  featuring Work "job".

Definition getFeaturedHackathons : request -> db -> answer * db :=
  featuring Event "hackathon".

Definition getFeaturedLearning : request -> db -> answer * db :=
  featuring Event "learning".

(** [getByOrganization]; [name] is [req.params.name]. *)
Definition getByOrganization (name : string) (req : request) : db -> answer * db :=
  guarded (
    let limit := parseInt_or (get "limit" (query req)) 10 in
    bindM (findByOrganization (VStr name) (VNum limit)) (fun opportunities =>
    ret (mkAnswer 200
           (Listed opportunities (length opportunities) (Some ("organization", name)))))).

(** [getFreeEvents]: [req.query.type || null]. *)
Definition getFreeEvents (req : request) : db -> answer * db :=
  guarded (
    let eventType := or_else (get "type" (query req)) VNull in
    let limit := parseInt_or (get "limit" (query req)) 20 in
    bindM (findFreeEvents eventType (VNum limit)) (fun events =>
    ret (mkAnswer 200 (Listed events (length events) None)))).

End Listing.

End Endpoints.

(** ** The routes (backend/src/routes) *)

Module Routes.
Import JS Checks.

(** The request methods the router tells apart; [OTHER] is any method no
    route is registered for.  (Preflight requests are answered before they
    reach the router.) *)
Inductive verb : Type := GET | HEAD | POST | PATCH | DELETE | OTHER.

Definition verb_eqb (a b : verb) : bool :=
  match a, b with
  | GET, GET | HEAD, HEAD | POST, POST | PATCH, PATCH | DELETE, DELETE
  | OTHER, OTHER => true
  | _, _ => false
  end.

(** A route path, segment by segment: fixed text, or a named parameter
    ([:id]). *)
Inductive piece : Type :=
| Fixed (text : string)
| Named (name : string).

(** The handlers a route can lead to; [NotFound] is the catch-all that the
    main router registers last. *)
Inductive endpoint : Type :=
| Health | Root
| CreateInternship | GetInternships | GetFeaturedInternships
| CreateJob | GetJobs | GetFeaturedJobs
| GetByOrganization | GetExpiringSoon
| CreateHackathon | GetHackathons | GetFeaturedHackathons
| CreateScholarship | GetScholarships
| CreateLearning | GetLearning | GetFeaturedLearning
| GetUpcoming | GetFreeEvents
| GetById | Update | Delete | GetStats
| BatchCreate
| NotFound.

Record route : Type := mkRoute {
  method : verb;
  path : list piece;
  target : endpoint
}.

(** workRoutes.js, in the order of registration. *)
Definition workRoutes : list route :=
  [ mkRoute POST [Fixed "internships"] CreateInternship;
    mkRoute GET [Fixed "internships"] GetInternships;
    mkRoute GET [Fixed "internships"; Fixed "featured"] GetFeaturedInternships;
    mkRoute POST [Fixed "jobs"] CreateJob;
    mkRoute GET [Fixed "jobs"] GetJobs;
    mkRoute GET [Fixed "jobs"; Fixed "featured"] GetFeaturedJobs;
    mkRoute GET [Fixed "work"; Fixed "organization"; Named "name"] GetByOrganization;
    mkRoute GET [Fixed "work"; Fixed "expiring"] GetExpiringSoon ].

(** eventRoutes.js. *)
Definition eventRoutes : list route :=
  [ mkRoute POST [Fixed "hackathons"] CreateHackathon;
    mkRoute GET [Fixed "hackathons"] GetHackathons;
    mkRoute GET [Fixed "hackathons"; Fixed "featured"] GetFeaturedHackathons;
    mkRoute POST [Fixed "scholarships"] CreateScholarship;
    mkRoute GET [Fixed "scholarships"] GetScholarships;
    mkRoute POST [Fixed "learning"] CreateLearning;
    mkRoute GET [Fixed "learning"] GetLearning;
    mkRoute GET [Fixed "learning"; Fixed "featured"] GetFeaturedLearning;
    mkRoute GET [Fixed "events"; Fixed "upcoming"] GetUpcoming;
    mkRoute GET [Fixed "events"; Fixed "free"] GetFreeEvents ].

(** opportunityRoutes.js. *)
Definition opportunityRoutes : list route :=
  [ mkRoute GET [Fixed "opportunities"; Named "id"] GetById;
    mkRoute PATCH [Fixed "opportunities"; Named "id"] Update;
    mkRoute DELETE [Fixed "opportunities"; Named "id"] Delete;
    mkRoute GET [Fixed "opportunities"; Fixed "stats"] GetStats ].

(** batchRoutes.js. *)
Definition batchRoutes : list route :=
  [ mkRoute POST [Fixed "opportunities"; Fixed "batch"] BatchCreate ].

(** index.js: the two routes of its own, then the four modules, each
    mounted at [/]. *)
Definition api : list route :=
  [ mkRoute GET [Fixed "health"] Health; mkRoute GET [] Root ]
  ++ workRoutes ++ eventRoutes ++ opportunityRoutes ++ batchRoutes.

(** The text up to the next [/], and the text from it on. *)
Fixpoint segment (s : string) : string * string :=
  match s with
  | EmptyString => (EmptyString, EmptyString)
  | String c rest =>
      if Ascii.eqb c "/" then (EmptyString, s)
      else let '(a, b) := segment rest in (String c a, b)
  end.

(** A route path against a request path, as the router compiles it:
    letters in either case, one [/] allowed at the end, a parameter one
    segment that is not empty.  The result is the parameters, as sent. *)
Fixpoint match_pieces (ps : list piece) (s : string) (params : list (string * string))
    : option (list (string * string)) :=
  match ps with
  | [] => if String.eqb s "" || String.eqb s "/" then Some params else None
  | Fixed text :: rest =>
      match skip_ci (String "/" text) s with
      | Some after => match_pieces rest after params
      | None => None
      end
  | Named name :: rest =>
      match s with
      | String c after =>
          if Ascii.eqb c "/" then
            let '(value, after') := segment after in
            if String.eqb value "" then None
            else match_pieces rest after' (params ++ [(name, value)])
          else None
      | EmptyString => None
      end
  end.

(** A route answers its own method, and a route for GET answers HEAD. *)
Definition handles (m : verb) (r : route) : bool :=
  verb_eqb m (method r) || (verb_eqb m HEAD && verb_eqb (method r) GET).

(** The first route, in the order of registration, that handles the method
    and matches the path. *)
Fixpoint first_match (routes : list route) (m : verb) (p : string)
    : option (endpoint * list (string * string)) :=
  match routes with
  | [] => None
  | r :: rest =>
      if handles m r then
        match match_pieces (path r) p [] with
        | Some params => Some (target r, params)
        | None => first_match rest m p
        end
      else first_match rest m p
  end.

(** Where a request goes; [p] is the path below [/api], without the query
    string.  The rate limiters in front of the handlers are taken to let
    the request pass. *)
Definition dispatch (m : verb) (p : string) : endpoint * list (string * string) :=
  match first_match api m p with
  | Some found => found
  | None => (NotFound, [])
  end.

End Routes.

(** ** Further notions used to state the properties *)

Module Terms.
Import JS Sql Model Validators Http Controllers Spec Checks Endpoints.

(** The predicates, read left to right, mention [$1], [$2], ... once each
    and in this order, and [paramIndex] is the next free number. *)
Definition numbered (w : where_result) : Prop :=
  paramIndex w = S (length (values w)) /\
  concat (map cond_params (conditions w)) = seq 1 (length (values w)).

(** A block of the filter compiler keeps a property of its result. *)
Definition preserves (Q : where_result -> Prop)
    (b : obj -> where_result -> outcome where_result) : Prop :=
  forall f w w', Q w -> b f w = Ok w' -> Q w'.

(** [typeof v === 'string']. *)
Definition is_string (v : value) : bool :=
  match v with VStr _ => true | _ => false end.


(** An element of a batch that is routed to one of the two tables: an
    object whose [type] is one of the five known types. *)
Definition routable (item : value) : bool :=
  match item with
  | VObj fields =>
      includes work_types (get "type" fields) || includes event_types (get "type" fields)
  | _ => false
  end.

(** The entry that [bulkUpsert] on table [t] returns for [opp]: a stored
    row, created or updated, or a failure that names the element's own
    [apply_url] and type. *)
Definition reports (t : table) (opp : obj) (e : bulk_entry) : Prop :=
  match e with
  | Stored _ _ tbl status _ =>
      tbl = tableName t /\ (status = CText "created" \/ status = CText "updated")
  | Failed url ty tbl _ =>
      tbl = tableName t /\ url = get "apply_url" opp /\ ty = get (typeField t) opp
  end.

(** The number of elements sorted into the two lists so far. *)
Definition routed (parts : partitioned) : nat :=
  (length (workOpps parts) + length (eventOpps parts))%nat.

(** The row the cross-table lookup finds for identifier [x], and its
    table: the work table is asked first. *)
Definition found_in (x : cell) (d : db) (r : row) (t : table) : Prop :=
  match t with
  | Work => find (holder x) (work_rows d) = Some r
  | Event => find (holder x) (work_rows d) = None /\
             find (holder x) (event_rows d) = Some r
  end.

(** What a rewriting function leaves of a row: its result, or the row
    itself where it fails. *)
Definition rewritten (f : row -> outcome row) (r : row) : row :=
  match f r with Ok r1 => r1 | Throw _ => r end.

(** The text holds a tag, a match of [<[^>]+>], somewhere. *)
Fixpoint has_tag (s : string) : bool :=
  match tag_at s with
  | Some _ => true
  | None =>
      match s with
      | String _ rest => has_tag rest
      | EmptyString => false
      end
  end.

(** The character occurs in the text. *)
Fixpoint occurs (a : ascii) (s : string) : bool :=
  match s with
  | EmptyString => false
  | String c rest => Ascii.eqb c a || occurs a rest
  end.

(** The field of the payload that a creating handler of table [t] reads
    with [toLowerCase] first. *)
Definition first_choice (t : table) : string :=
  match t with Work => "work_style" | Event => "fees" end.

(** The five kinds of opportunity, each with its creating handler, its
    table, the type it stores and the word its answer starts with. *)
Inductive kind : Type := Internship | Job | Hackathon | Scholarship | Learning.

Definition kind_table (k : kind) : table :=
  match k with
  | Internship | Job => Work
  | Hackathon | Scholarship | Learning => Event
  end.

Definition kind_type (k : kind) : string :=
  match k with
  | Internship => "internship"
  | Job => "job"
  | Hackathon => "hackathon"
  | Scholarship => "scholarship"
  | Learning => "learning"
  end.

Definition kind_label (k : kind) : string :=
  match k with
  | Internship => "Internship"
  | Job => "Job"
  | Hackathon => "Hackathon"
  | Scholarship => "Scholarship"
  | Learning => "Learning program"
  end.

Definition creating_handler {E : Engine} {H : Host} (k : kind)
    : request -> db -> answer * db :=
  match k with
  | Internship => createInternship
  | Job => createJob
  | Hackathon => createHackathon
  | Scholarship => createScholarship
  | Learning => createLearning
  end.

Definition kind_validator {E : Engine} {H : Host} (k : kind)
    : Z -> obj -> value -> outcome validation :=
  match kind_table k with
  | Work => validateWorkOpportunity
  | Event => validateEventOpportunity
  end.

(** The values the schema allows in the [status] column of a table. *)
Definition statuses (t : table) : list string :=
  match t with
  | Work => ["active"; "expired"]
  | Event => ["active"; "expired"; "archived"]
  end.


(** The rows of a table that carry [k] in the type column. *)
Definition of_type (t : table) (k : cell) (rs : list row) : list row :=
  List.filter (fun r => cell_eqb (col r (typeField t)) k) rs.

End Terms.

(** ** A small host to run the validators on

    One way of filling in [Host]: an address is a scheme, [://], and a host
    name that ends at the first [/], [:], [?] or [#]; a date is given as
    epoch milliseconds, as a number or as its decimal text; a text is read
    as a number by [parseInt]. *)

Module Plain.
Import JS Sql Validators Checks.

(** The text before the first [stop] character, and the text from it on. *)
Fixpoint break_at (stop : ascii -> bool) (s : string) : string * string :=
  match s with
  | EmptyString => (EmptyString, EmptyString)
  | String c rest =>
      if stop c then (EmptyString, s)
      else let '(a, b) := break_at stop rest in (String c a, b)
  end.

Definition plain_url (s : string) : option (string * string) :=
  let '(scheme, rest) := break_at (fun c => Ascii.eqb c ":") s in
  match rest with
  | String _ (String "/" (String "/" after)) =>
      let '(hostname, _) :=
        break_at (fun c => Ascii.eqb c "/" || Ascii.eqb c ":" || Ascii.eqb c "?"
                           || Ascii.eqb c "#") after in
      if String.eqb scheme "" || String.eqb hostname "" then None
      else Some ((scheme ++ ":")%string, hostname)
  | _ => None
  end.

Definition plain_date (v : value) : option Z :=
  match v with
  | VNum n | VDate n => Some n
  | VStr s => parseInt_string s
  | _ => None
  end.

Definition plain_exceeds (s : string) (n : Z) : bool :=
  match parseInt_string s with
  | Some k => n <? k
  | None => false
  end.

Definition host : Host := {|
  url_parts := plain_url;
  date_ms := plain_date;
  text_exceeds := plain_exceeds
|}.

End Plain.

(** ** Further sample data *)

Module Cases.
Import JS Sql Model Validators Http Controllers Reference Checks Endpoints.

(** A batch of three elements: a job, an object without type, a string. *)
Definition mixed_batch : request :=
  mkRequest "" []
    [("source", VStr "scraper");
     ("opportunities",
      VArr [VObj (("type", VStr "job") :: Samples.posting);
            VObj Samples.posting;
            VStr "https://good.example/b"])].

(** A batch whose second element is [null]. *)
Definition holed_batch : request :=
  mkRequest "" []
    [("opportunities", VArr [VObj (("type", VStr "job") :: Samples.posting); VNull])].



(** The stored job, fetched once. *)
Definition fetched : response * db :=
  getById (E := engine) Samples.by_first_id Samples.one_job.

Definition fetched_row : row :=
  match content (fst fetched) with Item r _ => r | _ => ∅ end.

(** A posting that names its organization and no company. *)
Definition from_acme : obj :=
  [("title", VStr "X"); ("apply_url", VStr "https://good.example/c");
   ("organization", VStr "Acme")].

Definition acme_created : outcome row * db :=
  create (E := engine) Work from_acme (VStr "job") empty_db.

Definition acme_row : row :=
  match fst acme_created with Ok r => r | Throw _ => ∅ end.

(** A request for the statistics, as the router hands it to the handler of
    [/opportunities/:id]. *)
Definition for_stats : request := mkRequest "stats" [] [].

(** A job posted through its endpoint, the payload claiming other types. *)
Definition mislabelled : request :=
  mkRequest "" []
    (Samples.posting ++ [("work_type", VStr "internship"); ("type", VStr "hackathon")]).

Definition job_posted : answer * db :=
  createJob (E := engine) (H := Plain.host) mislabelled empty_db.

Definition job_posted_row : row :=
  match carried (fst job_posted) with
  | Standard (Item r _) => r
  | _ => ∅
  end.

(** An internship whose [work_style] is a number. *)
Definition numbered_style : request :=
  mkRequest "" [] (Samples.posting ++ [("work_style", VNum 5)]).

(** The work table after one featured internship was posted. *)
Definition one_featured : db :=
  snd (create (E := engine) Work (Samples.posting ++ [("is_featured", VBool true)])
         (VStr "internship") empty_db).

Definition featured_shown : answer * db :=
  getFeaturedInternships (E := engine) Samples.bare one_featured.

Definition featured_rows : list row :=
  match carried (fst featured_shown) with
  | Listed data _ _ => data
  | _ => []
  end.

(** [GET /internships/featured?limit=-1]. *)
Definition minus_one : request := mkRequest "" [("limit", VStr "-1")] [].

(** The event table after one free hackathon was posted. *)
Definition one_free : db :=
  snd (create (E := engine) Event (Samples.posting ++ [("fees", VStr "unpaid")])
         (VStr "hackathon") empty_db).

(** [GET /events/free?type=hackathon]. *)
Definition free_hackathons : request := mkRequest "" [("type", VStr "hackathon")] [].

Definition free_shown : answer * db :=
  getFreeEvents (E := engine) free_hackathons one_free.

Definition free_rows : list row :=
  match carried (fst free_shown) with
  | Listed data _ _ => data
  | _ => []
  end.

(** [GET /work/organization/acme], after the posting of Acme. *)
Definition acme_listed : answer * db :=
  getByOrganization (E := engine) "acme" Samples.bare (snd acme_created).

Definition acme_listed_rows : list row :=
  match carried (fst acme_listed) with
  | Listed data _ _ => data
  | _ => []
  end.

End Cases.

(** * Properties *)

Import JS Sql Model Validators Http Controllers.

(** ** Objects *)

Lemma get_set_same (k : string) (v : value) (o : obj) : get k (set k v o) = v.
Proof.
  induction o as [|[k' v'] o IH]; simpl.
  - now rewrite String.eqb_refl.
  - destruct (String.eqb k k') eqn:Hk; simpl; rewrite Hk; auto.
Qed.

Lemma get_set_other (k k' : string) (v : value) (o : obj) :
  k <> k' -> get k (set k' v o) = get k o.
Proof.
  intros Hne. induction o as [|[k0 v0] o IH]; simpl.
  - destruct (String.eqb k k') eqn:Hk; auto.
    apply String.eqb_eq in Hk. contradiction.
  - destruct (String.eqb k' k0) eqn:Hk0; simpl.
    + apply String.eqb_eq in Hk0. subst k0.
      destruct (String.eqb k k') eqn:Hk; auto.
      apply String.eqb_eq in Hk. contradiction.
    + destruct (String.eqb k k0); auto.
Qed.

Lemma get_absent (k : string) (o : obj) : has k o = false -> get k o = VUndef.
Proof.
  induction o as [|[k' v'] o IH]; simpl; auto.
  destruct (String.eqb k k'); simpl; [discriminate | auto].
Qed.

Lemma truthy_present (k : string) (o : obj) : truthy (get k o) = true -> has k o = true.
Proof.
  intros H. destruct (has k o) eqn:Hh; auto.
  rewrite (get_absent _ _ Hh) in H. discriminate.
Qed.

Lemma mem_string_In (s : string) (l : list string) : mem_string s l = true <-> In s l.
Proof.
  induction l as [|x l IH]; simpl.
  - split; [discriminate | tauto].
  - rewrite orb_true_iff, IH, String.eqb_eq. split; intros [H|H]; auto.
Qed.

(** ** Batch submissions: rejected before any upsert *)

Section BatchGuard.
Context {E : Engine}.

(** C9.  A batch whose [opportunities] is absent, not an array, empty, or
    longer than 500 elements is answered with 400, and the database is
    exactly as it was: no statement was sent and no row changed. *)
Theorem batch_rejected_before_storage (req : request) (d : db) :
  (has "opportunities" (payload req) = false \/
   isArray (get "opportunities" (payload req)) = false \/
   get "opportunities" (payload req) = VArr [] \/
   exists items, get "opportunities" (payload req) = VArr items /\
                 (500 < length items)%nat) ->
  exists resp, batchCreate req d = (resp, d) /\ status resp = 400%nat.
Proof.
  intros H. unfold batchCreate, asyncHandler.
  assert (Hcases :
    isArray (get "opportunities" (payload req)) = false \/
    get "opportunities" (payload req) = VArr [] \/
    exists items, get "opportunities" (payload req) = VArr items /\
                  (500 < length items)%nat).
  { destruct H as [H|H]; [left | exact H].
    now rewrite (get_absent _ _ H). }
  clear H. destruct Hcases as [H|[H|[items [H Hlen]]]].
  - destruct (get "opportunities" (payload req)); try discriminate H;
      eexists; split; reflexivity.
  - rewrite H. simpl. eexists; split; reflexivity.
  - rewrite H.
    destruct (Nat.eqb (length items) 0) eqn:H0.
    + apply Nat.eqb_eq in H0. lia.
    + apply Nat.ltb_lt in Hlen. rewrite Hlen. eexists; split; reflexivity.
Qed.

End BatchGuard.

(** ** Lookups leave the tables alone *)

Section Lookups.
Context {E : Engine}.

Lemma select_by_id_logged (t : table) (vals : list value) (d : db) :
  snd (select_by_id t vals d) = logged (StSelectById t) d.
Proof. unfold select_by_id. destruct (id_is vals 1); reflexivity. Qed.

Lemma findById_logged (t : table) (id : string) (d : db) :
  snd (findById t id d) = logged (StSelectById t) d.
Proof.
  unfold findById, bindM.
  pose proof (select_by_id_logged t [VStr id] d) as H.
  destruct (select_by_id t [VStr id] d) as [[rows|e] d']; simpl in *; now subst.
Qed.

Lemma resolve_frame (id : string) (d d' : db) (x : outcome (option (row * table))) :
  resolve id d = (x, d') ->
  work_rows d' = work_rows d /\ event_rows d' = event_rows d /\ clock d' = clock d.
Proof.
  unfold resolve, bindM. intros H.
  pose proof (findById_logged Work id d) as Hw.
  destruct (findById Work id d) as [[[r|]|e] d1]; simpl in Hw; subst d1.
  - inversion H; subst. now simpl.
  - pose proof (findById_logged Event id (logged (StSelectById Work) d)) as He.
    destruct (findById Event id (logged (StSelectById Work) d)) as [[[r|]|e] d2];
      simpl in He; subst d2; inversion H; subst; now simpl.
  - inversion H; subst. now simpl.
Qed.

End Lookups.

(** ** PATCH with nothing to update *)

Section EmptyPatch.
Context {E : Engine}.

Lemma has_keys (k : string) (o : obj) : has k o = true <-> In k (keys o).
Proof.
  induction o as [|[k' v] o IH]; simpl.
  - split; [discriminate | tauto].
  - rewrite orb_true_iff, IH, String.eqb_eq. split; intros [H|H]; auto.
Qed.

Lemma collect_nothing (updates : obj) (ks : list string) (st : set_state) :
  (forall k, In k ks -> mem_string k allowedFields = false) ->
  fold_left (collect_field updates) ks st = st.
Proof.
  revert st. induction ks as [|k ks IH]; intros st H; simpl; auto.
  unfold collect_field at 2. rewrite (H k) by now left. simpl.
  apply IH. intros k' Hk'. apply H. now right.
Qed.

Lemma no_allowed_field_collects_nothing (updates : obj) :
  (forall f, In f allowedFields -> has f updates = false) ->
  collect_fields updates = mkSet [] [] 1.
Proof.
  intros H. unfold collect_fields. apply collect_nothing.
  intros k Hk. destruct (mem_string k allowedFields) eqn:Hm; auto.
  apply mem_string_In in Hm. apply H in Hm.
  apply has_keys in Hk. congruence.
Qed.

(** C10.  When the body names no updatable field, the model's [update]
    throws 'No valid fields to update' without sending a statement, whatever
    the table and the identifier; and a PATCH that reaches it (well-formed
    identifier, no type field, entity found) fails with that error, the rows
    of both tables being what they were. *)
Theorem update_without_valid_fields_throws (req : request) :
  (forall f, In f allowedFields -> has f (payload req) = false) ->
  (forall t id d,
     Model.update t id (payload req) d
     = (Throw (js_error "No valid fields to update"), d)) /\
  (forall d found d1,
     isValidUUID (param_id req) = true ->
     truthy (get "work_type" (payload req)) = false ->
     truthy (get "event_type" (payload req)) = false ->
     resolve (param_id req) d = (Ok (Some found), d1) ->
     Controllers.update req d
     = (errorHandler (js_error "No valid fields to update"), d1) /\
     work_rows d1 = work_rows d /\ event_rows d1 = event_rows d).
Proof.
  intros Hnone.
  assert (Hmodel : forall t id d,
            Model.update t id (payload req) d
            = (Throw (js_error "No valid fields to update"), d)).
  { intros t id d. unfold Model.update.
    rewrite (no_allowed_field_collects_nothing _ Hnone). reflexivity. }
  split; [exact Hmodel|].
  intros d [r t] d1 Hid Hw He Hres.
  pose proof (resolve_frame _ _ _ _ Hres) as (Hrw & Hre & _).
  split; [|now split].
  unfold Controllers.update, asyncHandler.
  rewrite Hid, Hw, He. simpl. unfold bindM at 1. rewrite Hres.
  unfold bindM. rewrite Hmodel. reflexivity.
Qed.

End EmptyPatch.

Import Spec.

(** A 501-element batch is turned away. *)
Lemma batch_rejected_witness :
  (exists items, get "opportunities" (payload Samples.oversized) = VArr items /\
                 (500 < length items)%nat) /\
  exists resp,
    batchCreate (E := Reference.engine) Samples.oversized Reference.empty_db
    = (resp, Reference.empty_db) /\ status resp = 400%nat.
Proof.
  assert (H : exists items, get "opportunities" (payload Samples.oversized) = VArr items /\
                            (500 < length items)%nat).
  { eexists. split; [reflexivity|]. rewrite repeat_length. lia. }
  split; [exact H|].
  apply (batch_rejected_before_storage (E := Reference.engine)).
  right; right; right. exact H.
Defined.

(** ** The filter compiler *)

Section FilterCompiler.
Context {E : Engine}.

Lemma param_app (vals more : list value) (p : nat) (v : value) :
  param vals p = Ok v -> param (vals ++ more) p = Ok v.
Proof.
  unfold param. destruct p as [|n]; [discriminate|].
  destruct (nth_error vals n) eqn:Hn; [|discriminate].
  intros H. rewrite nth_error_app1 by (apply nth_error_Some; congruence).
  now rewrite Hn.
Qed.

Lemma param_last (vals : list value) (v : value) (more : list value) :
  param (vals ++ v :: more) (S (length vals)) = Ok v.
Proof.
  unfold param. rewrite nth_error_app2 by lia. now rewrite Nat.sub_diag.
Qed.

Lemma justified_app (t : table) (f : obj) (vals more : list value) (k : cond) :
  justified t f vals k -> justified t f (vals ++ more) k.
Proof.
  intros [H|(p & Hk & Hp & Hs & Hi)]; [now left|right].
  exists p. repeat split; auto. now apply param_app.
Qed.

Lemma params_in_range_app (n m : nat) (ks : list cond) :
  (n <= m)%nat ->
  Forall (fun k => Forall (fun p => (1 <= p <= n)%nat) (cond_params k)) ks ->
  Forall (fun k => Forall (fun p => (1 <= p <= m)%nat) (cond_params k)) ks.
Proof.
  intros Hnm H. eapply Forall_impl; [exact H|].
  intros k Hk. eapply Forall_impl; [exact Hk|]. simpl. lia.
Qed.

(** Appending a predicate on one fresh parameter. *)
Lemma compiled_push1 (t : table) (f : obj) (w : where_result) (k : nat -> cond) (v : value) :
  compiled t f w ->
  cond_params (k (paramIndex w)) = [paramIndex w] ->
  justified t f (values w ++ [v]) (k (paramIndex w)) ->
  compiled t f (push1 k v w).
Proof.
  intros (Hi & Hj & Hp) Hparams Hk. unfold compiled, push1; simpl.
  rewrite length_app; simpl. split; [lia|]. split.
  - apply Forall_app. split.
    + eapply Forall_impl; [exact Hj|]. intros; now apply justified_app.
    + now constructor.
  - apply Forall_app. split.
    + apply (params_in_range_app (length (values w))); [lia|exact Hp].
    + constructor; [|constructor]. rewrite Hparams.
      constructor; [lia|constructor].
Qed.

Lemma compiled_push0 (t : table) (f : obj) (w : where_result) (k : cond) :
  compiled t f w -> cond_params k = [] -> requested t f k ->
  compiled t f (push0 k w).
Proof.
  intros (Hi & Hj & Hp) Hparams Hk. unfold compiled, push0; simpl.
  split; [exact Hi|]. split.
  - apply Forall_app. split; [exact Hj|]. constructor; [now left|constructor].
  - apply Forall_app. split; [exact Hp|]. constructor; [|constructor].
    rewrite Hparams. constructor.
Qed.

Lemma compiled_push2 (t : table) (f : obj) (w : where_result) (c : string) (v1 v2 : value) :
  compiled t f w -> requested t f (CBetween c (paramIndex w) (S (paramIndex w))) ->
  compiled t f (push2 (CBetween c) v1 v2 w).
Proof.
  intros (Hi & Hj & Hp) Hk. unfold compiled, push2; simpl.
  rewrite length_app; simpl. split; [lia|]. split.
  - apply Forall_app. split.
    + eapply Forall_impl; [exact Hj|]. intros; now apply justified_app.
    + constructor; [now left|constructor].
  - apply Forall_app. split.
    + apply (params_in_range_app (length (values w))); [lia|exact Hp].
    + constructor; [|constructor]. simpl.
      constructor; [lia|]. constructor; [lia|constructor].
Qed.

Lemma requested_of_truthy (t : table) (f : obj) (k : cond) :
  truthy (get (filter_key t k) f) = true -> requested t f k.
Proof. intros H. split; [now apply truthy_present | exact H]. Qed.

Lemma status_is_not_a_type_field (t : table) : String.eqb "status" (typeField t) = false.
Proof. now destruct t. Qed.

Lemma type_filter_keeps (t : table) : keeps t (type_filter t).
Proof.
  intros f w w' Hw. unfold type_filter.
  destruct (truthy (get "type" f)) eqn:Ht; intros H; inversion H; subst; auto.
  apply compiled_push1; auto. left. apply requested_of_truthy. unfold filter_key.
  now rewrite String.eqb_refl.
Qed.

Lemma status_filter_keeps (t : table) : keeps t status_filter.
Proof.
  intros f w w' Hw. unfold status_filter.
  destruct (truthy (get "status" f)) eqn:Hs.
  - intros H; inversion H; subst. apply compiled_push1; auto.
    left. apply requested_of_truthy. unfold filter_key.
    now rewrite status_is_not_a_type_field.
  - destruct (truthy (get "includeInactive" f)) eqn:Hi; simpl;
      intros H; inversion H; subst; auto.
    apply compiled_push1; auto. right. exists (paramIndex w).
    repeat split; auto. destruct Hw as (Hidx & _). rewrite Hidx.
    apply param_last.
Qed.

Lemma like_filter_keeps (t : table) (key : string) : keeps t (like_filter key).
Proof.
  intros f w w' Hw. unfold like_filter.
  destruct (truthy (get key f)) eqn:Ht; intros H; inversion H; subst; auto.
  apply compiled_push1; auto. left. now apply requested_of_truthy.
Qed.

Lemma eq_filter_keeps (t : table) (key : string) :
  String.eqb key (typeField t) = false -> keeps t (eq_filter key).
Proof.
  intros Hkey f w w' Hw. unfold eq_filter.
  destruct (truthy (get key f)) eqn:Ht; intros H; inversion H; subst; auto.
  apply compiled_push1; auto. left. apply requested_of_truthy. unfold filter_key.
  now rewrite Hkey.
Qed.

Lemma flag_is_truthy (v : value) : seq_str v "true" || seq_true v = true -> truthy v = true.
Proof.
  destruct v as [| |[|]| |s| | |]; simpl; try discriminate; auto.
  rewrite orb_false_r. intros H. apply String.eqb_eq in H. now subst.
Qed.

Lemma flag_filter_keeps (t : table) (key column : string) :
  filter_key t (CIsTrue column) = key -> keeps t (flag_filter key column).
Proof.
  intros Hkey f w w' Hw. unfold flag_filter.
  destruct (seq_str (get key f) "true" || seq_true (get key f)) eqn:Ht;
    intros H; injection H as <-; auto.
  apply compiled_push0; auto. apply requested_of_truthy.
  rewrite Hkey. now apply flag_is_truthy.
Qed.

Lemma search_filter_keeps (t : table) : keeps t search_filter.
Proof.
  intros f w w' Hw. unfold search_filter.
  destruct (truthy (get "search" f)) eqn:Ht; intros H; inversion H; subst; auto.
  apply compiled_push1; auto. left. now apply requested_of_truthy.
Qed.

Lemma array_filter_keeps (t : table) (key : string) : keeps t (array_filter key).
Proof.
  intros f w w' Hw. unfold array_filter.
  destruct (truthy (get key f)) eqn:Ht; [|intros H; inversion H; subst; auto].
  destruct (as_array key (get key f)); simpl; intros H; inversion H; subst.
  apply compiled_push1; auto. left. now apply requested_of_truthy.
Qed.

Lemma deadline_filter_keeps (t : table) (now : Z) : keeps t (deadline_filter now).
Proof.
  intros f w w' Hw. unfold deadline_filter.
  destruct (truthy (get "deadline" f)) eqn:Ht; [|intros H; inversion H; subst; auto].
  destruct (seq_str (get "deadline" f) "upcoming");
    [|destruct (seq_str (get "deadline" f) "this_week");
      [|destruct (seq_str (get "deadline" f) "this_month")]];
    intros H; inversion H; subst; auto;
    apply compiled_push2; auto; now apply requested_of_truthy.
Qed.

Lemma run_blocks_keeps (t : table) (blocks : list (obj -> where_result -> outcome where_result)) :
  Forall (keeps t) blocks ->
  forall f w w', compiled t f w -> run_blocks blocks f w = Ok w' -> compiled t f w'.
Proof.
  induction 1 as [|b blocks Hb _ IH]; intros f w w' Hw; simpl.
  - intros H; inversion H; now subst.
  - destruct (b f w) as [w1|e] eqn:Hbw; simpl; [|discriminate].
    intros H. eapply IH; [|exact H]. eapply Hb; eauto.
Qed.

(** The compiler's result is justified predicate by predicate, and its
    parameters are numbered 1 .. paramIndex - 1. *)
Lemma buildWhereClause_compiled (t : table) (now : Z) (filters : obj) (w : where_result) :
  buildWhereClause t now filters = Ok w -> compiled t filters w.
Proof.
  unfold buildWhereClause. apply run_blocks_keeps.
  - unfold filter_blocks.
    repeat match goal with
           | |- Forall _ (_ :: _) => constructor
           | |- Forall _ [] => constructor
           end.
    + apply type_filter_keeps.
    + apply status_filter_keeps.
    + apply like_filter_keeps.
    + apply like_filter_keeps.
    + apply eq_filter_keeps. now destruct t.
    + now apply flag_filter_keeps.
    + now apply flag_filter_keeps.
    + apply search_filter_keeps.
    + apply array_filter_keeps.
    + apply array_filter_keeps.
    + apply array_filter_keeps.
    + apply eq_filter_keeps. now destruct t.
    + apply deadline_filter_keeps.
  - repeat split; simpl; constructor.
Qed.

End FilterCompiler.

Section FilterKeys.
Context {E : Engine}.

(** C4, as the code has it.  Every predicate the compiler emits answers to
    a key that is present in the bag with a non-empty value, except the
    default [status = 'active'], which is emitted when [status] is missing
    or empty and [includeInactive] is not set. *)
Theorem predicates_requested_or_default_status
    (t : table) (now : Z) (filters : obj) (w : where_result) (k : cond) :
  buildWhereClause t now filters = Ok w ->
  In k (conditions w) ->
  (has (filter_key t k) filters = true /\
   truthy (get (filter_key t k) filters) = true) \/
  (exists p, k = CEq "status" p /\
             param (values w) p = Ok (VStr "active") /\
             truthy (get "status" filters) = false /\
             truthy (get "includeInactive" filters) = false).
Proof.
  intros Hw Hk. apply buildWhereClause_compiled in Hw.
  destruct Hw as (_ & Hj & _).
  rewrite List.Forall_forall in Hj. exact (Hj k Hk).
Qed.

Lemma work_filters_type (ty : string) (q : obj) :
  get "type" (work_filters ty q) = get "type" q.
Proof.
  unfold work_filters. now rewrite !get_set_other by discriminate.
Qed.

Lemma event_filters_type (ty : string) (q : obj) :
  get "type" (event_filters ty q) = VStr ty.
Proof.
  unfold event_filters. rewrite !get_set_other by discriminate.
  apply get_set_same.
Qed.

(** The work listings put their type under [work_type], a key the compiler
    never reads: unless the caller passes [type] in the query string, no
    predicate on the [work_type] column is emitted. *)
Lemma work_listing_has_no_type_predicate
    (ty : string) (q : obj) (now : Z) (w : where_result) (p : nat) :
  truthy (get "type" q) = false ->
  buildWhereClause Work now (work_filters ty q) = Ok w ->
  ~ In (CEq "work_type" p) (conditions w).
Proof.
  intros Hq Hw Hin. apply buildWhereClause_compiled in Hw.
  destruct Hw as (_ & Hj & _). rewrite List.Forall_forall in Hj.
  destruct (Hj _ Hin) as [[_ Ht]|(p' & Hk & _)].
  - simpl in Ht. rewrite work_filters_type in Ht. congruence.
  - discriminate.
Qed.

End FilterKeys.

(** C4 as stated fails: the empty bag has no [status] key, and the compiler
    still emits a predicate on [status]. *)
Lemma empty_bag_still_filters_on_status :
  ~ (forall (filters : obj) (w : where_result) (k : cond),
       buildWhereClause (E := Reference.engine) Work 0 filters = Ok w ->
       In k (conditions w) ->
       has (filter_key Work k) filters = true).
Proof.
  intros H.
  specialize (H [] (mkWhere [CEq "status" 1] [VStr "active"] 2) (CEq "status" 1)
                eq_refl (or_introl eq_refl)).
  discriminate H.
Qed.

(** A city filter on the work table: the default status predicate and the
    requested city predicate. *)
Lemma predicates_requested_witness :
  buildWhereClause (E := Reference.engine) Work 0 [("city", VStr "Pune")]
  = Ok (mkWhere [CEq "status" 1; CLikeCI "city" 2] [VStr "active"; VStr "%Pune%"] 3) /\
  ((has "city" [("city", VStr "Pune")] = true /\
    truthy (get "city" [("city", VStr "Pune")]) = true) \/
   (exists p, CLikeCI "city" 2 = CEq "status" p /\
              param [VStr "active"; VStr "%Pune%"] p = Ok (VStr "active") /\
              truthy (get "status" [("city", VStr "Pune")]) = false /\
              truthy (get "includeInactive" [("city", VStr "Pune")]) = false)).
Proof.
  split; [reflexivity|].
  apply (predicates_requested_or_default_status (E := Reference.engine)
           Work 0 [("city", VStr "Pune")]
           (mkWhere [CEq "status" 1; CLikeCI "city" 2] [VStr "active"; VStr "%Pune%"] 3)
           (CLikeCI "city" 2)).
  - reflexivity.
  - simpl. right. left. reflexivity.
Defined.

(** C1 at a failing input.  After one job has been posted, the internship
    listing called without a query string answers 200 and hands out the
    job. *)
Theorem internships_listing_returns_a_job :
  exists pg echoed,
    fst (getInternships (E := Reference.engine) Samples.bare Samples.one_job)
    = mkResponse 200 (Page (work_rows Samples.one_job) pg echoed) /\
    map (fun r => col r "work_type") (work_rows Samples.one_job) = [CText "job"] /\
    buildWhereClause (E := Reference.engine) Work 1000
      (work_filters "internship" (query Samples.bare))
    = Ok (mkWhere [CEq "status" 1] [VStr "active"] 2).
Proof.
  eexists. eexists. split; [|split]; vm_compute; reflexivity.
Qed.

(** ** The compiler only appends *)

Section Appending.
Context {E : Engine}.

Lemma extends_refl (w : where_result) : extends w w.
Proof. exists [], []. now rewrite !app_nil_r. Qed.

Lemma extends_trans (w1 w2 w3 : where_result) :
  extends w1 w2 -> extends w2 w3 -> extends w1 w3.
Proof.
  intros (ks & vs & Hk & Hv) (ks' & vs' & Hk' & Hv').
  exists (ks ++ ks'), (vs ++ vs'). rewrite Hk', Hv', Hk, Hv.
  now rewrite !app_assoc.
Qed.

Lemma extends_push1 (k : nat -> cond) (v : value) (w : where_result) :
  extends w (push1 k v w).
Proof. now exists [k (paramIndex w)], [v]. Qed.

Lemma extends_push0 (k : cond) (w : where_result) : extends w (push0 k w).
Proof. exists [k], []. simpl. now rewrite app_nil_r. Qed.

Lemma extends_push2 (k : nat -> nat -> cond) (v1 v2 : value) (w : where_result) :
  extends w (push2 k v1 v2 w).
Proof. now exists [k (paramIndex w) (S (paramIndex w))], [v1; v2]. Qed.

Create HintDb appending.
#[local] Hint Resolve extends_refl extends_push1 extends_push0 extends_push2 : appending.

Ltac block_appends :=
  intros f w w';
  repeat match goal with
         | |- context [if ?c then _ else _] => destruct c
         | |- context [obind ?x _] => destruct x; simpl
         end;
  intros H; try discriminate H; injection H as <-; auto with appending.

Lemma filter_blocks_append (t : table) (now : Z) : Forall appends (filter_blocks t now).
Proof.
  unfold filter_blocks.
  repeat match goal with
         | |- Forall _ (_ :: _) => constructor
         | |- Forall _ [] => constructor
         end;
    unfold appends, type_filter, status_filter, like_filter, eq_filter, flag_filter,
      search_filter, array_filter, deadline_filter; block_appends.
Qed.

Lemma run_blocks_appends (blocks : list (obj -> where_result -> outcome where_result)) :
  Forall appends blocks ->
  forall f w w', run_blocks blocks f w = Ok w' -> extends w w'.
Proof.
  induction 1 as [|b blocks Hb _ IH]; intros f w w'; simpl.
  - intros H; injection H as <-. apply extends_refl.
  - destruct (b f w) as [w1|e] eqn:Hbw; simpl; [|discriminate].
    intros H. eapply extends_trans; [eapply Hb; eauto | eapply IH; eauto].
Qed.

(** The event listings put their type under [type]: the first predicate of
    every event listing is the exact match on [event_type], bound to the
    endpoint's type. *)
Lemma event_listing_has_type_predicate
    (ty : string) (q : obj) (now : Z) (w : where_result) :
  ty <> "" ->
  buildWhereClause Event now (event_filters ty q) = Ok w ->
  exists ks vs, conditions w = CEq "event_type" 1 :: ks /\ values w = VStr ty :: vs.
Proof.
  intros Hty. unfold buildWhereClause, filter_blocks.
  cbn [run_blocks]. unfold type_filter at 1.
  rewrite event_filters_type.
  assert (Htruthy : truthy (VStr ty) = true).
  { simpl. destruct (String.eqb ty "") eqn:He; auto.
    apply String.eqb_eq in He. contradiction. }
  rewrite Htruthy. cbn [obind]. intros H.
  apply (run_blocks_appends (tl (filter_blocks Event now))) in H.
  - destruct H as (ks & vs & Hk & Hv). exists ks, vs. now rewrite Hk, Hv.
  - pose proof (filter_blocks_append Event now) as Hall.
    now inversion Hall.
Qed.

End Appending.

(** ** Pagination *)

(** *** Reading a row count back from its decimal text *)

Lemma digit_step (a : N) (k : Z) :
  0 <= k -> Z.of_N a * 10 + k = Z.of_N (a * 10 + Z.to_N k).
Proof. intros H. rewrite N2Z.inj_add, N2Z.inj_mul, Z2N.id by assumption. reflexivity. Qed.

Lemma continued_step (d : Decimal.uint) (a : N) (k : positive) :
  continued d (a * 10 + Npos k)
  = match a with
    | N0 => Npos (Pos.of_uint_acc d k)
    | Npos p => Npos (Pos.of_uint_acc d (Pos.add k (Pos.mul 10 p)))
    end.
Proof.
  destruct a as [|p]; [reflexivity|].
  change (N.pos p * 10 + N.pos k)%N with (N.pos (p * 10 + k)).
  cbn [continued]. do 2 f_equal. lia.
Qed.

Lemma parse_digits_continued (d : Decimal.uint) (a : N) :
  parse_digits 10 (NilEmpty.string_of_uint d) (Some (Z.of_N a))
  = Some (Z.of_N (continued d a)).
Proof.
  revert a. induction d as [|d IH|d IH|d IH|d IH|d IH|d IH|d IH|d IH|d IH|d IH];
    intros a; [now destruct a|..];
    cbn [NilEmpty.string_of_uint parse_digits];
    match goal with
    | |- context [digit_value 10 ?c] =>
        let v := eval vm_compute in (digit_value 10 c) in
        change (digit_value 10 c) with v
    end;
    cbv iota beta; rewrite digit_step by lia; rewrite IH; do 2 f_equal.
  all: cbn [Z.to_N].
  - destruct a as [|p]; [reflexivity|].
    change (N.pos p * 10 + 0)%N with (N.pos (p * 10)).
    cbn [continued Pos.of_uint_acc]. do 2 f_equal. lia.
  - rewrite continued_step. now destruct a.
  - rewrite continued_step. now destruct a.
  - rewrite continued_step. now destruct a.
  - rewrite continued_step. now destruct a.
  - rewrite continued_step. now destruct a.
  - rewrite continued_step. now destruct a.
  - rewrite continued_step. now destruct a.
  - rewrite continued_step. now destruct a.
  - rewrite continued_step. now destruct a.
Qed.

Lemma parse_digits_after (d : Decimal.uint) (k : positive) :
  parse_digits 10 (NilEmpty.string_of_uint d) (Some (Zpos k))
  = Some (Zpos (Pos.of_uint_acc d k)).
Proof. exact (parse_digits_continued d (Npos k)). Qed.

Lemma parse_digits_zero (d : Decimal.uint) :
  parse_digits 10 (NilEmpty.string_of_uint d) (Some 0) = Some (Z.of_N (Pos.of_uint d)).
Proof. exact (parse_digits_continued d N0). Qed.

Ltac first_digit :=
  cbn [parse_digits];
  match goal with
  | |- context [digit_value 10 ?c] =>
      let v := eval vm_compute in (digit_value 10 c) in
      change (digit_value 10 c) with v
  end;
  cbv iota beta.

Lemma parse_leading_zero (s : string) :
  parse_digits 10 (String "0" s) None = parse_digits 10 s (Some 0).
Proof. reflexivity. Qed.

Lemma parseInt_decimal (d : Decimal.uint) :
  d <> Decimal.Nil ->
  parseInt_string (NilEmpty.string_of_uint d) = Some (Z.of_N (Pos.of_uint d)).
Proof.
  intros Hd. destruct d as [|d|d|d|d|d|d|d|d|d|d]; [congruence|..].
  all: unfold parseInt_string.
  all: cbn [NilEmpty.string_of_uint trimStart].
  all: match goal with
       | |- context [is_space ?c] =>
           let v := eval vm_compute in (is_space c) in change (is_space c) with v
       end; cbv iota.
  2-10: first_digit; rewrite parse_digits_after; reflexivity.
  pose proof (parse_digits_zero d) as Hz.
  destruct d as [|d|d|d|d|d|d|d|d|d|d]; cbn [NilEmpty.string_of_uint] in *; cbv iota beta;
    [reflexivity|..];
    rewrite parse_leading_zero, Hz, Z.mul_1_l; reflexivity.
Qed.

Lemma parseInt_row_count (n : nat) :
  parseInt_string (string_of_Z (Z.of_nat n)) = Some (Z.of_nat n).
Proof.
  unfold string_of_Z. destruct (Z.of_nat n) as [|p|p] eqn:Hn; [reflexivity| |lia].
  cbn [Z.to_int NilZero.string_of_int].
  pose proof (DecimalPos.Unsigned.to_uint_nonnil p) as Hnil.
  unfold NilZero.string_of_uint.
  destruct (Pos.to_uint p) eqn:Hp; [congruence|..];
    rewrite <- Hp, parseInt_decimal, DecimalPos.Unsigned.of_to by (rewrite Hp; discriminate);
    reflexivity.
Qed.

Section Paging.
Context {E : Engine}.

Lemma rows_of_logged (t : table) (s : stmt) (d : db) : rows_of t (logged s d) = rows_of t d.
Proof. now destruct t. Qed.










End Paging.


(** ** Cells, keys and rows *)

Lemma strings_eqb_eq (xs ys : list string) : strings_eqb xs ys = true -> xs = ys.
Proof.
  revert ys. induction xs as [|x xs IH]; intros [|y ys]; simpl; try discriminate; auto.
  rewrite andb_true_iff. intros [Hx Hxs]. apply String.eqb_eq in Hx.
  f_equal; auto.
Qed.

Lemma strings_eqb_refl (xs : list string) : strings_eqb xs xs = true.
Proof. induction xs as [|x xs IH]; simpl; auto. now rewrite String.eqb_refl. Qed.

Lemma cell_eqb_eq (a b : cell) : cell_eqb a b = true -> a = b.
Proof.
  destruct a, b; simpl; try discriminate; auto; intros H.
  - apply String.eqb_eq in H. now subst.
  - apply Bool.eqb_prop in H. now subst.
  - apply Z.eqb_eq in H. now subst.
  - apply strings_eqb_eq in H. now subst.
  - apply Z.eqb_eq in H. now subst.
Qed.

Lemma cell_eqb_refl (a : cell) : cell_eqb a a = true.
Proof.
  destruct a; simpl; auto using String.eqb_refl, Z.eqb_refl, strings_eqb_refl.
  now destruct b.
Qed.

Lemma sql_eq_eq (a b : cell) : sql_eq a b = true -> a = b /\ a <> CNull.
Proof.
  unfold sql_eq. destruct a, b; try discriminate; intros H;
    (split; [now apply cell_eqb_eq | discriminate]).
Qed.

Lemma sql_eq_refl (a : cell) : a <> CNull -> sql_eq a a = true.
Proof. destruct a; simpl; auto using String.eqb_refl, Z.eqb_refl, strings_eqb_refl; try congruence.
  intros _. now destruct b. Qed.

(** Two rows that agree on the key columns select the same rows. *)
Lemma same_key_agree (cols : list string) (a b x : row) :
  (forall c, In c cols -> col a c = col b c) ->
  same_key cols a x = same_key cols b x.
Proof.
  unfold same_key. induction cols as [|c cols IH]; intros H; simpl; auto.
  rewrite (H c) by now left. f_equal. apply IH. intros c' Hc'. apply H. now right.
Qed.

Lemma same_key_agree_r (cols : list string) (a x y : row) :
  (forall c, In c cols -> col x c = col y c) ->
  same_key cols a x = same_key cols a y.
Proof.
  unfold same_key. induction cols as [|c cols IH]; intros H; simpl; auto.
  rewrite (H c) by now left. f_equal. apply IH. intros c' Hc'. apply H. now right.
Qed.

Lemma same_key_cells (cols : list string) (a b : row) :
  same_key cols a b = true ->
  forall c, In c cols -> col a c = col b c /\ col a c <> CNull.
Proof.
  unfold same_key. rewrite forallb_forall. intros H c Hc.
  apply sql_eq_eq. now apply H.
Qed.

Lemma same_key_refl (cols : list string) (a : row) :
  (forall c, In c cols -> col a c <> CNull) -> same_key cols a a = true.
Proof.
  intros H. unfold same_key. apply forallb_forall. intros c Hc.
  apply sql_eq_refl. now apply H.
Qed.

Lemma col_insert_same (r : row) (c : string) (x : cell) : col (<[c := x]> r) c = x.
Proof. unfold col. now rewrite lookup_insert_eq. Qed.

Lemma col_insert_other (r : row) (c c' : string) (x : cell) :
  c <> c' -> col (<[c := x]> r) c' = col r c'.
Proof. intros H. unfold col. now rewrite lookup_insert_ne. Qed.

Lemma find_agree (p q : row -> bool) (l : list row) :
  (forall x, p x = q x) -> find p l = find q l.
Proof. intros H. induction l as [|x l IH]; simpl; auto. now rewrite H, IH. Qed.

Lemma filter_agree (p q : row -> bool) (l : list row) :
  (forall x, p x = q x) -> List.filter p l = List.filter q l.
Proof. intros H. induction l as [|x l IH]; simpl; auto. now rewrite H, IH. Qed.

Lemma find_replace_first (p : row -> bool) (new old : row) (l : list row) :
  find p l = Some old -> p new = true ->
  find p (replace_first p new l) = Some new.
Proof.
  intros Hf Hn. induction l as [|x l IH]; simpl in *; [discriminate|].
  destruct (p x) eqn:Hx; simpl.
  - now rewrite Hn.
  - rewrite Hx. auto.
Qed.

Lemma find_none_app (p : row -> bool) (l : list row) (x : row) :
  find p l = None -> find p (l ++ [x]) = if p x then Some x else None.
Proof.
  induction l as [|y l IH]; simpl; auto.
  destruct (p y); [discriminate | auto].
Qed.

Lemma replace_first_none_app (p : row -> bool) (new x : row) (l : list row) :
  find p l = None -> p x = true ->
  replace_first p new (l ++ [x]) = l ++ [new].
Proof.
  intros Hl Hx. induction l as [|y l IH]; simpl in *.
  - now rewrite Hx.
  - destruct (p y); [discriminate|]. now rewrite IH.
Qed.

Lemma filter_none (p : row -> bool) (l : list row) :
  find p l = None -> List.filter p l = [].
Proof.
  induction l as [|y l IH]; simpl; auto.
  destruct (p y); [discriminate | auto].
Qed.

Lemma rows_of_with_rows (t : table) (rs : list row) (d : db) :
  rows_of t (with_rows t rs d) = rs.
Proof. now destruct t. Qed.

Lemma rows_of_next_uuid (t : table) (d : db) : rows_of t (next_uuid d) = rows_of t d.
Proof. now destruct t. Qed.

Lemma rows_of_at_time (t : table) (now : Z) (d : db) : rows_of t (at_time now d) = rows_of t d.
Proof. now destruct t. Qed.

Lemma log_with_rows (t : table) (rs : list row) (d : db) : log (with_rows t rs d) = log d.
Proof. now destruct t. Qed.

(** ** The upsert *)

Section Upsert.
Context {E : Engine}.

Lemma conflict_target_of (t : table) :
  conflict_target (upsert_of t) = [typeField t; "apply_url"].
Proof. now destruct t. Qed.

(** What a successful [create] did: it built and checked the proposed row,
    and then either rewrote the first stored row with the same key or
    appended the proposed row. *)
Lemma create_inv (t : table) (data : obj) (ty : value) (d d' : db) (r : row) :
  create t data ty d = (Ok r, d') ->
  exists proposed,
    assign_params t (insert_columns (upsert_of t)) (values_of t data ty)
      (default_row t (clock d) (gen_random_uuid (uuid_state d))) = Ok proposed /\
    check_row t proposed = Ok tt /\
    ((exists old,
        find (same_key [typeField t; "apply_url"] proposed) (rows_of t d) = Some old /\
        check_row t (touch (clock d)
                       (apply_set old proposed (clock d) (do_update_set (upsert_of t))))
        = Ok tt /\
        r = <["action" := CText "updated"]>
              (touch (clock d)
                 (apply_set old proposed (clock d) (do_update_set (upsert_of t)))) /\
        d' = with_rows t
               (replace_first (same_key [typeField t; "apply_url"] proposed)
                  (touch (clock d)
                     (apply_set old proposed (clock d) (do_update_set (upsert_of t))))
                  (rows_of t d))
               (next_uuid (logged (StUpsert t) d)))
     \/
     (find (same_key [typeField t; "apply_url"] proposed) (rows_of t d) = None /\
      r = <["action" := CText "created"]> proposed /\
      d' = with_rows t (rows_of t d ++ [proposed]) (next_uuid (logged (StUpsert t) d)))).
Proof.
  unfold create, exec_upsert. rewrite conflict_target_of.
  replace (into (upsert_of t)) with t by now destruct t.
  rewrite rows_of_next_uuid, rows_of_logged.
  destruct (assign_params _ _ _ _) as [proposed|e] eqn:Ha; [|discriminate].
  destruct (check_row t proposed) as [[]|e] eqn:Hc; [|discriminate].
  destruct (find _ (rows_of t d)) as [old|] eqn:Hf.
  - destruct (check_row t (touch _ _)) as [[]|e] eqn:Hn; [|discriminate].
    intros H; injection H as <- <-.
    exists proposed. split; [reflexivity|]. split; [exact Hc|].
    left. exists old. now repeat split.
  - destruct (unique_ok _ _ _); [|discriminate].
    intros H; injection H as <- <-.
    exists proposed. split; [reflexivity|]. split; [exact Hc|].
    right. now repeat split.
Qed.

(** [assign_params] writes exactly the listed columns. *)
Lemma assign_params_other (t : table) (cols : list string) (vals : list value)
    (r0 r : row) (c : string) :
  assign_params t cols vals r0 = Ok r -> ~ In c cols -> col r c = col r0 c.
Proof.
  revert vals r0. induction cols as [|c0 cols IH]; intros [|v vals] r0; simpl;
    try discriminate.
  - intros H _; now injection H as <-.
  - destruct (need_col t c0) as [ty|]; simpl; [|discriminate].
    destruct (bind ty v) as [x|]; simpl; [|discriminate].
    intros H Hc. rewrite (IH _ _ H) by tauto.
    apply col_insert_other. intros ->. apply Hc. now left.
Qed.

(** Each listed column receives the conversion of its own parameter. *)
Lemma assign_params_col (t : table) (cols : list string) (vals : list value)
    (r0 r : row) (i : nat) (c : string) (v : value) :
  assign_params t cols vals r0 = Ok r -> List.NoDup cols ->
  nth_error cols i = Some c -> nth_error vals i = Some v ->
  exists ty, col_type t c = Some ty /\ bind ty v = Ok (col r c).
Proof.
  revert vals r0 i. induction cols as [|c0 cols IH]; intros [|v0 vals] r0 i; simpl;
    try discriminate.
  - intros _ _ Hi. now destruct i.
  - unfold need_col. destruct (col_type t c0) as [ty|] eqn:Hty; simpl; [|discriminate].
    destruct (bind ty v0) as [x|] eqn:Hb; simpl; [|discriminate].
    intros H Hnd Hc Hv. inversion Hnd as [|? ? Hnotin Hnd']; subst.
    destruct i as [|i]; simpl in *.
    + injection Hc as <-. injection Hv as <-.
      exists ty. split; auto.
      rewrite (assign_params_other _ _ _ _ _ _ H Hnotin).
      now rewrite col_insert_same.
    + eapply IH; eauto.
Qed.

Lemma distinct_NoDup (l : list string) : distinct l = true -> List.NoDup l.
Proof.
  induction l as [|x l IH]; simpl; [constructor|].
  rewrite andb_true_iff, negb_true_iff. intros [Hx Hl].
  constructor; auto. intros Hin. apply mem_string_In in Hin. congruence.
Qed.

Lemma insert_columns_NoDup (t : table) : List.NoDup (insert_columns (upsert_of t)).
Proof. apply distinct_NoDup. now destruct t. Qed.

(** The key of the proposed row depends on the type and on [apply_url]
    only. *)
Lemma proposed_key (t : table) (data : obj) (ty : value) (r0 r : row) :
  assign_params t (insert_columns (upsert_of t)) (values_of t data ty) r0 = Ok r ->
  (exists ty1, col_type t (typeField t) = Some ty1 /\
               bind ty1 ty = Ok (col r (typeField t))) /\
  (exists ty2, col_type t "apply_url" = Some ty2 /\
               bind ty2 (get "apply_url" data) = Ok (col r "apply_url")).
Proof.
  intros H. split.
  - apply (assign_params_col _ _ _ _ _ 0 _ _ H (insert_columns_NoDup t));
      now destruct t.
  - apply (assign_params_col _ _ _ _ _ 2 _ _ H (insert_columns_NoDup t));
      now destruct t.
Qed.

Lemma fold_set_other (f : setexpr -> cell) (sets : list (string * setexpr))
    (acc : row) (c : string) :
  ~ In c (map fst sets) ->
  col (fold_left (fun r '(c0, e) => <[c0 := f e]> r) sets acc) c = col acc c.
Proof.
  revert acc. induction sets as [|[c0 e] sets IH]; intros acc Hc; simpl; auto.
  rewrite IH by (simpl in Hc; tauto).
  apply col_insert_other. intros ->. apply Hc. now left.
Qed.

(** The SET list writes exactly the columns it names. *)
Lemma apply_set_other (old excluded : row) (now : Z) (sets : list (string * setexpr))
    (c : string) :
  ~ In c (map fst sets) -> col (apply_set old excluded now sets) c = col old c.
Proof. intros H. unfold apply_set. now apply fold_set_other. Qed.

End Upsert.

Section ConflictPath.
Context {E : Engine}.

(** Columns outside the SET list survive the conflict path, in the stored
    row and in the returned one. *)
Lemma conflict_frame (t : table) (old excluded : row) (now : Z) (c : string) :
  c <> "updated_at" ->
  ~ In c (map fst (do_update_set (upsert_of t))) ->
  col (touch now (apply_set old excluded now (do_update_set (upsert_of t)))) c
  = col old c.
Proof.
  intros Hu Hc. unfold touch. rewrite col_insert_other by congruence.
  now apply apply_set_other.
Qed.

Lemma key_outside_set_list (t : table) (c : string) :
  In c [typeField t; "apply_url"] ->
  c <> "action" /\ c <> "updated_at" /\
  ~ In c (map fst (do_update_set (upsert_of t))).
Proof.
  destruct t; simpl; intros [<-|[<-|[]]];
    (split; [discriminate|split; [discriminate|]]);
    intros H; repeat (destruct H as [H|H]; [discriminate H|]); exact H.
Qed.

(** The status written by the conflict path. *)
Lemma conflict_status (t : table) (old excluded : row) (now : Z) :
  col (touch now (apply_set old excluded now (do_update_set (upsert_of t)))) "status"
  = eval_set old excluded now
      (EReviveFrom (match t with
                    | Work => ["expired"]
                    | Event => ["expired"; "archived"]
                    end)).
Proof.
  unfold touch, apply_set, col.
  destruct t; cbn [upsert_of do_update_set work_upsert event_upsert fold_left];
    repeat (rewrite lookup_insert_ne by discriminate);
    now rewrite lookup_insert_eq.
Qed.

(** A successful [create] whose key was already stored took the conflict
    path: it rewrote the first stored row with that key, and returned the
    rewritten row tagged 'updated'. *)
Lemma conflict_path (t : table) (data : obj) (ty : value) (d d' : db) (r old : row) :
  create t data ty d = (Ok r, d') ->
  find (same_key [typeField t; "apply_url"] r) (rows_of t d) = Some old ->
  exists excluded,
    let new := touch (clock d)
                 (apply_set old excluded (clock d) (do_update_set (upsert_of t))) in
    r = <["action" := CText "updated"]> new /\
    find (same_key [typeField t; "apply_url"] r) (rows_of t d') = Some new /\
    log d' = log d ++ [StUpsert t].
Proof.
  intros Hc Hold.
  destruct (create_inv _ _ _ _ _ _ Hc)
    as (proposed & _ & _ & [(old0 & Hf & _ & Hr & Hd)|(Hf & Hr & _)]).
  - pose proof (find_some _ _ Hf) as [_ Hhit].
    assert (Hagree : forall x,
              same_key [typeField t; "apply_url"] r x
              = same_key [typeField t; "apply_url"] proposed x).
    { intros x. apply same_key_agree. intros c Hc'.
      destruct (key_outside_set_list t c Hc') as (Ha & Hu & Hs).
      rewrite Hr, col_insert_other by congruence.
      rewrite conflict_frame by assumption.
      symmetry. now apply (same_key_cells _ _ _ Hhit). }
    rewrite (find_agree _ _ _ Hagree), Hf in Hold. injection Hold as ->.
    exists proposed. cbn zeta. split; [exact Hr|]. split.
    + rewrite (find_agree _ _ _ Hagree), Hd, rows_of_with_rows.
      eapply find_replace_first; [exact Hf|].
      etransitivity; [|exact Hhit]. apply same_key_agree_r. intros c Hc'.
      destruct (key_outside_set_list t c Hc') as (Ha & Hu & Hs).
      now apply conflict_frame.
    + rewrite Hd, log_with_rows. reflexivity.
  - assert (Hagree : forall x,
              same_key [typeField t; "apply_url"] r x
              = same_key [typeField t; "apply_url"] proposed x).
    { intros x. apply same_key_agree. intros c Hc'.
      destruct (key_outside_set_list t c Hc') as (Ha & _ & _).
      now rewrite Hr, col_insert_other by congruence. }
    rewrite (find_agree _ _ _ Hagree), Hf in Hold. discriminate.
Qed.

End ConflictPath.

Section ConflictResults.
Context {E : Engine}.

(** C2.  When [create] succeeds on a (type, apply_url) pair that has a
    stored row, the stored row is rewritten with status 'active' if it was
    'expired' (either store) or 'archived' (event store), and with the
    status it had in every other case, 'active' included. *)
Theorem conflict_revives_or_keeps_status
    (t : table) (data : obj) (ty : value) (d d' : db) (r old : row) :
  create t data ty d = (Ok r, d') ->
  find (same_key [typeField t; "apply_url"] r) (rows_of t d) = Some old ->
  exists new,
    r = <["action" := CText "updated"]> new /\
    find (same_key [typeField t; "apply_url"] r) (rows_of t d') = Some new /\
    (col old "status" = CText "expired" -> col new "status" = CText "active") /\
    (t = Event -> col old "status" = CText "archived" ->
     col new "status" = CText "active") /\
    (col old "status" = CText "active" -> col new "status" = CText "active") /\
    (col old "status" <> CText "expired" ->
     (t = Event -> col old "status" <> CText "archived") ->
     col new "status" = col old "status").
Proof.
  intros Hc Hold.
  destruct (conflict_path _ _ _ _ _ _ _ Hc Hold) as (excluded & Hr & Hstored & _).
  cbn zeta in *. eexists. split; [exact Hr|]. split; [exact Hstored|].
  rewrite conflict_status. unfold eval_set.
  repeat split.
  - intros ->. now destruct t.
  - intros -> ->. reflexivity.
  - intros ->. now destruct t.
  - intros Hexp Harch. destruct (col old "status") as [|s| | | |] eqn:Hs; auto.
    destruct t; simpl.
    + destruct (String.eqb s "expired") eqn:He; simpl; auto.
      apply String.eqb_eq in He. congruence.
    + destruct (String.eqb s "expired") eqn:He; simpl.
      * apply String.eqb_eq in He. congruence.
      * destruct (String.eqb s "archived") eqn:Ha; simpl; auto.
        apply String.eqb_eq in Ha. subst s. now destruct (Harch eq_refl).
Qed.

(** C8.  On the conflict path the stored type, [apply_url], [is_verified],
    [is_featured], [external_id] and [source] are what they were, in the
    stored row and in the returned one, whatever the payload says. *)
Theorem conflict_keeps_identity_and_creation_fields
    (t : table) (data : obj) (ty : value) (d d' : db) (r old : row) :
  create t data ty d = (Ok r, d') ->
  find (same_key [typeField t; "apply_url"] r) (rows_of t d) = Some old ->
  exists new,
    r = <["action" := CText "updated"]> new /\
    find (same_key [typeField t; "apply_url"] r) (rows_of t d') = Some new /\
    forall c,
      In c [typeField t; "apply_url"; "is_verified"; "is_featured";
            "external_id"; "source"] ->
      col new c = col old c /\ col r c = col old c.
Proof.
  intros Hc Hold.
  destruct (conflict_path _ _ _ _ _ _ _ Hc Hold) as (excluded & Hr & Hstored & _).
  cbn zeta in *. eexists. split; [exact Hr|]. split; [exact Hstored|].
  intros c Hin.
  assert (Hc' : c <> "action" /\ c <> "updated_at" /\
                ~ In c (map fst (do_update_set (upsert_of t)))).
  { destruct t; simpl in Hin;
      repeat (destruct Hin as [<-|Hin]); try contradiction;
      (split; [discriminate|split; [discriminate|]]);
      simpl; intros H; repeat (destruct H as [H|H]; [discriminate H|]); exact H. }
  destruct Hc' as (Ha & Hu & Hs).
  assert (Hnew : col (touch (clock d)
                        (apply_set old excluded (clock d) (do_update_set (upsert_of t)))) c
                 = col old c) by now apply conflict_frame.
  split; [exact Hnew|].
  rewrite Hr, col_insert_other by congruence. exact Hnew.
Qed.

End ConflictResults.

Lemma reingested_ok :
  create (E := Reference.engine) Work Samples.reposting (VStr "internship") Samples.stale
  = (Ok Samples.reingested_row, snd Samples.reingested).
Proof.
  assert (H : match fst Samples.reingested with Ok _ => true | Throw _ => false end = true)
    by (vm_compute; reflexivity).
  unfold Samples.reingested_row. unfold Samples.reingested in *.
  set (c := create _ _ _ _) in *. clearbody c.
  destruct c as [[r|e] d']; [reflexivity | discriminate H].
Qed.

Lemma stale_row_found :
  find (same_key [typeField Work; "apply_url"] Samples.reingested_row)
    (rows_of Work Samples.stale)
  = Some Samples.stale_row.
Proof.
  assert (H : same_key [typeField Work; "apply_url"] Samples.reingested_row
                Samples.stale_row = true) by (vm_compute; reflexivity).
  assert (Hlen : length (work_rows Samples.stale) = 1%nat) by (vm_compute; reflexivity).
  unfold Samples.stale_row in *.
  change (rows_of Work Samples.stale) with (work_rows Samples.stale).
  set (l := work_rows Samples.stale) in *. clearbody l.
  set (p := same_key _ _) in *. clearbody p.
  destruct l as [|x l]; [discriminate Hlen|].
  cbn [find hd] in *. now rewrite H.
Qed.

(** An expired internship submitted again comes back active. *)
Lemma status_revival_witness :
  col Samples.stale_row "status" = CText "expired" /\
  col Samples.reingested_row "status" = CText "active" /\
  col Samples.reingested_row "action" = CText "updated".
Proof.
  destruct (conflict_revives_or_keeps_status (E := Reference.engine)
              Work Samples.reposting (VStr "internship") Samples.stale
              (snd Samples.reingested) Samples.reingested_row Samples.stale_row
              reingested_ok stale_row_found)
    as (new & Hr & _ & Hexpired & _).
  assert (Hs : col Samples.stale_row "status" = CText "expired")
    by (vm_compute; reflexivity).
  split; [exact Hs|]. rewrite Hr. split.
  - rewrite col_insert_other by discriminate. exact (Hexpired Hs).
  - apply col_insert_same.
Defined.

(** Submitted again as verified and from a scraper, the stored posting
    stays unverified and manual. *)
Lemma creation_fields_witness :
  get "is_verified" Samples.reposting = VBool true /\
  get "source" Samples.reposting = VStr "scraper" /\
  col Samples.reingested_row "is_verified" = col Samples.stale_row "is_verified" /\
  col Samples.reingested_row "source" = col Samples.stale_row "source" /\
  col Samples.stale_row "is_verified" = CBool false /\
  col Samples.stale_row "source" = CText "manual".
Proof.
  destruct (conflict_keeps_identity_and_creation_fields (E := Reference.engine)
              Work Samples.reposting (VStr "internship") Samples.stale
              (snd Samples.reingested) Samples.reingested_row Samples.stale_row
              reingested_ok stale_row_found)
    as (new & _ & _ & Hkeep).
  split; [reflexivity|]. split; [reflexivity|]. split; [|split; [|split]].
  - apply (Hkeep "is_verified"). simpl. tauto.
  - apply (Hkeep "source"). simpl. tauto.
  - vm_compute. reflexivity.
  - vm_compute. reflexivity.
Defined.

Lemma looked_up_ok :
  resolve (E := Reference.engine) (param_id Samples.idle_patch) Samples.one_job
  = (Ok (Some Samples.looked_up_entity), snd Samples.looked_up).
Proof.
  assert (H : match fst Samples.looked_up with Ok (Some _) => true | _ => false end = true)
    by (vm_compute; reflexivity).
  unfold Samples.looked_up_entity. unfold Samples.looked_up in *.
  change (param_id Samples.idle_patch) with Samples.first_id.
  set (c := resolve _ _) in *. clearbody c.
  destruct c as [[[x|]|e] d']; try discriminate H. reflexivity.
Qed.

Lemma idle_patch_names_no_field (f : string) :
  In f allowedFields -> has f (payload Samples.idle_patch) = false.
Proof.
  unfold allowedFields. intros H.
  repeat (destruct H as [<-|H]; [reflexivity|]). destruct H.
Qed.

(** A PATCH of [views] on a stored job fails with the 500 answer of the
    error handler and changes no row. *)
Lemma empty_patch_witness :
  Model.update (E := Reference.engine) Work Samples.first_id
    (payload Samples.idle_patch) Samples.one_job
  = (Throw (js_error "No valid fields to update"), Samples.one_job) /\
  Controllers.update (E := Reference.engine) Samples.idle_patch Samples.one_job
  = (mkResponse 500 (Failure "Internal Server Error" (Some "An unexpected error occurred")),
     snd Samples.looked_up) /\
  work_rows (snd Samples.looked_up) = work_rows Samples.one_job.
Proof.
  destruct (update_without_valid_fields_throws (E := Reference.engine)
              Samples.idle_patch idle_patch_names_no_field) as (Hmodel & Hpatch).
  split; [apply Hmodel|].
  destruct (Hpatch Samples.one_job Samples.looked_up_entity (snd Samples.looked_up)
              eq_refl eq_refl eq_refl looked_up_ok) as (Hresp & Hw & _).
  split; [exact Hresp | exact Hw].
Defined.

(** ** Creating twice *)

Section CreateTwice.
Context {E : Engine}.

Lemma check_all_holds (ks : list constraint) (r : row) :
  check_all ks r = Ok tt -> forall k, In k ks -> holds k r = true.
Proof.
  induction ks as [|k0 ks IH]; simpl; [tauto|].
  destruct (holds k0 r) eqn:Hk; [|discriminate].
  intros H k [<-|Hin]; auto.
Qed.

(** A row that passes the table constraints has its key columns filled. *)
Lemma checked_key_not_null (t : table) (r : row) (c : string) :
  check_row t r = Ok tt -> In c [typeField t; "apply_url"] -> col r c <> CNull.
Proof.
  intros Hc Hin.
  assert (Hk : holds (NotNull c) r = true).
  { apply (check_all_holds _ _ Hc).
    destruct t; simpl in Hin; destruct Hin as [<-|[<-|[]]]; simpl; tauto. }
  simpl in Hk. intros Hnull. now rewrite Hnull in Hk.
Qed.

(** The returned row carries the key of the proposed row. *)
Lemma returned_key (t : table) (data : obj) (ty : value) (d d' : db) (r proposed : row) :
  create t data ty d = (Ok r, d') ->
  assign_params t (insert_columns (upsert_of t)) (values_of t data ty)
    (default_row t (clock d) (gen_random_uuid (uuid_state d))) = Ok proposed ->
  forall c, In c [typeField t; "apply_url"] -> col r c = col proposed c.
Proof.
  intros Hc Hp c Hin.
  destruct (create_inv _ _ _ _ _ _ Hc)
    as (p & Hp' & _ & [(old & Hf & _ & Hr & _)|(_ & Hr & _)]);
    rewrite Hp in Hp'; injection Hp' as <-;
    destruct (key_outside_set_list t c Hin) as (Ha & Hu & Hs);
    rewrite Hr, col_insert_other by congruence; auto.
  rewrite conflict_frame by assumption.
  pose proof (find_some _ _ Hf) as [_ Hhit].
  symmetry. now apply (same_key_cells _ _ _ Hhit).
Qed.

(** Two proposed rows built for the same type and [apply_url] have the
    same key. *)
Lemma same_pair_same_key (t : table) (data1 data2 : obj) (ty : value)
    (a1 a2 p1 p2 : row) :
  get "apply_url" data2 = get "apply_url" data1 ->
  assign_params t (insert_columns (upsert_of t)) (values_of t data1 ty) a1 = Ok p1 ->
  assign_params t (insert_columns (upsert_of t)) (values_of t data2 ty) a2 = Ok p2 ->
  forall c, In c [typeField t; "apply_url"] -> col p2 c = col p1 c.
Proof.
  intros Hurl H1 H2 c Hin.
  destruct (proposed_key _ _ _ _ _ H1) as ((ty1 & Ht1 & Hb1) & (tu1 & Hu1 & Hc1)).
  destruct (proposed_key _ _ _ _ _ H2) as ((ty2 & Ht2 & Hb2) & (tu2 & Hu2 & Hc2)).
  simpl in Hin. destruct Hin as [<-|[<-|[]]].
  - rewrite Ht1 in Ht2. injection Ht2 as <-. rewrite Hb1 in Hb2. now injection Hb2.
  - rewrite Hu1 in Hu2. injection Hu2 as <-. rewrite Hurl, Hc1 in Hc2. now injection Hc2.
Qed.

(** C3.  When a (type, apply_url) pair that is not stored yet is created
    twice (any time apart, the payloads agreeing on [apply_url]) and both
    calls succeed, the first result is tagged 'created', the second
    'updated', the table ends with exactly one row for the pair, and each
    call sent exactly one statement, the upsert itself. *)
Theorem create_twice_stores_one_row
    (t : table) (data1 data2 : obj) (ty : value) (d0 d1 d2 : db) (r1 r2 : row)
    (later : Z) :
  create t data1 ty d0 = (Ok r1, d1) ->
  find (same_key [typeField t; "apply_url"] r1) (rows_of t d0) = None ->
  get "apply_url" data2 = get "apply_url" data1 ->
  create t data2 ty (at_time later d1) = (Ok r2, d2) ->
  col r1 "action" = CText "created" /\
  col r2 "action" = CText "updated" /\
  length (List.filter (same_key [typeField t; "apply_url"] r1) (rows_of t d2)) = 1%nat /\
  log d1 = log d0 ++ [StUpsert t] /\
  log d2 = log d1 ++ [StUpsert t].
Proof.
  intros Hc1 Hfresh Hurl Hc2.
  destruct (create_inv _ _ _ _ _ _ Hc1) as (p1 & Hp1 & Hk1 & Hpath1).
  pose proof (returned_key _ _ _ _ _ _ _ Hc1 Hp1) as Hkey1.
  assert (Hagree1 : forall x, same_key [typeField t; "apply_url"] r1 x
                              = same_key [typeField t; "apply_url"] p1 x)
    by (intros x; now apply same_key_agree).
  rewrite (find_agree _ _ _ Hagree1) in Hfresh.
  destruct Hpath1 as [(old & Hf & _)|(_ & Hr1 & Hd1)]; [congruence|].
  destruct (create_inv _ _ _ _ _ _ Hc2) as (p2 & Hp2 & Hk2 & Hpath2).
  pose proof (same_pair_same_key _ _ _ _ _ _ _ _ Hurl Hp1 Hp2) as Hsame.
  assert (Hagree2 : forall x, same_key [typeField t; "apply_url"] p2 x
                              = same_key [typeField t; "apply_url"] p1 x)
    by (intros x; now apply same_key_agree).
  assert (Hself : same_key [typeField t; "apply_url"] p1 p1 = true).
  { apply same_key_refl. intros c Hin. now apply (checked_key_not_null t). }
  assert (Hrows1 : rows_of t (at_time later d1) = rows_of t d0 ++ [p1]).
  { now rewrite rows_of_at_time, Hd1, rows_of_with_rows. }
  assert (Hfind2 : find (same_key [typeField t; "apply_url"] p2)
                     (rows_of t (at_time later d1)) = Some p1).
  { rewrite (find_agree _ _ _ Hagree2), Hrows1, find_none_app by assumption.
    now rewrite Hself. }
  destruct Hpath2 as [(old & Hf & _ & Hr2 & Hd2)|(Hf & _)]; [|congruence].
  rewrite Hfind2 in Hf. injection Hf as <-.
  set (new := touch _ _) in *.
  assert (Hnew : same_key [typeField t; "apply_url"] p1 new = true).
  { etransitivity; [|exact Hself].
    apply same_key_agree_r. intros c Hin.
    destruct (key_outside_set_list t c Hin) as (Ha & Hu & Hs).
    now apply conflict_frame. }
  split; [rewrite Hr1; apply col_insert_same|].
  split; [rewrite Hr2; apply col_insert_same|].
  split; [|split].
  - rewrite Hd2, rows_of_with_rows, Hrows1.
    rewrite (filter_agree _ _ _ Hagree1).
    rewrite replace_first_none_app.
    + rewrite List.filter_app, (filter_none _ _ Hfresh).
      cbn [List.filter app]. now rewrite Hnew.
    + now rewrite (find_agree _ _ _ Hagree2).
    + now rewrite Hagree2.
  - rewrite Hd1, log_with_rows. reflexivity.
  - rewrite Hd2, log_with_rows. reflexivity.
Qed.

End CreateTwice.

Lemma first_created_ok :
  create (E := Reference.engine) Work Samples.posting (VStr "internship") Reference.empty_db
  = (Ok Samples.first_created_row, snd Samples.first_created).
Proof.
  assert (H : match fst Samples.first_created with Ok _ => true | Throw _ => false end = true)
    by (vm_compute; reflexivity).
  unfold Samples.first_created_row. unfold Samples.first_created in *.
  set (c := create _ _ _ _) in *. clearbody c.
  destruct c as [[r|e] d']; [reflexivity | discriminate H].
Qed.

Lemma second_created_ok :
  create (E := Reference.engine) Work Samples.posting (VStr "internship")
    (at_time 2000 (snd Samples.first_created))
  = (Ok Samples.second_created_row, snd Samples.second_created).
Proof.
  assert (H : match fst Samples.second_created with Ok _ => true | Throw _ => false end = true)
    by (vm_compute; reflexivity).
  unfold Samples.second_created_row. unfold Samples.second_created in *.
  set (c := create _ _ _ (at_time _ _)) in *. clearbody c.
  destruct c as [[r|e] d']; [reflexivity | discriminate H].
Qed.

(** The same posting submitted twice to an empty store. *)
Lemma create_twice_witness :
  col Samples.first_created_row "action" = CText "created" /\
  col Samples.second_created_row "action" = CText "updated" /\
  length (List.filter (same_key [typeField Work; "apply_url"] Samples.first_created_row)
            (rows_of Work (snd Samples.second_created))) = 1%nat /\
  log (snd Samples.first_created) = log Reference.empty_db ++ [StUpsert Work] /\
  log (snd Samples.second_created) = log (snd Samples.first_created) ++ [StUpsert Work].
Proof.
  apply (create_twice_stores_one_row (E := Reference.engine)
           Work Samples.posting Samples.posting (VStr "internship")
           Reference.empty_db (snd Samples.first_created) (snd Samples.second_created)
           Samples.first_created_row Samples.second_created_row 2000).
  - exact first_created_ok.
  - reflexivity.
  - reflexivity.
  - exact second_created_ok.
Defined.

(** ** Resolving an identifier *)

Section Resolver.
Context {E : Engine}.

Lemma id_is_ok (id : string) (x : cell) (more : list value) :
  bind TUuid (VStr id) = Ok x -> id_is (VStr id :: more) 1 = Ok (holder x).
Proof. intros H. unfold id_is, param. cbn [nth_error obind]. now rewrite H. Qed.

Lemma head_filter (p : row -> bool) (l : list row) : head (List.filter p l) = find p l.
Proof. induction l as [|x l IH]; simpl; auto. now destruct (p x). Qed.

Lemma findById_ok (t : table) (id : string) (x : cell) (d : db) :
  bind TUuid (VStr id) = Ok x ->
  findById t id d = (Ok (find (holder x) (rows_of t d)), logged (StSelectById t) d).
Proof.
  intros H. unfold findById, bindM, select_by_id, ret.
  now rewrite (id_is_ok _ _ _ H), rows_of_logged, head_filter.
Qed.

Lemma resolve_work (id : string) (x : cell) (d : db) (rw : row) :
  bind TUuid (VStr id) = Ok x ->
  find (holder x) (work_rows d) = Some rw ->
  resolve id d = (Ok (Some (rw, Work)), logged (StSelectById Work) d).
Proof.
  intros Hb Hw. unfold resolve, bindM.
  rewrite (findById_ok _ _ _ _ Hb). unfold rows_of. now rewrite Hw.
Qed.

Lemma resolve_event (id : string) (x : cell) (d : db) (re : row) :
  bind TUuid (VStr id) = Ok x ->
  find (holder x) (work_rows d) = None ->
  find (holder x) (event_rows d) = Some re ->
  resolve id d
  = (Ok (Some (re, Event)), logged (StSelectById Event) (logged (StSelectById Work) d)).
Proof.
  intros Hb Hw He. unfold resolve, bindM.
  rewrite (findById_ok _ _ _ _ Hb). unfold rows_of at 1. rewrite Hw.
  rewrite (findById_ok _ _ _ _ Hb), rows_of_logged. unfold rows_of. now rewrite He.
Qed.

Lemma resolve_none (id : string) (x : cell) (d : db) :
  bind TUuid (VStr id) = Ok x ->
  find (holder x) (work_rows d) = None ->
  find (holder x) (event_rows d) = None ->
  resolve id d = (Ok None, logged (StSelectById Event) (logged (StSelectById Work) d)).
Proof.
  intros Hb Hw He. unfold resolve, bindM.
  rewrite (findById_ok _ _ _ _ Hb). unfold rows_of at 1. rewrite Hw.
  rewrite (findById_ok _ _ _ _ Hb), rows_of_logged. unfold rows_of. now rewrite He.
Qed.




End Resolver.

Section WorkFirst.
Context {E : Engine}.


Lemma delete_by_id_ok (t : table) (id : string) (x : cell) (d : db) :
  bind TUuid (VStr id) = Ok x ->
  delete_by_id t [VStr id] d
  = (Ok (List.filter (holder x) (rows_of t d)),
     with_rows t (List.filter (fun r => negb (holder x r)) (rows_of t d))
       (logged (StDelete t) d)).
Proof.
  intros H. unfold delete_by_id. now rewrite (id_is_ok _ _ _ H), rows_of_logged.
Qed.

Lemma find_filter (p : row -> bool) (l : list row) (r : row) :
  find p l = Some r -> exists rest, List.filter p l = r :: rest.
Proof.
  induction l as [|y l IH]; simpl; [discriminate|].
  destruct (p y); [intros H; injection H as <-; eauto | auto].
Qed.

(** Whatever the lookup finds or misses, it asks the work table first, and
    the event table only after the work table had no such row. *)
Lemma resolve_probes_work_first (id : string) (d d' : db)
    (res : outcome (option (row * table))) :
  resolve id d = (res, d') ->
  (log d' = log d ++ [StSelectById Work] /\
   (forall r, res <> Ok (Some (r, Event))) /\ res <> Ok None) \/
  (log d' = log d ++ [StSelectById Work; StSelectById Event] /\
   (forall r, res <> Ok (Some (r, Work)))).
Proof.
  unfold resolve, bindM.
  pose proof (findById_logged Work id d) as Hw.
  destruct (findById Work id d) as [[[r|]|e] d1]; simpl in Hw; subst d1.
  - intros H; injection H as <- <-. left. repeat split; congruence.
  - pose proof (findById_logged Event id (logged (StSelectById Work) d)) as He.
    destruct (findById Event id (logged (StSelectById Work) d)) as [[[r|]|e] d2];
      simpl in He; subst d2; intros H; injection H as <- <-; right;
      (split; [simpl; now rewrite <- app_assoc | congruence]).
  - intros H; injection H as <- <-. left. repeat split; congruence.
Qed.


End WorkFirst.

(** ** Rewriting rows under the table constraints *)

Section Rewrites.
Context {E : Engine}.

Lemma holds_same_col (k : constraint) (r r' : row) :
  col r' (ccol k) = col r (ccol k) -> holds k r' = holds k r.
Proof. destruct k; simpl; now intros ->. Qed.

Lemma check_all_intro (ks : list constraint) (r : row) :
  (forall k, In k ks -> holds k r = true) -> check_all ks r = Ok tt.
Proof.
  induction ks as [|k ks IH]; intros H; simpl; auto.
  rewrite (H k) by now left. apply IH. intros k' Hk'. apply H. now right.
Qed.

(** A checked row stays checked when the columns that changed still
    satisfy the constraints that look at them. *)
Lemma check_row_changed (t : table) (r r' : row) (changed : list string) :
  check_row t r = Ok tt ->
  (forall c, ~ In c changed -> col r' c = col r c) ->
  (forall k, In k (constraints t) -> In (ccol k) changed -> holds k r' = true) ->
  check_row t r' = Ok tt.
Proof.
  intros Hc Hsame Hnew. apply check_all_intro. intros k Hk.
  destruct (in_dec string_dec (ccol k) changed) as [Hin|Hout].
  - now apply Hnew.
  - rewrite (holds_same_col k r r') by now apply Hsame.
    now apply (check_all_holds _ _ Hc).
Qed.

(** When every selected row can be rewritten and passes the constraints
    afterwards, the UPDATE rewrites exactly the selected rows. *)
Lemma update_rows_total (t : table) (now : Z) (hit : row -> bool) (g : row -> row)
    (rs : list row) :
  (forall r, In r rs -> hit r = true -> check_row t (touch now (g r)) = Ok tt) ->
  update_rows t now hit (fun r => Ok (g r)) rs
  = Ok (map (fun r => if hit r then touch now (g r) else r) rs,
        map (fun r => touch now (g r)) (List.filter hit rs)).
Proof.
  induction rs as [|r rs IH]; intros H; simpl; auto.
  rewrite IH by (intros r' Hr'; apply H; now right).
  destruct (hit r) eqn:Hr; simpl; auto.
  now rewrite (H r (or_introl eq_refl) Hr).
Qed.

Lemma update_rows_succeeds (t : table) (now : Z) (hit : row -> bool)
    (f : row -> outcome row) (rs : list row) :
  (forall r, In r rs -> hit r = true ->
     exists r1, f r = Ok r1 /\ check_row t (touch now r1) = Ok tt) ->
  exists all changed, update_rows t now hit f rs = Ok (all, changed).
Proof.
  induction rs as [|r rs IH]; intros H; simpl; eauto.
  destruct IH as (all & changed & ->); [intros r' Hr'; apply H; now right|].
  destruct (hit r) eqn:Hr; simpl; eauto.
  destruct (H r (or_introl eq_refl) Hr) as (r1 & -> & Hc). simpl.
  rewrite Hc. simpl. eauto.
Qed.

Lemma find_map_if (hit : row -> bool) (g : row -> row) (l : list row) :
  (forall r, hit (g r) = hit r) ->
  find hit (map (fun r => if hit r then g r else r) l) = option_map g (find hit l).
Proof.
  intros Hg. induction l as [|r l IH]; simpl; auto.
  destruct (hit r) eqn:Hr; [now rewrite Hg, Hr | now rewrite Hr].
Qed.

Lemma in_map_if (hit : row -> bool) (g : row -> row) (l : list row) (r' : row) :
  (forall r, hit (g r) = hit r) ->
  In r' (map (fun r => if hit r then g r else r) l) -> hit r' = true ->
  exists r, In r l /\ hit r = true /\ r' = g r.
Proof.
  intros Hg Hin Hhit. apply in_map_iff in Hin. destruct Hin as (r & Hr & Hin).
  destruct (hit r) eqn:Hh; subst r'; [eauto | congruence].
Qed.

Lemma archived_cols (now : Z) (r : row) (c : string) :
  ~ In c ["status"; "updated_at"] -> col (archived now r) c = col r c.
Proof.
  intros Hc. unfold archived, archive_row, touch.
  rewrite !col_insert_other; auto; intros <-; apply Hc; simpl; tauto.
Qed.

Lemma archived_status (now : Z) (r : row) : col (archived now r) "status" = CText "archived".
Proof.
  unfold archived, archive_row, touch. rewrite !col_insert_other by discriminate.
  apply col_insert_same.
Qed.

Lemma archived_holder (now : Z) (x : cell) (r : row) :
  holder x (archived now r) = holder x r.
Proof.
  unfold holder. rewrite archived_cols; auto.
  simpl. intros [H|[H|[]]]; discriminate H.
Qed.

(** Archiving keeps an event row within the constraints of its table. *)
Lemma archived_checked (now : Z) (r : row) :
  check_row Event r = Ok tt -> check_row Event (archived now r) = Ok tt.
Proof.
  intros Hc. apply (check_row_changed Event r _ ["status"; "updated_at"] Hc).
  - intros c. apply archived_cols.
  - intros k Hk Hcol. simpl in Hk.
    repeat (destruct Hk as [<-|Hk];
            [first [ simpl in Hcol; destruct Hcol as [H|[H|[]]]; discriminate H
                   | unfold holds; rewrite archived_status; reflexivity
                   | unfold holds, archived, touch; rewrite col_insert_same; reflexivity ]|]).
    destruct Hk.
Qed.

End Rewrites.

(** ** Creating again with the same payload *)

Section CreateAgain.
Context {E : Engine}.

(** The parameters convert the same way whatever row they are written to. *)
Lemma assign_params_again (t : table) (cols : list string) (vals : list value)
    (r0 r0' p : row) :
  assign_params t cols vals r0 = Ok p ->
  exists p',
    assign_params t cols vals r0' = Ok p' /\
    (forall c, In c cols -> col p' c = col p c) /\
    (forall c, ~ In c cols -> col p' c = col r0' c).
Proof.
  revert vals r0 r0'. induction cols as [|c0 cols IH]; intros [|v vals] r0 r0'; simpl;
    try discriminate.
  - intros H. exists r0'. split; [reflexivity|]. split; [tauto|reflexivity].
  - destruct (need_col t c0) as [ty|]; simpl; [|discriminate].
    destruct (bind ty v) as [x|]; simpl; [|discriminate].
    intros H. destruct (IH _ _ (<[c0 := x]> r0') H) as (p' & Hp' & Hin & Hout).
    exists p'. split; [exact Hp'|]. split.
    + intros c [<-|Hc]; [|now apply Hin].
      destruct (in_dec string_dec c0 cols) as [Hc|Hc]; [now apply Hin|].
      rewrite (Hout _ Hc), (assign_params_other _ _ _ _ _ _ H Hc).
      now rewrite !col_insert_same.
    + intros c Hc. rewrite Hout by tauto.
      apply col_insert_other. intros <-. tauto.
Qed.

Ltac not_listed :=
  simpl; let H := fresh in intros H; repeat (destruct H as [H|H]; [discriminate H|]); exact H.

Ltac peel_inserts :=
  repeat (rewrite col_insert_other by discriminate); try rewrite col_insert_same.

(** A second proposed row for the same parameters passes the constraints
    the first one passed. *)
Lemma proposed_again_checked (t : table) (vals : list value) (now now' : Z)
    (u u' : string) (p p' : row) :
  assign_params t (insert_columns (upsert_of t)) vals (default_row t now u) = Ok p ->
  check_row t p = Ok tt ->
  assign_params t (insert_columns (upsert_of t)) vals (default_row t now' u') = Ok p' ->
  check_row t p' = Ok tt.
Proof.
  intros Hp Hc Hp'.
  destruct (assign_params_again _ _ _ _ (default_row t now' u') _ Hp) as (q & Hq & Hin & Hout).
  rewrite Hp' in Hq. injection Hq as <-.
  apply check_all_intro. intros k Hk.
  pose proof (check_all_holds _ _ Hc k Hk) as Hold.
  destruct t; simpl in Hk;
    repeat (destruct Hk as [<-|Hk];
            [first [ rewrite (holds_same_col _ p p') by (apply Hin; simpl; tauto); exact Hold
                   | unfold holds; rewrite Hout by not_listed;
                     unfold default_row; peel_inserts; reflexivity ]|]);
    destruct Hk.
Qed.

(** The status of a proposed row is the column default. *)
Lemma proposed_status (t : table) (vals : list value) (now : Z) (u : string) (p : row) :
  assign_params t (insert_columns (upsert_of t)) vals (default_row t now u) = Ok p ->
  col p "status" = CText "active".
Proof.
  intros Hp. rewrite (assign_params_other _ _ _ _ _ "status" Hp).
  - unfold default_row. now peel_inserts.
  - destruct t; not_listed.
Qed.

(** Rewriting a freshly created row with the parameters it was created
    from keeps it within the constraints. *)
Lemma updated_again_checked (t : table) (p1 p2 : row) (later : Z) :
  check_row t p1 = Ok tt ->
  col p1 "status" = CText "active" ->
  (forall c, In c (insert_columns (upsert_of t)) -> col p2 c = col p1 c) ->
  check_row t (touch later (apply_set p1 p2 later (do_update_set (upsert_of t)))) = Ok tt.
Proof.
  intros Hc Hstatus Hsame.
  apply check_all_intro. intros k Hk.
  pose proof (check_all_holds _ _ Hc k Hk) as Hold.
  destruct t; simpl in Hk;
    repeat (destruct Hk as [<-|Hk];
            [unfold holds in *; unfold touch, apply_set;
             cbn [upsert_of do_update_set work_upsert event_upsert fold_left];
             peel_inserts; cbn [eval_set];
             first [ exact Hold
                   | reflexivity
                   | rewrite Hsame by (simpl; tauto); exact Hold
                   | rewrite Hstatus; reflexivity ]|]);
    destruct Hk.
Qed.

(** Submitting the same payload again, any time later, succeeds whenever
    the first submission created the row. *)
Lemma create_again_succeeds (t : table) (data : obj) (ty : value) (d0 d1 : db)
    (r1 : row) (later : Z) :
  create t data ty d0 = (Ok r1, d1) ->
  find (same_key [typeField t; "apply_url"] r1) (rows_of t d0) = None ->
  exists r2 d2, create t data ty (at_time later d1) = (Ok r2, d2).
Proof.
  intros Hc1 Hfresh.
  destruct (create_inv _ _ _ _ _ _ Hc1) as (p1 & Hp1 & Hk1 & Hpath1).
  pose proof (returned_key _ _ _ _ _ _ _ Hc1 Hp1) as Hkey1.
  assert (Hagree1 : forall x, same_key [typeField t; "apply_url"] r1 x
                              = same_key [typeField t; "apply_url"] p1 x)
    by (intros x; now apply same_key_agree).
  rewrite (find_agree _ _ _ Hagree1) in Hfresh.
  destruct Hpath1 as [(old & Hf & _)|(_ & Hr1 & Hd1)]; [congruence|].
  set (d := at_time later d1).
  destruct (assign_params_again _ _ _ _
              (default_row t (clock d) (gen_random_uuid (uuid_state d))) _ Hp1)
    as (p2 & Hp2 & Hin & _).
  pose proof (proposed_again_checked _ _ _ _ _ _ _ _ Hp1 Hk1 Hp2) as Hk2.
  assert (Hagree2 : forall x, same_key [typeField t; "apply_url"] p2 x
                              = same_key [typeField t; "apply_url"] p1 x).
  { intros x. apply same_key_agree. intros c Hc. apply Hin.
    destruct t; simpl in Hc; destruct Hc as [<-|[<-|[]]]; simpl; tauto. }
  assert (Hself : same_key [typeField t; "apply_url"] p1 p1 = true).
  { apply same_key_refl. intros c Hin'. now apply (checked_key_not_null t). }
  assert (Hfind2 : find (same_key [typeField t; "apply_url"] p2) (rows_of t d) = Some p1).
  { unfold d. rewrite (find_agree _ _ _ Hagree2), rows_of_at_time, Hd1, rows_of_with_rows.
    rewrite find_none_app by assumption. now rewrite Hself. }
  pose proof (updated_again_checked t p1 p2 (clock d) Hk1
                (proposed_status _ _ _ _ _ Hp1) Hin) as Hnew.
  unfold create, exec_upsert. rewrite conflict_target_of.
  replace (into (upsert_of t)) with t by now destruct t.
  rewrite rows_of_next_uuid, rows_of_logged.
  fold d. rewrite Hp2, Hk2, Hfind2, Hnew. eauto.
Qed.

End CreateAgain.

(** ** Deleting, then fetching *)

Section DeleteThenFetch.
Context {E : Engine}.

(** Counting a view keeps a checked row checked, short of the 32-bit
    limit. *)
Lemma bump_row_checked (t : table) (now : Z) (r : row) :
  check_row t r = Ok tt ->
  (forall n, col r "view_count" = CInt n -> n < 2147483647) ->
  exists r1, bump_row now r = Ok r1 /\ check_row t (touch now r1) = Ok tt.
Proof.
  intros Hc Hmax. unfold bump_row.
  assert (Hframe : forall (y : cell) r0,
            r0 = <["view_count" := y]> r \/ r0 = r ->
            forall c, ~ In c ["view_count"; "updated_at"] ->
            col (touch now (<["updated_at" := CTime now]> r0)) c = col r c).
  { intros y r0 Hr0 c Hc'. unfold touch.
    rewrite !col_insert_other by (intros <-; apply Hc'; simpl; tauto).
    destruct Hr0 as [-> | ->]; auto.
    apply col_insert_other. intros <-. apply Hc'. simpl. tauto. }
  assert (Hstamp : forall r0, col (touch now (<["updated_at" := CTime now]> r0)) "updated_at"
                              = CTime now).
  { intros r0. unfold touch. apply col_insert_same. }
  destruct (col r "view_count") as [| | |n| |] eqn:Hv;
    try (eexists; split; [reflexivity|];
         apply (check_row_changed t r _ ["view_count"; "updated_at"] Hc);
         [ apply (Hframe CNull); now right
         | intros k Hk Hcol;
           destruct t; simpl in Hk;
           repeat (destruct Hk as [<-|Hk];
                   [first [ simpl in Hcol; destruct Hcol as [H|[H|[]]]; discriminate H
                          | unfold holds; rewrite Hstamp; reflexivity
                          | unfold holds, touch; rewrite !col_insert_other by discriminate;
                            rewrite Hv; reflexivity ]|]);
           destruct Hk ]).
  pose proof (Hmax n eq_refl) as Hn.
  assert (Hpos : 0 <= n).
  { assert (Hk : holds (CheckNonNeg "view_count") r = true).
    { apply (check_all_holds _ _ Hc). destruct t; simpl; tauto. }
    simpl in Hk. rewrite Hv in Hk. now apply Z.leb_le. }
  destruct (n + 1 <=? 2147483647) eqn:Hle; [|apply Z.leb_gt in Hle; lia].
  eexists; split; [reflexivity|].
  apply (check_row_changed t r _ ["view_count"; "updated_at"] Hc).
  - apply (Hframe (CInt (n + 1))). now left.
  - intros k Hk Hcol.
    assert (Hcount : col (touch now (<["updated_at" := CTime now]>
                                       (<["view_count" := CInt (n + 1)]> r))) "view_count"
                     = CInt (n + 1)).
    { unfold touch. rewrite !col_insert_other by discriminate. apply col_insert_same. }
    destruct t; simpl in Hk;
      repeat (destruct Hk as [<-|Hk];
              [first [ simpl in Hcol; destruct Hcol as [H|[H|[]]]; discriminate H
                     | unfold holds; rewrite Hstamp; reflexivity
                     | unfold holds; rewrite Hcount; apply Z.leb_le; lia ]|]);
      destruct Hk.
Qed.

Lemma archive_by_id_ok (id : string) (x : cell) (d : db) :
  bind TUuid (VStr id) = Ok x ->
  (forall r, In r (rows_of Event d) -> holder x r = true -> check_row Event r = Ok tt) ->
  archive_by_id Event [VStr id] d
  = (Ok (map (archived (clock d)) (List.filter (holder x) (rows_of Event d))),
     with_rows Event
       (map (fun r => if holder x r then archived (clock d) r else r) (rows_of Event d))
       (logged (StArchive Event) d)).
Proof.
  intros Hb Hwf. unfold archive_by_id, run_update.
  rewrite (id_is_ok _ _ _ Hb), rows_of_logged.
  rewrite (update_rows_total Event (clock d) (holder x) (archive_row (clock d))).
  - reflexivity.
  - intros r Hr Hh. apply (archived_checked (clock d)). now apply Hwf.
Qed.

Lemma incrementViewCount_succeeds (t : table) (id : string) (x : cell) (d : db) :
  bind TUuid (VStr id) = Ok x ->
  (forall r, In r (rows_of t d) -> holder x r = true ->
     check_row t r = Ok tt /\
     forall n, col r "view_count" = CInt n -> n < 2147483647) ->
  exists res d', incrementViewCount t id d = (Ok res, d').
Proof.
  intros Hb Hwf. unfold incrementViewCount, bindM, bump_views, run_update, ret.
  rewrite (id_is_ok _ _ _ Hb), rows_of_logged.
  destruct (update_rows_succeeds t (clock d) (holder x) (bump_row (clock d)) (rows_of t d))
    as (all & changed & ->); [|eauto].
  intros r Hr Hh. destruct (Hwf r Hr Hh) as (Hc & Hmax).
  now apply bump_row_checked.
Qed.

Lemma find_filter_out (p : row -> bool) (l : list row) :
  find p (List.filter (fun r => negb (p r)) l) = None.
Proof.
  induction l as [|r l IH]; simpl; auto.
  destruct (p r) eqn:Hr; simpl; auto. now rewrite Hr.
Qed.

(** C7.  Deleting an identifier found in the work table answers 204 with
    no body and removes its rows, so that (the event table having no such
    identifier) any later fetch answers 404.  Deleting an identifier found
    only in the event table answers 204 with no body and keeps the row with
    status 'archived': any later fetch answers 200 with that row, tagged
    'event'.  The event rows concerned are taken to satisfy the table
    constraints and to have a view counter below the 32-bit limit. *)
Theorem delete_then_fetch (req : request) (d : db) (x : cell) :
  isValidUUID (param_id req) = true ->
  bind TUuid (VStr (param_id req)) = Ok x ->
  (forall rw,
     find (holder x) (work_rows d) = Some rw ->
     find (holder x) (event_rows d) = None ->
     exists d1,
       Controllers.delete req d = (mkResponse 204 NoBody, d1) /\
       forall later, exists d2,
         getById req (at_time later d1)
         = (mkResponse 404
              (Failure "Opportunity not found"
                 (Some ("No opportunity found with ID: " ++ param_id req)%string)),
            d2)) /\
  (forall re,
     find (holder x) (work_rows d) = None ->
     find (holder x) (event_rows d) = Some re ->
     (forall r, In r (event_rows d) -> holder x r = true ->
        check_row Event r = Ok tt /\
        forall n, col r "view_count" = CInt n -> n < 2147483647) ->
     exists d1,
       Controllers.delete req d = (mkResponse 204 NoBody, d1) /\
       forall later, exists shown d2,
         getById req (at_time later d1) = (mkResponse 200 (Item shown None), d2) /\
         col shown "status" = CText "archived" /\
         col shown "category" = CText "event" /\
         forall c, ~ In c ["status"; "updated_at"; "view_count"; "category"] ->
                   col shown c = col re c).
Proof.
  intros Hid Hb. split.
  - intros rw Hw He.
    unfold Controllers.delete, asyncHandler. rewrite Hid. cbn [negb]. unfold bindM at 1.
    rewrite (findById_ok _ _ _ _ Hb). unfold rows_of at 1. rewrite Hw.
    unfold Model.delete, bindM. rewrite (delete_by_id_ok _ _ _ _ Hb), rows_of_logged.
    unfold rows_of. destruct (find_filter _ _ _ Hw) as (rest & ->).
    eexists. split; [reflexivity|].
    intros later. unfold getById, asyncHandler. rewrite Hid. cbn [negb].
    unfold bindM at 1. erewrite (resolve_none _ _ _ Hb).
    + eexists. reflexivity.
    + simpl. apply find_filter_out.
    + simpl. exact He.
  - intros re Hw He Hwf.
    assert (Hchecked : forall r, In r (event_rows d) -> holder x r = true ->
                                 check_row Event r = Ok tt)
      by (intros r Hr Hh; now destruct (Hwf r Hr Hh)).
    unfold Controllers.delete, asyncHandler. rewrite Hid. cbn [negb]. unfold bindM at 1.
    rewrite (findById_ok _ _ _ _ Hb). unfold rows_of at 1. rewrite Hw.
    unfold bindM at 1.
    rewrite (findById_ok _ _ _ _ Hb), rows_of_logged. unfold rows_of at 1. rewrite He.
    unfold Model.delete, bindM.
    rewrite (archive_by_id_ok _ _ _ Hb)
      by (rewrite !rows_of_logged; exact Hchecked).
    rewrite !rows_of_logged. unfold rows_of.
    destruct (find_filter _ _ _ He) as (rest & ->).
    cbn [map]. eexists. split; [reflexivity|].
    intros later. unfold getById, asyncHandler. rewrite Hid. cbn [negb].
    set (now := clock (logged (StSelectById Event) (logged (StSelectById Work) d))).
    set (d1 := at_time later _).
    assert (Hw1 : find (holder x) (work_rows d1) = None) by exact Hw.
    assert (He1 : find (holder x) (event_rows d1) = Some (archived now re)).
    { unfold d1. simpl event_rows.
      rewrite find_map_if by (intros r; apply archived_holder).
      now rewrite He. }
    unfold bindM at 1. rewrite (resolve_event _ _ _ _ Hb Hw1 He1).
    unfold bindM.
    destruct (incrementViewCount_succeeds Event (param_id req) x
                (logged (StSelectById Event) (logged (StSelectById Work) d1)) Hb)
      as (res & d2 & ->).
    { rewrite !rows_of_logged. intros r' Hr' Hh'.
      destruct (in_map_if (holder x) (archived now) (event_rows d) r') as (r & Hr & Hh & ->);
        auto using archived_holder.
      destruct (Hwf r Hr Hh) as (Hc & Hmax). split.
      - now apply archived_checked.
      - intros n Hn. apply Hmax. rewrite <- Hn. symmetry. apply archived_cols.
        simpl. intros [H|[H|[]]]; discriminate H. }
    eexists. eexists. split; [reflexivity|]. split; [|split].
    + rewrite !col_insert_other by discriminate. apply archived_status.
    + apply col_insert_same.
    + intros c Hc.
      rewrite !col_insert_other by (intros <-; apply Hc; simpl; tauto).
      apply archived_cols. intros Hin. apply Hc. simpl in *. tauto.
Qed.

End DeleteThenFetch.

Lemma first_id_binds :
  bind (Engine := Reference.engine) TUuid (VStr (param_id Samples.by_first_id))
  = Ok (CText Samples.first_id).
Proof. vm_compute. reflexivity. Qed.

Lemma head_is_found (p : row -> bool) (l : list row) :
  l <> [] -> p (List.hd ∅ l) = true -> find p l = Some (List.hd ∅ l).
Proof. destruct l as [|r l]; [congruence|]. simpl. now intros _ ->. Qed.




Lemma sound_event_row_spec (r : row) :
  Samples.sound_event_row r = true ->
  check_row Event r = Ok tt /\ forall n, col r "view_count" = CInt n -> n < 2147483647.
Proof.
  unfold Samples.sound_event_row. rewrite andb_true_iff. intros [Hc Hv]. split.
  - destruct (check_row Event r) as [[]|e]; [reflexivity | discriminate Hc].
  - intros n Hn. rewrite Hn in Hv. now apply Z.ltb_lt.
Qed.

Lemma one_job_row_found :
  find (holder (CText Samples.first_id)) (work_rows Samples.one_job)
  = Some (List.hd ∅ (work_rows Samples.one_job)).
Proof.
  apply head_is_found.
  - intros H. apply (f_equal (@length row)) in H. vm_compute in H. discriminate H.
  - vm_compute. reflexivity.
Qed.

Lemma one_hackathon_row_found :
  find (holder (CText Samples.first_id)) (event_rows Samples.one_hackathon)
  = Some Samples.hackathon_row.
Proof.
  apply head_is_found.
  - intros H. apply (f_equal (@length row)) in H. vm_compute in H. discriminate H.
  - vm_compute. reflexivity.
Qed.

Lemma one_hackathon_sound (r : row) :
  In r (event_rows Samples.one_hackathon) ->
  holder (CText Samples.first_id) r = true ->
  check_row Event r = Ok tt /\ forall n, col r "view_count" = CInt n -> n < 2147483647.
Proof.
  intros Hr _. apply sound_event_row_spec.
  assert (H : forallb Samples.sound_event_row (event_rows Samples.one_hackathon) = true)
    by (vm_compute; reflexivity).
  exact (proj1 (forallb_forall _ _) H r Hr).
Qed.

(** A deleted job is gone; a deleted hackathon is still served, archived. *)
Lemma delete_then_fetch_witness :
  (exists d1,
     Controllers.delete (E := Reference.engine) Samples.by_first_id Samples.one_job
     = (mkResponse 204 NoBody, d1) /\
     forall later, exists d2,
       getById (E := Reference.engine) Samples.by_first_id (at_time later d1)
       = (mkResponse 404
            (Failure "Opportunity not found"
               (Some ("No opportunity found with ID: "
                      ++ param_id Samples.by_first_id)%string)),
          d2)) /\
  (exists d1,
     Controllers.delete (E := Reference.engine) Samples.by_first_id Samples.one_hackathon
     = (mkResponse 204 NoBody, d1) /\
     forall later, exists shown d2,
       getById (E := Reference.engine) Samples.by_first_id (at_time later d1)
       = (mkResponse 200 (Item shown None), d2) /\
       col shown "status" = CText "archived" /\
       col shown "category" = CText "event" /\
       forall c, ~ In c ["status"; "updated_at"; "view_count"; "category"] ->
                 col shown c = col Samples.hackathon_row c).
Proof.
  split.
  - destruct (delete_then_fetch (E := Reference.engine)
                Samples.by_first_id Samples.one_job (CText Samples.first_id)
                eq_refl first_id_binds) as (Hwork & _).
    apply (Hwork _ one_job_row_found). vm_compute. reflexivity.
  - destruct (delete_then_fetch (E := Reference.engine)
                Samples.by_first_id Samples.one_hackathon (CText Samples.first_id)
                eq_refl first_id_binds) as (_ & Hevent).
    apply (Hevent _ eq_refl one_hackathon_row_found one_hackathon_sound).
Defined.

(** * Properties of the other functions *)

Import Checks Queries Endpoints Terms.

(** * Further properties *)

(** ** The ORDER BY clause *)

Lemma lower_upper_letter (c : ascii) (l : ascii) :
  In l ["a"; "s"; "c"; "d"; "e"]%char ->
  lower_ascii c = l -> upper_ascii c = upper_ascii l.
Proof.
  intros Hl Hc. subst l.
  destruct c as [[] [] [] [] [] [] [] []]; try reflexivity;
    exfalso; vm_compute in Hl; intuition discriminate.
Qed.

Lemma lower_asc_upper (s : string) :
  toLowerCase s = "asc" -> toUpperCase s = "ASC".
Proof.
  destruct s as [|c1 [|c2 [|c3 [|c4 s]]]]; try discriminate. simpl.
  intros H. injection H as H1 H2 H3.
  rewrite (lower_upper_letter c1 "a"), (lower_upper_letter c2 "s"),
    (lower_upper_letter c3 "c"); auto; simpl; tauto.
Qed.

Lemma lower_desc_upper (s : string) :
  toLowerCase s = "desc" -> toUpperCase s = "DESC".
Proof.
  destruct s as [|c1 [|c2 [|c3 [|c4 [|c5 s]]]]]; try discriminate. simpl.
  intros H. injection H as H1 H2 H3 H4.
  rewrite (lower_upper_letter c1 "d"), (lower_upper_letter c2 "e"),
    (lower_upper_letter c3 "s"), (lower_upper_letter c4 "c"); auto; simpl; tauto.
Qed.

(** X1.  Whatever the caller passes as [sort] and [order], the ORDER BY
    clause is built from a column of the fixed list and from ASC or DESC:
    no text of the caller reaches the statement. *)
Theorem order_clause_is_whitelisted (sort order : value) :
  In (fst (buildOrderClause sort order)) validSortFields /\
  In (snd (buildOrderClause sort order)) ["ASC"; "DESC"].
Proof.
  unfold buildOrderClause. cbn [fst snd]. split.
  - destruct (first_if_array _) as [| | | |s| | |]; try (simpl; tauto).
    destruct (mem_string s validSortFields) eqn:Hs; [|simpl; tauto].
    now apply mem_string_In.
  - destruct (first_if_array _) as [| | | |s| | |]; try (simpl; tauto).
    destruct (mem_string (toLowerCase s) validOrders) eqn:Hs; [|simpl; tauto].
    apply mem_string_In in Hs. destruct Hs as [Hs|[Hs|[]]].
    + left. symmetry. now apply lower_asc_upper.
    + right; left. symmetry. now apply lower_desc_upper.
Qed.

(** ** The filter compiler, block by block *)

Section Blocks.
Context {E : Engine}.

Variable Q : where_result -> Prop.
Hypothesis Q_push0 : forall c w, Q w -> Q (push0 (CIsTrue c) w).
Hypothesis Q_push1 :
  forall k v w, (forall p, cond_params (k p) = [p]) -> Q w -> Q (push1 k v w).
Hypothesis Q_push2 : forall c v1 v2 w, Q w -> Q (push2 (CBetween c) v1 v2 w).

Lemma filter_blocks_preserve (t : table) (now : Z) :
  Forall (preserves Q) (filter_blocks t now).
Proof.
  unfold filter_blocks.
  repeat match goal with
         | |- Forall _ (_ :: _) => constructor
         | |- Forall _ [] => constructor
         end;
    unfold preserves, type_filter, status_filter, like_filter, eq_filter, flag_filter,
      search_filter, array_filter, deadline_filter; intros f w w' Hw;
    repeat match goal with
           | |- context [if ?c then _ else _] => destruct c
           | |- context [obind ?x _] => destruct x; simpl
           end;
    intros H; try discriminate H; injection H as <-; auto.
Qed.

Lemma run_blocks_preserves (blocks : list (obj -> where_result -> outcome where_result)) :
  Forall (preserves Q) blocks ->
  forall f w w', Q w -> run_blocks blocks f w = Ok w' -> Q w'.
Proof.
  induction 1 as [|b blocks Hb _ IH]; intros f w w' Hw; simpl.
  - intros H; injection H as <-. exact Hw.
  - destruct (b f w) as [w1|e] eqn:Hbw; simpl; [|discriminate].
    intros H. eapply IH; [|exact H]. eapply Hb; eauto.
Qed.

End Blocks.

Section Numbering.
Context {E : Engine}.

Lemma numbered_push0 (c : string) (w : where_result) :
  numbered w -> numbered (push0 (CIsTrue c) w).
Proof.
  intros (Hi & Hc). unfold numbered, push0; simpl. split; [exact Hi|].
  rewrite map_app, concat_app. simpl. now rewrite app_nil_r.
Qed.

Lemma numbered_push1 (k : nat -> cond) (v : value) (w : where_result) :
  (forall p, cond_params (k p) = [p]) -> numbered w -> numbered (push1 k v w).
Proof.
  intros Hk (Hi & Hc). unfold numbered, push1; simpl.
  rewrite length_app. simpl. split; [lia|].
  rewrite map_app, concat_app, Hc. simpl. rewrite Hk, Hi, app_nil_r.
  rewrite seq_app. simpl. reflexivity.
Qed.

Lemma numbered_push2 (c : string) (v1 v2 : value) (w : where_result) :
  numbered w -> numbered (push2 (CBetween c) v1 v2 w).
Proof.
  intros (Hi & Hc). unfold numbered, push2; simpl.
  rewrite length_app. simpl. split; [lia|].
  rewrite map_app, concat_app, Hc. simpl. rewrite Hi.
  rewrite seq_app. simpl. reflexivity.
Qed.

(** X2.  The WHERE clause and its parameter list fit together: the
    predicates mention [$1] to [$n] once each and in this order, [n] being
    the number of values, and [paramIndex] is [n + 1], the first number
    free for LIMIT and OFFSET. *)
Theorem where_clause_numbers_its_parameters
    (t : table) (now : Z) (filters : obj) (w : where_result) :
  buildWhereClause t now filters = Ok w ->
  paramIndex w = S (length (values w)) /\
  concat (map cond_params (conditions w)) = seq 1 (length (values w)).
Proof.
  unfold buildWhereClause. intros H.
  apply (run_blocks_preserves numbered (filter_blocks t now)) with (f := filters)
    (w := mkWhere [] [] 1) (w' := w); auto.
  - apply filter_blocks_preserve.
    + apply numbered_push0.
    + apply numbered_push1.
    + apply numbered_push2.
  - split; reflexivity.
Qed.

End Numbering.

(** The default listing of the work table with a city and a tag list. *)
Lemma where_clause_numbers_witness :
  buildWhereClause (E := Reference.engine) Work 0
    [("city", VStr "Pune"); ("tags", VStr "ai, ml"); ("deadline", VStr "this_week")]
  = Ok (mkWhere [CEq "status" 1; CLikeCI "city" 2; COverlap "tags" 3; CBetween "deadline" 4 5]
          [VStr "active"; VStr "%Pune%"; VArr [VStr "ai"; VStr "ml"]; VDate 0;
           VDate 604800000] 6) /\
  (6 = S 5 /\ [1; 2; 3; 4; 5] = seq 1 5)%nat.
Proof.
  split; [reflexivity|].
  exact (where_clause_numbers_its_parameters (E := Reference.engine) Work 0
           [("city", VStr "Pune"); ("tags", VStr "ai, ml"); ("deadline", VStr "this_week")]
           _ eq_refl).
Defined.

(** ** When the filter compiler throws *)

Section CompilerThrows.
Context {E : Engine}.










End CompilerThrows.

(** ** Filters and sort keys the table has no column for *)

Section MissingColumns.
Context {E : Engine}.

Lemma extends_In (w w' : where_result) (k : cond) :
  extends w w' -> In k (conditions w) -> In k (conditions w').
Proof. intros (ks & vs & -> & _) H. apply in_or_app. now left. Qed.

(** What a block emits stays in the result of the whole run. *)
Lemma run_blocks_emits (K : nat -> cond)
    (b : obj -> where_result -> outcome where_result)
    (blocks : list (obj -> where_result -> outcome where_result)) (f : obj) :
  In b blocks -> Forall appends blocks ->
  (forall w w', b f w = Ok w' -> exists p, In (K p) (conditions w')) ->
  forall w w', run_blocks blocks f w = Ok w' -> exists p, In (K p) (conditions w').
Proof.
  intros Hin Happ Hb. induction Happ as [|b' blocks Hb' Happ IH]; [destruct Hin|].
  intros w w'. simpl. destruct (b' f w) as [w1|e] eqn:Hbw; simpl; [|discriminate].
  intros Hrun. destruct Hin as [->|Hin].
  - destruct (Hb _ _ Hbw) as (p & Hp). exists p.
    eapply extends_In; [|exact Hp]. eapply run_blocks_appends; eauto.
  - eapply IH; eauto.
Qed.

Lemma compile_where_fails (t : table) (vals : list value) (ks : list cond) (k : cond) :
  In k ks -> (exists e, compile_cond t vals k = Throw e) ->
  exists e, compile_where t vals ks = Throw e.
Proof.
  intros Hin (e & He). induction ks as [|k' ks IH]; [destruct Hin|]. simpl.
  destruct Hin as [->|Hin].
  - rewrite He. simpl. eauto.
  - destruct (compile_cond t vals k'); simpl; eauto.
    destruct (IH Hin) as (e' & ->). simpl. eauto.
Qed.

(** The predicate a filter key stands for. *)
Lemma emitted_predicate (t : table) (now : Z) (key : string) (filters : obj)
    (w : where_result) :
  In (t, key) [(Event, "search"); (Event, "work_style"); (Event, "skills");
               (Work, "fees"); (Work, "domain")] ->
  truthy (get key filters) = true ->
  buildWhereClause t now filters = Ok w ->
  exists k, In k (conditions w) /\ forall vals, exists e, compile_cond t vals k = Throw e.
Proof.
  intros Hkey Htruthy Hw. unfold buildWhereClause in Hw.
  pose proof (filter_blocks_append t now) as Happ.
  simpl in Hkey.
  destruct Hkey as [Hk|[Hk|[Hk|[Hk|[Hk|[]]]]]]; injection Hk as <- <-.
  - assert (Hp : exists p, In (CSearch p) (conditions w)).
    { eapply (run_blocks_emits CSearch search_filter); [|exact Happ| |exact Hw].
      - unfold filter_blocks; simpl; tauto.
      - intros w0 w1. unfold search_filter. rewrite Htruthy. intros H; injection H as <-.
        exists (paramIndex w0). simpl. apply in_or_app. right. now left. }
    destruct Hp as (p & Hp).
    exists (CSearch p). split; [exact Hp|]. intros vals. simpl. eauto.
  - assert (Hp : exists p, In (CEq "work_style" p) (conditions w)).
    { eapply (run_blocks_emits (CEq "work_style") (eq_filter "work_style"));
        [|exact Happ| |exact Hw].
      - unfold filter_blocks; simpl; tauto.
      - intros w0 w1. unfold eq_filter. rewrite Htruthy. intros H; injection H as <-.
        exists (paramIndex w0). simpl. apply in_or_app. right. now left. }
    destruct Hp as (p & Hp).
    exists (CEq "work_style" p). split; [exact Hp|]. intros vals. simpl. eauto.
  - assert (Hp : exists p, In (COverlap "skills" p) (conditions w)).
    { eapply (run_blocks_emits (COverlap "skills") (array_filter "skills"));
        [|exact Happ| |exact Hw].
      - unfold filter_blocks; simpl; tauto.
      - intros w0 w1. unfold array_filter. rewrite Htruthy.
        destruct (as_array _ _); simpl; [|discriminate]. intros H; injection H as <-.
        exists (paramIndex w0). simpl. apply in_or_app. right. now left. }
    destruct Hp as (p & Hp).
    exists (COverlap "skills" p). split; [exact Hp|]. intros vals. simpl. eauto.
  - assert (Hp : exists p, In (CEq "fees" p) (conditions w)).
    { eapply (run_blocks_emits (CEq "fees") (eq_filter "fees")); [|exact Happ| |exact Hw].
      - unfold filter_blocks; simpl; tauto.
      - intros w0 w1. unfold eq_filter. rewrite Htruthy. intros H; injection H as <-.
        exists (paramIndex w0). simpl. apply in_or_app. right. now left. }
    destruct Hp as (p & Hp).
    exists (CEq "fees" p). split; [exact Hp|]. intros vals. simpl. eauto.
  - assert (Hp : exists p, In (COverlap "domain" p) (conditions w)).
    { eapply (run_blocks_emits (COverlap "domain") (array_filter "domain"));
        [|exact Happ| |exact Hw].
      - unfold filter_blocks; simpl; tauto.
      - intros w0 w1. unfold array_filter. rewrite Htruthy.
        destruct (as_array _ _); simpl; [|discriminate]. intros H; injection H as <-.
        exists (paramIndex w0). simpl. apply in_or_app. right. now left. }
    destruct Hp as (p & Hp).
    exists (COverlap "domain" p). split; [exact Hp|]. intros vals. simpl. eauto.
Qed.

(** X4.  The two models share one filter compiler, and some of its filters
    name columns only one table has.  A listing of the event table that
    sets [search], [work_style] or [skills], and a listing of the work
    table that sets [fees] or [domain], never returns a page: the listing
    throws, and no row of either table changes. *)
Theorem filter_on_a_missing_column_fails
    (t : table) (key : string) (filters : obj) (page limit : Z) (d : db) :
  In (t, key) [(Event, "search"); (Event, "work_style"); (Event, "skills");
               (Work, "fees"); (Work, "domain")] ->
  truthy (get key filters) = true ->
  exists e d', findAll t filters page limit d = (Throw e, d') /\
               work_rows d' = work_rows d /\ event_rows d' = event_rows d.
Proof.
  intros Hkey Htruthy. unfold findAll, bindM, lift.
  destruct (buildWhereClause t (clock d) filters) as [w|e] eqn:Hw; [|eauto].
  destruct (emitted_predicate _ _ _ _ _ Hkey Htruthy Hw) as (k & Hk & Hfail).
  destruct (compile_where_fails t (values w) (conditions w) k Hk (Hfail _)) as (e & He).
  unfold select_count. rewrite He. eauto.
Qed.

(** X5.  [event_date] is on the list of sort columns of both models, and
    only the event table has the column: a work listing sorted by
    [event_date] never returns a page. *)
Theorem work_listing_sorted_by_event_date_fails
    (filters : obj) (page limit : Z) (d : db) :
  first_if_array (get "sort" filters) = VStr "event_date" ->
  exists e d', findAll Work filters page limit d = (Throw e, d') /\
               work_rows d' = work_rows d /\ event_rows d' = event_rows d.
Proof.
  intros Hsort. unfold findAll, bindM, lift.
  destruct (buildWhereClause Work (clock d) filters) as [w|e] eqn:Hw; [|eauto].
  assert (Hfield : fst (buildOrderClause (get "sort" filters) (get "order" filters))
                   = "event_date").
  { unfold buildOrderClause. cbn [fst].
    destruct (get "sort" filters); try discriminate Hsort; now rewrite Hsort. }
  rewrite Hfield.
  unfold select_count. destruct (compile_where Work (values w) (conditions w)); [|eauto].
  unfold select_page. destruct (compile_where Work _ (conditions w)); [|eauto].
  simpl. eauto.
Qed.

End MissingColumns.

(** The hackathon listing searched for a word. *)
Lemma filter_on_a_missing_column_witness :
  exists e d',
    findAll (E := Reference.engine) Event [("search", VStr "ai")] 1 10 Reference.empty_db
    = (Throw e, d') /\
    work_rows d' = work_rows Reference.empty_db /\
    event_rows d' = event_rows Reference.empty_db.
Proof.
  apply (filter_on_a_missing_column_fails (E := Reference.engine) Event "search").
  - simpl. tauto.
  - reflexivity.
Defined.

(** The internship listing sorted by event date. *)
Lemma work_listing_sorted_by_event_date_witness :
  exists e d',
    findAll (E := Reference.engine) Work [("sort", VStr "event_date")] 1 10
      Reference.empty_db
    = (Throw e, d') /\
    work_rows d' = work_rows Reference.empty_db /\
    event_rows d' = event_rows Reference.empty_db.
Proof.
  apply (work_listing_sorted_by_event_date_fails (E := Reference.engine)).
  reflexivity.
Defined.

(** ** Bulk upserts and the batch report *)

Section Bulk.
Context {E : Engine}.

(** One upsert: one statement, its own table only, and a row tagged with
    what happened to it. *)
Lemma create_shape (t : table) (data : obj) (ty : value) (d d' : db) (res : outcome row) :
  create t data ty d = (res, d') ->
  log d' = log d ++ [StUpsert t] /\
  (forall t', t' <> t -> rows_of t' d' = rows_of t' d) /\
  (forall r, res = Ok r ->
     col r "action" = CText "created" \/ col r "action" = CText "updated").
Proof.
  unfold create, exec_upsert.
  replace (into (upsert_of t)) with t by now destruct t.
  assert (Hother : forall rs t', t' <> t ->
            rows_of t' (with_rows t rs (next_uuid (logged (StUpsert t) d))) = rows_of t' d).
  { intros rs t' Ht'. destruct t, t'; try reflexivity; contradiction. }
  assert (Hsame : forall t', rows_of t' (next_uuid (logged (StUpsert t) d)) = rows_of t' d).
  { intros t'. now destruct t'. }
  destruct (assign_params _ _ _ _) as [proposed|e].
  2:{ intros H; injection H as <- <-. repeat split; auto. discriminate. }
  destruct (check_row t proposed) as [[]|e].
  2:{ intros H; injection H as <- <-. repeat split; auto. discriminate. }
  destruct (find _ _) as [old|].
  - destruct (check_row t (touch _ _)) as [[]|e]; intros H; injection H as <- <-.
    + split; [now rewrite log_with_rows|]. split; [auto|].
      intros r Hr; injection Hr as <-. right. apply col_insert_same.
    + repeat split; auto. discriminate.
  - destruct (unique_ok _ _ _); intros H; injection H as <- <-.
    + split; [now rewrite log_with_rows|]. split; [auto|].
      intros r Hr; injection Hr as <-. left. apply col_insert_same.
    + repeat split; auto. discriminate.
Qed.

Lemma upsert_one_shape (t : table) (opp : obj) (d : db) :
  exists e d', upsert_one t opp d = (Ok e, d') /\ reports t opp e /\
               log d' = log d ++ [StUpsert t] /\
               (forall t', t' <> t -> rows_of t' d' = rows_of t' d).
Proof.
  unfold upsert_one.
  destruct (create t opp (get (typeField t) opp) d) as [[r|e] d'] eqn:Hc;
    destruct (create_shape _ _ _ _ _ _ Hc) as (Hlog & Hrows & Hact);
    eexists; eexists; (split; [reflexivity|]); (split; [|split; assumption]).
  - simpl. split; [reflexivity|]. now apply Hact.
  - simpl. auto.
Qed.

Lemma bulkUpsert_shape (t : table) (opps : list obj) (d : db) :
  exists es d',
    bulkUpsert t opps d = (Ok es, d') /\
    Forall2 (reports t) opps es /\
    log d' = log d ++ repeat (StUpsert t) (length opps) /\
    (forall t', t' <> t -> rows_of t' d' = rows_of t' d).
Proof.
  revert d. induction opps as [|opp opps IH]; intros d.
  - exists [], d. simpl. rewrite app_nil_r. repeat split; auto.
  - destruct (upsert_one_shape t opp d) as (e & d1 & He & Hrep & Hlog1 & Hrows1).
    destruct (IH d1) as (es & d2 & Hes & Hall & Hlog2 & Hrows2).
    exists (e :: es), d2. cbn [bulkUpsert]. unfold bindM at 1. rewrite He.
    unfold bindM at 1. rewrite Hes. unfold ret. split; [reflexivity|].
    split; [now constructor|]. split.
    + rewrite Hlog2, Hlog1. simpl. now rewrite <- app_assoc.
    + intros t' Ht'. now rewrite Hrows2, Hrows1.
Qed.


(** *** Routing the elements of a batch *)

Lemma includes_truthy (l : list string) (v : value) :
  ~ In "" l -> includes l v = true -> truthy v = true.
Proof.
  intros Hl. destruct v as [| | | |s| | |]; simpl; try discriminate.
  intros H. apply mem_string_In in H.
  destruct (String.eqb s "") eqn:Hs; auto.
  apply String.eqb_eq in Hs. subst. contradiction.
Qed.

Lemma route_counts (source item : value) (acc : partitioned) :
  item <> VNull -> item <> VUndef ->
  exists acc', route source acc item = Ok acc' /\
               routed acc' = (routed acc + if routable item then 1 else 0)%nat.
Proof.
  intros Hn Hu. unfold route, routed.
  destruct item as [| |b|n|s|ms|xs|fields]; try contradiction;
    try (exists acc; split; [reflexivity|simpl; lia]).
  cbn [routable]. rewrite !get_set_other by discriminate.
  destruct (includes work_types (get "type" fields)) eqn:Hw.
  - rewrite (includes_truthy work_types) by (auto; simpl; intuition discriminate).
    cbn [negb orb]. eexists. split; [reflexivity|]. simpl. rewrite length_app. simpl. lia.
  - destruct (includes event_types (get "type" fields)) eqn:He.
    + rewrite (includes_truthy event_types) by (auto; simpl; intuition discriminate).
      cbn [negb orb]. eexists. split; [reflexivity|]. simpl. rewrite length_app. simpl. lia.
    + cbn [orb]. destruct (negb _); exists acc; (split; [reflexivity|lia]).
Qed.

Lemma route_all_counts (source : value) (items : list value) (acc : partitioned) :
  Forall (fun item => item <> VNull /\ item <> VUndef) items ->
  exists parts, route_all source acc items = Ok parts /\
                routed parts = (routed acc + length (List.filter routable items))%nat.
Proof.
  intros H. revert acc. induction H as [|item items (Hn & Hu) _ IH]; intros acc.
  - exists acc. simpl. split; [reflexivity|lia].
  - destruct (route_counts source item acc Hn Hu) as (acc1 & Hr & Hc).
    destruct (IH acc1) as (parts & Hp & Hcount).
    exists parts. simpl. rewrite Hr. simpl. split; [exact Hp|].
    rewrite Hcount, Hc. destruct (routable item); simpl; lia.
Qed.

Lemma route_all_null (source : value) (items : list value) (acc : partitioned) :
  In VNull items ->
  route_all source acc items
  = Throw (js_error "Cannot set properties of null (setting 'source')").
Proof.
  revert acc. induction items as [|item items IH]; intros acc Hin; [destruct Hin|].
  simpl. destruct item as [| |b|n|s|ms|xs|fields]; try reflexivity;
    (destruct Hin as [Hin|Hin]; [discriminate Hin|]);
    try (simpl; now apply IH).
  destruct (route source acc (VObj fields)) as [acc'|e] eqn:Hr.
  - simpl. now apply IH.
  - exfalso. unfold route in Hr.
    repeat match type of Hr with
           | context [if ?c then _ else _] => destruct c
           end; discriminate Hr.
Qed.

(** *** Counting the entries *)

Lemma status_of_report (t : table) (opp : obj) (e : bulk_entry) :
  reports t opp e -> In (entry_status e) ["created"; "updated"; "failed"].
Proof.
  destruct e as [id ty tbl st url|url ty tbl msg]; simpl.
  - intros (_ & [->| ->]); tauto.
  - tauto.
Qed.

Lemma tally_adds_up (es : list bulk_entry) :
  Forall (fun e => In (entry_status e) ["created"; "updated"; "failed"]) es ->
  (count_status "created" es + count_status "updated" es + count_status "failed" es
   = length es)%nat.
Proof.
  unfold count_status. induction 1 as [|e es He _ IH]; [reflexivity|].
  cbn [List.filter length].
  destruct He as [He|[He|[He|[]]]]; rewrite <- He; simpl; lia.
Qed.

Lemma reports_statuses (t : table) (opps : list obj) (es : list bulk_entry) :
  Forall2 (reports t) opps es ->
  Forall (fun e => In (entry_status e) ["created"; "updated"; "failed"]) es.
Proof.
  induction 1; constructor; eauto using status_of_report.
Qed.

(** X7.  The summary of a batch accounts for every routed element once:
    for a batch of 1 to 500 elements, none of them [null], the answer is
    200, [total] is the size of the batch, and created + updated + failed
    is the number of elements that carry one of the five known types.
    The other elements are dropped without a trace in the counters. *)
Theorem batch_summary_counts_the_routed_elements
    (req : request) (d : db) (items : list value) :
  get "opportunities" (payload req) = VArr items ->
  (1 <= length items <= 500)%nat ->
  Forall (fun item => item <> VNull /\ item <> VUndef) items ->
  exists summary breakdown results d',
    batchCreate req d
    = (mkResponse 200 (BatchReport (length items) summary breakdown results), d') /\
    (created summary + updated summary + failed summary
     = length (List.filter routable items))%nat.
Proof.
  intros Hitems Hlen Hall. unfold batchCreate, asyncHandler. rewrite Hitems.
  destruct (Nat.eqb (length items) 0) eqn:H0; [apply Nat.eqb_eq in H0; lia|].
  destruct (Nat.ltb 500 (length items)) eqn:H500; [apply Nat.ltb_lt in H500; lia|].
  destruct (route_all_counts (get "source" (payload req)) items (mkPartitioned [] []) Hall)
    as (parts & Hparts & Hcount).
  unfold bindM at 1. unfold lift. rewrite Hparts.
  assert (Hw : exists ws d1,
            (if Nat.ltb 0 (length (workOpps parts))
             then bulkUpsert Work (workOpps parts) else ret []) d = (Ok ws, d1) /\
            length ws = length (workOpps parts) /\
            Forall (fun e => In (entry_status e) ["created"; "updated"; "failed"]) ws).
  { destruct (Nat.ltb 0 (length (workOpps parts))) eqn:Hlt.
    - destruct (bulkUpsert_shape Work (workOpps parts) d) as (ws & d1 & H & Hrep & _).
      exists ws, d1. split; [exact H|]. split.
      + symmetry. exact (Forall2_length _ _ _ Hrep).
      + eapply reports_statuses; eauto.
    - apply Nat.ltb_ge in Hlt. exists [], d. split; [reflexivity|].
      split; [simpl; lia|constructor]. }
  destruct Hw as (ws & d1 & Hws & Hwlen & Hwst).
  unfold bindM at 1. rewrite Hws.
  assert (He : exists es d2,
            (if Nat.ltb 0 (length (eventOpps parts))
             then bulkUpsert Event (eventOpps parts) else ret []) d1 = (Ok es, d2) /\
            length es = length (eventOpps parts) /\
            Forall (fun e => In (entry_status e) ["created"; "updated"; "failed"]) es).
  { destruct (Nat.ltb 0 (length (eventOpps parts))) eqn:Hlt.
    - destruct (bulkUpsert_shape Event (eventOpps parts) d1) as (es & d2 & H & Hrep & _).
      exists es, d2. split; [exact H|]. split.
      + symmetry. exact (Forall2_length _ _ _ Hrep).
      + eapply reports_statuses; eauto.
    - apply Nat.ltb_ge in Hlt. exists [], d1. split; [reflexivity|].
      split; [simpl; lia|constructor]. }
  destruct He as (es & d2 & Hes & Helen & Hest).
  unfold bindM at 1. rewrite Hes. unfold ret.
  eexists. eexists. eexists. eexists. split; [reflexivity|].
  cbn [tally_of created updated failed].
  rewrite tally_adds_up by (apply Forall_app; now split).
  rewrite length_app, Hwlen, Helen. unfold routed in Hcount. simpl in Hcount. lia.
Qed.

(** X8.  One [null] among the elements of a batch fails the whole request:
    the assignment of [source] throws while the elements are being sorted
    into the two lists, before any statement is sent.  The answer is 500
    and the database is as it was. *)
Theorem batch_with_a_null_element_fails
    (req : request) (d : db) (items : list value) :
  get "opportunities" (payload req) = VArr items ->
  (1 <= length items <= 500)%nat ->
  In VNull items ->
  batchCreate req d
  = (mkResponse 500
       (Failure "Internal Server Error" (Some "An unexpected error occurred")), d).
Proof.
  intros Hitems Hlen Hnull. unfold batchCreate, asyncHandler. rewrite Hitems.
  destruct (Nat.eqb (length items) 0) eqn:H0; [apply Nat.eqb_eq in H0; lia|].
  destruct (Nat.ltb 500 (length items)) eqn:H500; [apply Nat.ltb_lt in H500; lia|].
  unfold bindM at 1. unfold lift. rewrite (route_all_null _ _ _ Hnull).
  reflexivity.
Qed.

End Bulk.

(** A job, an object without type and a string: one element is routed. *)
Lemma batch_summary_witness :
  exists summary breakdown results d',
    batchCreate (E := Reference.engine) Cases.mixed_batch Reference.empty_db
    = (mkResponse 200 (BatchReport 3 summary breakdown results), d') /\
    (created summary + updated summary + failed summary = 1)%nat.
Proof.
  apply (batch_summary_counts_the_routed_elements (E := Reference.engine)
           Cases.mixed_batch Reference.empty_db
           [VObj (("type", VStr "job") :: Samples.posting);
            VObj Samples.posting;
            VStr "https://good.example/b"]).
  - reflexivity.
  - simpl. lia.
  - repeat constructor; discriminate.
Defined.

Lemma batch_with_a_null_element_witness :
  batchCreate (E := Reference.engine) Cases.holed_batch Reference.empty_db
  = (mkResponse 500
       (Failure "Internal Server Error" (Some "An unexpected error occurred")),
     Reference.empty_db).
Proof.
  apply (batch_with_a_null_element_fails (E := Reference.engine)
           Cases.holed_batch Reference.empty_db
           [VObj (("type", VStr "job") :: Samples.posting); VNull]).
  - reflexivity.
  - simpl. lia.
  - simpl. tauto.
Defined.

(** ** What an UPDATE did *)

Section Updates.
Context {E : Engine}.

(** A successful UPDATE rewrote every selected row, each passing the
    constraints, and left the others alone. *)
Lemma update_rows_inv (t : table) (now : Z) (hit : row -> bool)
    (f : row -> outcome row) (rs all changed : list row) :
  update_rows t now hit f rs = Ok (all, changed) ->
  (forall r, In r rs -> hit r = true ->
     exists r1, f r = Ok r1 /\ check_row t (touch now r1) = Ok tt) /\
  all = map (fun r => if hit r then touch now (rewritten f r) else r) rs /\
  changed = map (fun r => touch now (rewritten f r)) (List.filter hit rs).
Proof.
  revert all changed. induction rs as [|r rs IH]; intros all changed; simpl.
  - intros H; injection H as <- <-. repeat split. intros r [].
  - destruct (hit r) eqn:Hr.
    + destruct (f r) as [r1|e] eqn:Hf; simpl; [|discriminate].
      destruct (check_row t (touch now r1)) as [[]|e] eqn:Hc; simpl; [|discriminate].
      destruct (update_rows t now hit f rs) as [[all' changed']|e]; simpl; [|discriminate].
      intros H; injection H as <- <-.
      destruct (IH _ _ eq_refl) as (Hall & -> & ->).
      assert (Hrw : rewritten f r = r1) by (unfold rewritten; now rewrite Hf).
      rewrite Hrw. repeat split.
      intros r' [<-|Hin] Hr'; [eauto|auto].
    + destruct (update_rows t now hit f rs) as [[all' changed']|e]; simpl; [|discriminate].
      intros H; injection H as <- <-.
      destruct (IH _ _ eq_refl) as (Hall & -> & ->). repeat split.
      intros r' [<-|Hin] Hr'; [congruence|auto].
Qed.

Lemma fold_insert_other (sets : list (string * cell)) (acc : row) (c : string) :
  ~ In c (map fst sets) ->
  col (fold_left (fun r '(c0, x) => <[c0 := x]> r) sets acc) c = col acc c.
Proof.
  revert acc. induction sets as [|[c0 x] sets IH]; intros acc Hc; simpl; auto.
  rewrite IH by (simpl in Hc; tauto).
  apply col_insert_other. intros ->. apply Hc. now left.
Qed.

Lemma resolve_sets_columns (t : table) (vals : list value) (now : Z)
    (items : list setitem) (sets : list (string * cell)) :
  resolve_sets t vals now items = Ok sets -> map fst sets = map set_column items.
Proof.
  revert sets. induction items as [|[c p|c] items IH]; intros sets; simpl.
  - intros H; now injection H as <-.
  - destruct (need_col t c); simpl; [|discriminate].
    destruct (param vals p); simpl; [|discriminate].
    destruct (bind _ _); simpl; [|discriminate].
    destruct (resolve_sets t vals now items); simpl; [|discriminate].
    intros H; injection H as <-. simpl. f_equal. now apply IH.
  - destruct (need_col t c); simpl; [|discriminate].
    destruct (resolve_sets t vals now items); simpl; [|discriminate].
    intros H; injection H as <-. simpl. f_equal. now apply IH.
Qed.



End Updates.



(** ** Fetching one opportunity *)

Section Fetch.
Context {E : Engine}.

Lemma error_is_no_item (e : error) (r : row) (msg : option string) :
  errorHandler e <> mkResponse 200 (Item r msg).
Proof.
  unfold errorHandler.
  repeat match goal with |- context [if ?c then _ else _] => destruct c end;
    discriminate.
Qed.

Lemma bumped_cols (now : Z) (r : row) (c : string) :
  c <> "view_count" -> c <> "updated_at" ->
  col (touch now (rewritten (bump_row now) r)) c = col r c.
Proof.
  intros Hv Hu. unfold touch, rewritten, bump_row.
  rewrite col_insert_other by congruence.
  destruct (col r "view_count") as [| | |n| |]; try (now rewrite col_insert_other by congruence).
  destruct (n + 1 <=? 2147483647); [|reflexivity].
  now rewrite !col_insert_other by congruence.
Qed.

Lemma bumped_count (now : Z) (r r1 : row) (n : Z) :
  col r "view_count" = CInt n -> bump_row now r = Ok r1 ->
  col (touch now (rewritten (bump_row now) r)) "view_count" = CInt (n + 1).
Proof.
  intros Hn Hb. unfold rewritten. rewrite Hb. unfold bump_row in Hb. rewrite Hn in Hb.
  destruct (n + 1 <=? 2147483647); [|discriminate]. injection Hb as <-.
  unfold touch. rewrite !col_insert_other by discriminate. apply col_insert_same.
Qed.

(** What a successful view-count statement leaves in its table. *)
Lemma incrementViewCount_inv (t : table) (id : string) (x : cell) (d d' : db)
    (res : option row) (r : row) :
  bind TUuid (VStr id) = Ok x ->
  find (holder x) (rows_of t d) = Some r ->
  incrementViewCount t id d = (Ok res, d') ->
  (exists r1, bump_row (clock d) r = Ok r1) /\
  find (holder x) (rows_of t d')
  = Some (touch (clock d) (rewritten (bump_row (clock d)) r)).
Proof.
  intros Hb Hfind. unfold incrementViewCount, bindM, bump_views, run_update.
  rewrite (id_is_ok _ _ _ Hb).
  destruct (update_rows _ _ _ _ _) as [[all changed]|e] eqn:Hrows; [|discriminate].
  unfold ret. intros H; injection H as _ <-.
  apply update_rows_inv in Hrows. destruct Hrows as (Hok & -> & _).
  rewrite rows_of_logged in *. split.
  - destruct (find_some _ _ Hfind) as (Hin & Hhit).
    destruct (Hok r Hin Hhit) as (r1 & Hr1 & _). eauto.
  - rewrite rows_of_with_rows.
    rewrite (find_map_if (holder x)
               (fun r => touch (clock d) (rewritten (bump_row (clock d)) r))).
    + now rewrite Hfind.
    + intros r0. unfold holder. now rewrite bumped_cols by discriminate.
Qed.

(** X10.  The view count that a fetch reports is the one it stores: when
    the row found carries the count [n] and the fetch answers 200, the
    answer says [n + 1] and so does the row in its table afterwards; the
    statement changed nothing else of the row but [updated_at]. *)
Theorem fetch_stores_the_view_count_it_reports
    (req : request) (d d' : db) (x : cell) (t : table) (r row' : row) (n : Z)
    (msg : option string) :
  bind TUuid (VStr (param_id req)) = Ok x ->
  found_in x d r t ->
  col r "view_count" = CInt n ->
  getById req d = (mkResponse 200 (Item row' msg), d') ->
  col row' "view_count" = CInt (n + 1) /\
  exists r', find (holder x) (rows_of t d') = Some r' /\
             col r' "view_count" = CInt (n + 1) /\
             (forall c, c <> "view_count" -> c <> "updated_at" -> col r' c = col r c).
Proof.
  intros Hb Hfound Hn. unfold getById, asyncHandler.
  destruct (isValidUUID (param_id req)); cbn [negb]; [|discriminate].
  unfold bindM at 1.
  assert (Hres : exists d1, resolve (param_id req) d = (Ok (Some (r, t)), d1) /\
                            rows_of t d1 = rows_of t d /\ clock d1 = clock d).
  { destruct t; simpl in Hfound.
    - eexists. split; [now apply (resolve_work _ _ _ _ Hb)|]. split; reflexivity.
    - destruct Hfound as (Hw & He).
      eexists. split; [now apply (resolve_event _ _ _ _ Hb)|]. split; reflexivity. }
  destruct Hres as (d1 & -> & Hrows & Hclock). unfold bindM.
  destruct (incrementViewCount t (param_id req) d1) as [[res|e] d2] eqn:Hinc.
  2:{ intros H; injection H as H _. now apply error_is_no_item in H. }
  unfold ret. intros H; injection H as <- _ <-.
  assert (Hfind : find (holder x) (rows_of t d1) = Some r).
  { rewrite Hrows. destruct t; simpl in Hfound; [exact Hfound|apply Hfound]. }
  destruct (incrementViewCount_inv _ _ _ _ _ _ _ Hb Hfind Hinc) as ((r1 & Hr1) & Hstored).
  rewrite Hclock in *. split.
  - rewrite col_insert_other by discriminate. rewrite col_insert_same.
    unfold viewed. now rewrite Hn.
  - eexists. split; [exact Hstored|]. split.
    + eapply bumped_count; eauto.
    + intros c Hv Hu. now apply bumped_cols.
Qed.

End Fetch.

(** ** Identifiers that are no UUID *)

Lemma hex_run_length (n : nat) (s rest : string) :
  hex_run n s = Some rest -> String.length s = (n + String.length rest)%nat.
Proof.
  revert s. induction n as [|n IH]; intros s; simpl.
  - intros H; now injection H as <-.
  - destruct s as [|c s]; [discriminate|]. destruct (is_hex c); [|discriminate].
    intros H. simpl. now rewrite (IH _ H).
Qed.

Lemma dash_length (o : option string) (rest : string) :
  dash o = Some rest ->
  exists s, o = Some s /\ String.length s = S (String.length rest).
Proof.
  destruct o as [[|c s]|]; try discriminate. simpl.
  destruct c as [[] [] [] [] [] [] [] []]; try discriminate.
  intros H; injection H as <-. eauto.
Qed.

Lemma hex_group_length (n : nat) (o : option string) (rest : string) :
  mbind (hex_run n) o = Some rest ->
  exists s, o = Some s /\ String.length s = (n + String.length rest)%nat.
Proof.
  destruct o as [s|]; [|discriminate]. simpl. intros H.
  exists s. split; [reflexivity|]. now apply hex_run_length.
Qed.

Lemma isValidUUID_length (id : string) :
  isValidUUID id = true -> String.length id = 36%nat.
Proof.
  unfold isValidUUID.
  destruct (mbind (hex_run 12) _) as [[|c rest]|] eqn:H12; try discriminate. intros _.
  apply hex_group_length in H12. destruct H12 as (s1 & H & L1).
  apply dash_length in H. destruct H as (s2 & H & L2).
  apply hex_group_length in H. destruct H as (s3 & H & L3).
  apply dash_length in H. destruct H as (s4 & H & L4).
  apply hex_group_length in H. destruct H as (s5 & H & L5).
  apply dash_length in H. destruct H as (s6 & H & L6).
  apply hex_group_length in H. destruct H as (s7 & H & L7).
  apply dash_length in H. destruct H as (s8 & H & L8).
  apply hex_run_length in H. simpl in *. lia.
Qed.

Section Refusals.
Context {E : Engine}.

(** X11.  An identifier that is not 36 characters long never reaches the
    database: fetch, patch and delete answer 400 at once, without sending
    a statement. *)
Theorem malformed_identifier_is_refused (req : request) (d : db) :
  String.length (param_id req) <> 36%nat ->
  getById req d
  = (mkResponse 400 (Failure "Invalid ID format" (Some "ID must be a valid UUID")), d) /\
  Controllers.update req d = (mkResponse 400 (Failure "Invalid ID format" None), d) /\
  Controllers.delete req d = (mkResponse 400 (Failure "Invalid ID format" None), d).
Proof.
  intros Hlen.
  assert (Hid : isValidUUID (param_id req) = false).
  { destruct (isValidUUID (param_id req)) eqn:H; auto.
    apply isValidUUID_length in H. contradiction. }
  unfold getById, Controllers.update, Controllers.delete, asyncHandler.
  rewrite Hid. repeat split.
Qed.

End Refusals.

(** ** The company of a work opportunity *)

Section Company.
Context {E : Engine}.

(** X12.  A work opportunity posted without [company] is stored with its
    organization as company, on the insert path and on the conflict path
    alike. *)
Theorem company_defaults_to_organization
    (data : obj) (ty : value) (d d' : db) (r : row) :
  truthy (get "company" data) = false ->
  create Work data ty d = (Ok r, d') ->
  col r "company" = col r "organization".
Proof.
  intros Hcompany Hc.
  destruct (create_inv _ _ _ _ _ _ Hc)
    as (proposed & Ha & _ & [(old & _ & _ & -> & _)|(_ & -> & _)]);
    pose proof (assign_params_col _ _ _ _ _ 7%nat _ _ Ha (insert_columns_NoDup Work)
                  eq_refl eq_refl) as (ty1 & Hty1 & Hb1);
    pose proof (assign_params_col _ _ _ _ _ 6%nat _ _ Ha (insert_columns_NoDup Work)
                  eq_refl eq_refl) as (ty2 & Hty2 & Hb2);
    injection Hty1 as <-; injection Hty2 as <-;
    unfold or_else at 2 in Hb1; rewrite Hcompany in Hb1;
    assert (Hsame : col proposed "company" = col proposed "organization") by congruence.
  - rewrite !col_insert_other by discriminate.
    unfold touch, apply_set, col.
    cbn [upsert_of do_update_set work_upsert fold_left].
    repeat (rewrite lookup_insert_ne by discriminate).
    rewrite lookup_insert_eq.
    repeat (rewrite lookup_insert_ne by discriminate).
    rewrite lookup_insert_eq. exact Hsame.
  - now rewrite !col_insert_other by discriminate.
Qed.

End Company.

Lemma fetched_ok :
  getById (E := Reference.engine) Samples.by_first_id Samples.one_job
  = (mkResponse 200 (Item Cases.fetched_row None), snd Cases.fetched).
Proof.
  assert (H : Nat.eqb (status (fst Cases.fetched)) 200
              && match content (fst Cases.fetched) with
                 | Item _ None => true
                 | _ => false
                 end = true) by (vm_compute; reflexivity).
  unfold Cases.fetched_row. unfold Cases.fetched in *.
  set (c := getById _ _) in *. clearbody c.
  destruct c as [[st body] d']. cbn [fst snd status content] in *.
  apply andb_true_iff in H. destruct H as (Hst & Hbody).
  apply Nat.eqb_eq in Hst. subst st.
  destruct body as [| | r [m|] | |]; try discriminate Hbody. reflexivity.
Qed.

(** The stored job, never viewed before, is fetched once. *)
Lemma fetch_view_count_witness :
  col Cases.fetched_row "view_count" = CInt (0 + 1) /\
  exists r', find (holder (CText Samples.first_id)) (rows_of Work (snd Cases.fetched))
             = Some r' /\
             col r' "view_count" = CInt (0 + 1) /\
             (forall c, c <> "view_count" -> c <> "updated_at" ->
                        col r' c = col (List.hd ∅ (work_rows Samples.one_job)) c).
Proof.
  assert (Hn : col (List.hd ∅ (work_rows Samples.one_job)) "view_count" = CInt 0)
    by (vm_compute; reflexivity).
  exact (fetch_stores_the_view_count_it_reports (E := Reference.engine)
           Samples.by_first_id Samples.one_job (snd Cases.fetched)
           (CText Samples.first_id) Work (List.hd ∅ (work_rows Samples.one_job))
           Cases.fetched_row 0 None first_id_binds one_job_row_found Hn fetched_ok).
Defined.

(** The path [/opportunities/stats] names no identifier. *)
Lemma malformed_identifier_witness :
  getById (E := Reference.engine) Cases.for_stats Reference.empty_db
  = (mkResponse 400 (Failure "Invalid ID format" (Some "ID must be a valid UUID")),
     Reference.empty_db) /\
  Controllers.update (E := Reference.engine) Cases.for_stats Reference.empty_db
  = (mkResponse 400 (Failure "Invalid ID format" None), Reference.empty_db) /\
  Controllers.delete (E := Reference.engine) Cases.for_stats Reference.empty_db
  = (mkResponse 400 (Failure "Invalid ID format" None), Reference.empty_db).
Proof.
  apply (malformed_identifier_is_refused (E := Reference.engine)).
  simpl. lia.
Defined.

Lemma acme_created_ok :
  create (E := Reference.engine) Work Cases.from_acme (VStr "job") Reference.empty_db
  = (Ok Cases.acme_row, snd Cases.acme_created).
Proof.
  assert (H : match fst Cases.acme_created with Ok _ => true | Throw _ => false end = true)
    by (vm_compute; reflexivity).
  unfold Cases.acme_row. unfold Cases.acme_created in *.
  set (c := create _ _ _ _) in *. clearbody c.
  destruct c as [[r|e] d']; [reflexivity | discriminate H].
Qed.

(** A job posted by Acme without a company. *)
Lemma company_defaults_witness :
  col Cases.acme_row "organization" = CText "Acme" /\
  col Cases.acme_row "company" = col Cases.acme_row "organization".
Proof.
  split; [vm_compute; reflexivity|].
  apply (company_defaults_to_organization (E := Reference.engine)
           Cases.from_acme (VStr "job") Reference.empty_db (snd Cases.acme_created)).
  - reflexivity.
  - exact acme_created_ok.
Defined.

(** ** Stripping tags *)

Lemma after_gt_shorter (s rest : string) :
  after_gt s = Some rest -> (String.length rest < String.length s)%nat.
Proof.
  induction s as [|c s IH]; simpl; [discriminate|].
  destruct (Ascii.eqb c ">").
  - intros H; injection H as <-. lia.
  - intros H. specialize (IH H). lia.
Qed.

Lemma tag_at_shorter (s rest : string) :
  tag_at s = Some rest -> (String.length rest < String.length s)%nat.
Proof.
  destruct s as [|c0 [|c1 s]]; simpl; try discriminate.
  destruct (Ascii.eqb c0 "<" && negb (Ascii.eqb c1 ">")); [|discriminate].
  intros H. apply after_gt_shorter in H. lia.
Qed.

Lemma after_gt_none (s : string) : after_gt s = None <-> occurs ">" s = false.
Proof.
  induction s as [|c s IH]; simpl; [tauto|].
  destruct (Ascii.eqb c ">"); simpl; [split; discriminate|exact IH].
Qed.

(** Removing matches only drops characters. *)
Lemma remove_matches_occurs (a : ascii) (fuel : nat) (s : string) :
  occurs a s = false -> occurs a (remove_matches tag_at fuel s) = false.
Proof.
  revert s. induction fuel as [|k IH]; intros s Hs; simpl; auto.
  destruct s as [|c s]; auto.
  simpl in Hs. apply orb_false_iff in Hs. destruct Hs as (Hc & Hs).
  destruct (tag_at (String c s)) as [after|] eqn:Ht.
  - apply IH. destruct s as [|c1 s]; simpl in Ht; [discriminate|].
    destruct (Ascii.eqb c "<" && negb (Ascii.eqb c1 ">")); [|discriminate].
    simpl in Hs. apply orb_false_iff in Hs. destruct Hs as (_ & Hs).
    clear - Ht Hs. revert Ht. induction s as [|c2 s IH2]; simpl; [discriminate|].
    simpl in Hs. apply orb_false_iff in Hs. destruct Hs as (_ & Hs).
    destruct (Ascii.eqb c2 ">"); [intros H; now injection H as <-|auto].
  - simpl. rewrite Hc. simpl. now apply IH.
Qed.

(** What the result starts with when no match starts the text. *)
Lemma remove_matches_head (fuel : nat) (c : ascii) (s : string) :
  Ascii.eqb c "<" = false ->
  remove_matches tag_at (S fuel) (String c s) = String c (remove_matches tag_at fuel s).
Proof.
  intros Hc. simpl. destruct s as [|c1 s]; [reflexivity|]. now rewrite Hc.
Qed.

Lemma has_tag_cons (c : ascii) (s : string) :
  tag_at (String c s) = None -> has_tag (String c s) = has_tag s.
Proof. intros H. simpl has_tag. simpl in H. now rewrite H. Qed.

Lemma stripped_has_no_tag (fuel : nat) (s : string) :
  (String.length s <= fuel)%nat -> has_tag (remove_matches tag_at fuel s) = false.
Proof.
  revert s. induction fuel as [|k IH]; intros s Hlen.
  - destruct s; [reflexivity|simpl in Hlen; lia].
  - destruct s as [|c s]; [reflexivity|].
    cbn [remove_matches].
    destruct (tag_at (String c s)) as [after|] eqn:Ht.
    + apply IH. apply tag_at_shorter in Ht. simpl in *. lia.
    + assert (Hrest : has_tag (remove_matches tag_at k s) = false)
        by (apply IH; simpl in Hlen; lia).
      rewrite has_tag_cons; [exact Hrest|].
      (* no tag starts at [c] in the result either *)
      destruct (Ascii.eqb c "<") eqn:Hc; [|simpl; destruct (remove_matches _ _ _);
                                             [reflexivity|now rewrite Hc]].
      destruct s as [|c1 s].
      { destruct k; reflexivity. }
      simpl in Ht. rewrite Hc in Ht. simpl in Ht.
      destruct (Ascii.eqb c1 ">") eqn:Hc1; simpl in Ht.
      * (* "<>": the next character of the result is the same ">" *)
        destruct k as [|k]; [simpl in Hlen; lia|].
        assert (Hne : Ascii.eqb c1 "<" = false).
        { apply Ascii.eqb_eq in Hc1. now subst. }
        rewrite (remove_matches_head _ _ _ Hne). simpl. rewrite Hc, Hc1. reflexivity.
      * (* no ">" follows at all *)
        apply after_gt_none in Ht.
        assert (Hno : occurs ">" (remove_matches tag_at k (String c1 s)) = false).
        { apply remove_matches_occurs. simpl. now rewrite Hc1. }
        destruct (remove_matches tag_at k (String c1 s)) as [|d1 u]; [reflexivity|].
        simpl. simpl in Hno. apply orb_false_iff in Hno. destruct Hno as (Hd1 & Hu).
        rewrite Hc, Hd1. simpl. now apply after_gt_none.
Qed.

(** X13.  Whatever it is given, [sanitizeText] returns a text without
    tags: no [<] of the result is followed by one or more characters other
    than [>] and then a [>]. *)
Theorem sanitized_text_has_no_tag (text : value) : has_tag (sanitizeText text) = false.
Proof.
  unfold sanitizeText. destruct text as [| | | |s| | |]; try reflexivity.
  destruct (String.eqb s ""); [reflexivity|].
  unfold remove_all at 1. now apply stripped_has_no_tag.
Qed.

(** ** The creating handlers *)

Section CreatingHandlers.
Context {E : Engine} {H : Host}.

Lemma creating_handler_unfold (k : kind) :
  creating_handler k
  = creating (kind_table k) (kind_validator k) (kind_type k) (kind_label k).
Proof. now destruct k. Qed.

Lemma error_code_is_not_201 (e : error) : status (errorHandler e) <> 201%nat.
Proof.
  unfold errorHandler.
  repeat match goal with |- context [if ?c then _ else _] => destruct c end;
    discriminate.
Qed.

(** A 201 comes from one place: the payload was judged valid and the
    upsert returned a row. *)
Lemma creating_inv (k : kind) (req : request) (d d' : db) (s : sent) :
  creating_handler k req d = (mkAnswer 201 s, d') ->
  exists r,
    kind_validator k (clock d) (payload req) (VStr (kind_type k))
      = Ok (mkValidation true []) /\
    create (kind_table k) (payload req) (VStr (kind_type k)) d = (Ok r, d') /\
    s = Standard (Item r (Some (kind_label k ++ " " ++ cell_text (col r "action")
                                ++ "d successfully")%string)).
Proof.
  rewrite creating_handler_unfold. unfold creating, guarded.
  destruct (kind_validator k (clock d) (payload req) (VStr (kind_type k)))
    as [[valid errs]|e] eqn:Hv.
  2:{ intros Heq; injection Heq as Hc _. now apply error_code_is_not_201 in Hc. }
  cbn [isValid errors]. destruct valid; cbn [negb]; [|discriminate].
  unfold bindM.
  destruct (create _ _ _ d) as [[r|e] d1] eqn:Hc.
  2:{ intros Heq; injection Heq as Hc' _. now apply error_code_is_not_201 in Hc'. }
  unfold ret. intros Heq; injection Heq as <- <-.
  exists r. split; [|split; reflexivity].
  f_equal. f_equal.
  unfold kind_validator, validateWorkOpportunity, validateEventOpportunity, judged in Hv.
  destruct (kind_table k);
    destruct (run_checks _ _) as [found|e]; try discriminate Hv;
    cbn [obind] in Hv; injection Hv as Hlen <-;
    apply Nat.eqb_eq in Hlen; now destruct found.
Qed.

Lemma run_checks_nil (checks : list (obj -> outcome (list issue))) (data : obj) :
  run_checks checks data = Ok [] -> Forall (fun check => check data = Ok []) checks.
Proof.
  induction checks as [|check checks IH]; simpl; [constructor|].
  destruct (check data) as [found|e] eqn:Hc; simpl; [|discriminate].
  destruct (run_checks checks data) as [more|e] eqn:Hr; simpl; [|discriminate].
  intros Heq; injection Heq as Heq. apply app_eq_nil in Heq. destruct Heq as (-> & ->).
  constructor; [exact Hc|]. now apply IH.
Qed.

Lemma check_title_passed (data : obj) :
  check_title data = Ok [] ->
  exists s, get "title" data = VStr s /\ trim s <> "" /\ (String.length s <= 500)%nat.
Proof.
  unfold check_title. destruct (get "title" data) as [| | | |s| | |]; try discriminate.
  destruct (String.eqb s ""); [discriminate|].
  destruct (Nat.eqb (String.length (trim s)) 0) eqn:Hblank; [discriminate|].
  destruct (Nat.ltb 500 (String.length s)) eqn:Hlong; [discriminate|].
  intros _. exists s. split; [reflexivity|]. split.
  - intros Heq. rewrite Heq in Hblank. discriminate Hblank.
  - apply Nat.ltb_ge in Hlong. exact Hlong.
Qed.

Lemma check_apply_url_passed (data : obj) :
  check_apply_url data = Ok [] -> isValidUrl (get "apply_url" data) = true.
Proof.
  unfold check_apply_url.
  destruct (truthy (get "apply_url" data)); [|discriminate]. cbn [negb].
  destruct (isValidUrl (get "apply_url" data)); [reflexivity|discriminate].
Qed.

Lemma first_checks (k : kind) (now : Z) (data : obj) :
  kind_validator k now data (VStr (kind_type k)) = Ok (mkValidation true []) ->
  check_title data = Ok [] /\ check_apply_url data = Ok [].
Proof.
  unfold kind_validator, validateWorkOpportunity, validateEventOpportunity, judged.
  intros Hv.
  assert (Hall : exists checks,
            run_checks (check_title :: check_apply_url :: checks) data = Ok []).
  { destruct (kind_table k); eexists;
      (destruct (run_checks _ _) as [found|e] eqn:Hr; [|discriminate Hv]);
      cbn [obind] in Hv; injection Hv as Hlen <-; exact Hr. }
  destruct Hall as (checks & Hall). apply run_checks_nil in Hall.
  inversion Hall as [|? ? Ht Hrest]; subst. inversion Hrest; subst. auto.
Qed.

(** X14.  The creating handlers store only what their validator let
    through: when one of them answers 201, the title of the payload is a
    string of at most 500 characters that is not blank, [apply_url] passed
    [isValidUrl], and the row of the answer is the row the upsert
    returned. *)
Theorem created_opportunity_passed_validation
    (k : kind) (req : request) (d d' : db) (s : sent) :
  creating_handler k req d = (mkAnswer 201 s, d') ->
  (exists title, get "title" (payload req) = VStr title /\ trim title <> "" /\
                 (String.length title <= 500)%nat) /\
  isValidUrl (get "apply_url" (payload req)) = true /\
  exists r msg, s = Standard (Item r msg) /\
                create (kind_table k) (payload req) (VStr (kind_type k)) d = (Ok r, d').
Proof.
  intros Hc. destruct (creating_inv _ _ _ _ _ Hc) as (r & Hv & Hcreate & ->).
  destruct (first_checks _ _ _ Hv) as (Ht & Hu).
  split; [now apply check_title_passed|]. split; [now apply check_apply_url_passed|].
  eauto.
Qed.

(** X15.  A creating handler stores its own type, whatever the payload
    says under [type], [work_type] or [event_type]: the row of a 201 answer
    carries the conversion of the handler's type in its type column.  The
    message of the answer spells the action with one [d] too many. *)
Theorem created_opportunity_has_the_type_of_its_endpoint
    (k : kind) (req : request) (d d' : db) (r : row) (msg : option string) :
  creating_handler k req d = (mkAnswer 201 (Standard (Item r msg)), d') ->
  bind (TVarchar 20) (VStr (kind_type k)) = Ok (col r (typeField (kind_table k))) /\
  (msg = Some (kind_label k ++ " createdd successfully")%string \/
   msg = Some (kind_label k ++ " updatedd successfully")%string).
Proof.
  intros Hc. destruct (creating_inv _ _ _ _ _ Hc) as (r0 & _ & Hcreate & Hs).
  injection Hs as <- ->.
  destruct (create_inv _ _ _ _ _ _ Hcreate) as (proposed & Ha & _ & Hpath).
  split.
  - rewrite (returned_key _ _ _ _ _ _ _ Hcreate Ha) by (simpl; tauto).
    destruct (proposed_key _ _ _ _ _ Ha) as ((ty1 & Hty & Hb) & _).
    replace ty1 with (TVarchar 20) in Hb; [exact Hb|].
    destruct k; simpl in Hty; now injection Hty.
  - destruct Hpath as [(old & _ & _ & -> & _)|(_ & -> & _)];
      rewrite col_insert_same; simpl; auto.
Qed.

(** The checks that come before the first [toLowerCase] never throw. *)
Lemma check_length_total (key : string) (n : Z) (msg : string) (data : obj) :
  exists found, check_length key n msg data = Ok found.
Proof. unfold check_length. destruct (_ && _); eauto. Qed.

Lemma check_title_total (data : obj) : exists found, check_title data = Ok found.
Proof.
  unfold check_title. destruct (get "title" data) as [| | | |s| | |]; eauto.
  repeat match goal with |- context [if ?c then _ else _] => destruct c end; eauto.
Qed.

Lemma check_apply_url_total (data : obj) : exists found, check_apply_url data = Ok found.
Proof.
  unfold check_apply_url.
  repeat match goal with |- context [if ?c then _ else _] => destruct c end; eauto.
Qed.

Lemma check_image_url_total (data : obj) : exists found, check_image_url data = Ok found.
Proof. unfold check_image_url. destruct (_ && _); eauto. Qed.

Lemma check_choice_throws (key : string) (allowed : list string) (msg : string)
    (data : obj) :
  truthy (get key data) = true -> is_string (get key data) = false ->
  check_choice key allowed msg data
  = Throw (js_error ("data." ++ key ++ ".toLowerCase is not a function")).
Proof.
  intros Ht Hs. unfold check_choice. rewrite Ht.
  destruct (get key data); try reflexivity. discriminate Hs.
Qed.

(** X16.  A [work_style] (for internships and jobs) or [fees] (for
    hackathons, scholarships and learning programs) that is set and is not
    a string makes the validator throw instead of reporting an error: the
    handler answers 500, not 400, and sends no statement. *)
Theorem choice_of_another_type_crashes_validation (k : kind) (req : request) (d : db) :
  truthy (get (first_choice (kind_table k)) (payload req)) = true ->
  is_string (get (first_choice (kind_table k)) (payload req)) = false ->
  creating_handler k req d
  = (mkAnswer 500
       (Standard (Failure "Internal Server Error" (Some "An unexpected error occurred"))),
     d).
Proof.
  intros Ht Hs. rewrite creating_handler_unfold. unfold creating, guarded.
  assert (Hv : exists key, In key ["work_style"; "fees"] /\
            kind_validator k (clock d) (payload req) (VStr (kind_type k))
            = Throw (js_error ("data." ++ key ++ ".toLowerCase is not a function"))).
  { unfold kind_validator, validateWorkOpportunity, validateEventOpportunity, judged.
    destruct (kind_table k); cbn [first_choice] in Ht, Hs.
    - exists "work_style". split; [simpl; tauto|].
      unfold work_checks. cbn [run_checks].
      destruct (check_title_total (payload req)) as (f1 & ->). cbn [obind].
      destruct (check_apply_url_total (payload req)) as (f2 & ->). cbn [obind].
      destruct (check_length_total "city" 100 "City must be less than 100 characters"
                  (payload req)) as (f3 & ->). cbn [obind].
      destruct (check_length_total "country" 100 "Country must be less than 100 characters"
                  (payload req)) as (f4 & ->). cbn [obind].
      now rewrite (check_choice_throws _ _ _ _ Ht Hs).
    - exists "fees". split; [simpl; tauto|].
      unfold event_checks. cbn [run_checks].
      destruct (check_title_total (payload req)) as (f1 & ->). cbn [obind].
      destruct (check_apply_url_total (payload req)) as (f2 & ->). cbn [obind].
      destruct (check_length_total "city" 100 "City must be less than 100 characters"
                  (payload req)) as (f3 & ->). cbn [obind].
      destruct (check_length_total "country" 100 "Country must be less than 100 characters"
                  (payload req)) as (f4 & ->). cbn [obind].
      destruct (check_image_url_total (payload req)) as (f5 & ->). cbn [obind].
      now rewrite (check_choice_throws _ _ _ _ Ht Hs). }
  destruct Hv as (key & Hkey & ->).
  destruct Hkey as [<-|[<-|[]]]; reflexivity.
Qed.

End CreatingHandlers.

Lemma job_posted_ok :
  createJob (E := Reference.engine) (H := Plain.host) Cases.mislabelled Reference.empty_db
  = (mkAnswer 201
       (Standard (Item Cases.job_posted_row (Some "Job createdd successfully"))),
     snd Cases.job_posted).
Proof.
  assert (Hok : Nat.eqb (code (fst Cases.job_posted)) 201
                && match carried (fst Cases.job_posted) with
                   | Standard (Item _ (Some m)) => String.eqb m "Job createdd successfully"
                   | _ => false
                   end = true) by (vm_compute; reflexivity).
  unfold Cases.job_posted_row. unfold Cases.job_posted in *.
  set (c := createJob _ _) in *. clearbody c.
  destruct c as [[st sent] d']. cbn [fst snd code carried] in *.
  apply andb_true_iff in Hok. destruct Hok as (Hst & Hbody).
  apply Nat.eqb_eq in Hst. subst st.
  destruct sent as [[| | r [m|] | |]| |]; try discriminate Hbody.
  apply String.eqb_eq in Hbody. now subst m.
Qed.

(** A job is posted through [POST /jobs]. *)
Lemma created_opportunity_witness :
  (exists title, get "title" (payload Cases.mislabelled) = VStr title /\
                 trim title <> "" /\ (String.length title <= 500)%nat) /\
  isValidUrl (E := Reference.engine) (H := Plain.host)
    (get "apply_url" (payload Cases.mislabelled)) = true /\
  exists r msg,
    Standard (Item Cases.job_posted_row (Some "Job createdd successfully"))
    = Standard (Item r msg) /\
    create (E := Reference.engine) Work (payload Cases.mislabelled) (VStr "job")
      Reference.empty_db
    = (Ok r, snd Cases.job_posted).
Proof.
  exact (created_opportunity_passed_validation (E := Reference.engine) (H := Plain.host)
           Job Cases.mislabelled Reference.empty_db (snd Cases.job_posted) _
           job_posted_ok).
Defined.

(** The payload says internship and hackathon; the row is a job. *)
Lemma created_type_witness :
  get "work_type" (payload Cases.mislabelled) = VStr "internship" /\
  get "type" (payload Cases.mislabelled) = VStr "hackathon" /\
  col Cases.job_posted_row "work_type" = CText "job".
Proof.
  split; [reflexivity|]. split; [reflexivity|].
  destruct (created_opportunity_has_the_type_of_its_endpoint
              (E := Reference.engine) (H := Plain.host)
              Job Cases.mislabelled Reference.empty_db (snd Cases.job_posted)
              Cases.job_posted_row (Some "Job createdd successfully") job_posted_ok)
    as (Hty & _).
  assert (Hb : Ok (CText "job") = Ok (col Cases.job_posted_row "work_type"))
    by exact Hty.
  exact (f_equal (fun o => match o with Ok x => x | Throw _ => CNull end) (eq_sym Hb)).
Defined.

(** [work_style: 5] on [POST /internships]. *)
Lemma choice_of_another_type_witness :
  createInternship (E := Reference.engine) (H := Plain.host)
    Cases.numbered_style Reference.empty_db
  = (mkAnswer 500
       (Standard (Failure "Internal Server Error" (Some "An unexpected error occurred"))),
     Reference.empty_db).
Proof.
  apply (choice_of_another_type_crashes_validation (E := Reference.engine)
           (H := Plain.host) Internship Cases.numbered_style Reference.empty_db);
    reflexivity.
Defined.

(** ** The featured lists *)

Lemma insert_sorted_In (le : row -> row -> bool) (x r : row) (l : list row) :
  In r (insert_sorted le x l) <-> r = x \/ In r l.
Proof.
  induction l as [|y l IH]; simpl.
  - intuition.
  - destruct (le x y); simpl; [intuition|]. rewrite IH. intuition.
Qed.

Lemma sort_rows_In (le : row -> row -> bool) (r : row) (l : list row) :
  In r (sort_rows le l) <-> In r l.
Proof.
  unfold sort_rows. induction l as [|y l IH]; simpl; [tauto|].
  rewrite insert_sorted_In, IH. intuition.
Qed.

Lemma firstn_subset (n : nat) (l : list row) (r : row) : In r (firstn n l) -> In r l.
Proof.
  revert l. induction n as [|n IH]; intros l; simpl; [tauto|].
  destruct l as [|y l]; simpl; [tauto|]. intros [->|Hin]; auto.
Qed.

Section Featured.
Context {E : Engine}.

Lemma select_top_inv (t : table) (ks : list clause) (c : string) (desc : bool)
    (lp : nat) (vals : list value) (d d' : db) (rows : list row) :
  select_top t ks c desc lp vals d = (Ok rows, d') ->
  exists f lim,
    compile_clauses t vals ks = Ok f /\
    obind (param vals lp) (row_count "LIMIT") = Ok lim /\
    rows = firstn lim (sort_rows (order_leb c desc) (List.filter f (rows_of t d))) /\
    d' = logged (StSelectPage t) d.
Proof.
  unfold select_top.
  destruct (compile_clauses t vals ks) as [f|e]; [|discriminate].
  destruct (need_col t c); [|discriminate].
  destruct (obind _ _) as [lim|e]; [|discriminate].
  intros H; injection H as <- <-. exists f, lim. rewrite rows_of_logged. auto.
Qed.

Lemma error_code_is_not_200 (e : error) : status (errorHandler e) <> 200%nat.
Proof.
  unfold errorHandler.
  repeat match goal with |- context [if ?c then _ else _] => destruct c end;
    discriminate.
Qed.

(** X17.  What a featured list shows: at most as many rows as the limit
    says (4 when the query has no usable limit), each of them a stored row
    of the handler's type that is active and featured, [count] being their
    number.  The request changes no row. *)
Theorem featured_list_holds_featured_rows
    (t : table) (ty : string) (req : request) (d d' : db)
    (data : list row) (count : nat) (note : option (string * string)) :
  (forall n, bind TInteger (VNum n) = Ok (CInt n)) ->
  featuring t ty req d = (mkAnswer 200 (Listed data count note), d') ->
  count = length data /\
  Z.of_nat (length data) <= parseInt_or (get "limit" (query req)) 4 /\
  (exists x, bind (TVarchar 20) (VStr ty) = Ok x /\
     Forall (fun r => In r (rows_of t d) /\
                      col r (typeField t) = x /\
                      col r "status" = CText "active" /\
                      col r "is_featured" = CBool true) data) /\
  work_rows d' = work_rows d /\ event_rows d' = event_rows d.
Proof.
  intros Hint. unfold featuring, guarded, bindM.
  destruct (getFeatured t (VStr ty) _ d) as [[rows|e] d1] eqn:Hq.
  2:{ intros H; injection H as Hc _. now apply error_code_is_not_200 in Hc. }
  unfold ret. intros H; injection H as <- <- _ <-.
  unfold getFeatured in Hq. apply select_top_inv in Hq.
  destruct Hq as (f & lim & Hf & Hlim & -> & ->).
  split; [reflexivity|]. split; [|split; [|split; reflexivity]].
  - cbn [or_default param nth_error obind] in Hlim. unfold row_count in Hlim.
    rewrite Hint in Hlim. cbn [obind] in Hlim.
    destruct (parseInt_or (get "limit" (query req)) 4 <? 0) eqn:Hneg; [discriminate|].
    injection Hlim as <-. apply Z.ltb_ge in Hneg.
    pose proof (firstn_le_length (Z.to_nat (parseInt_or (get "limit" (query req)) 4))
                  (sort_rows (order_leb "posted_date" true)
                     (List.filter f (rows_of t d)))) as Hle.
    lia.
  - cbn [compile_clauses compile_clause compile_cond] in Hf.
    replace (need_col t (typeField t)) with (Ok (A := coltype) (TVarchar 20)) in Hf
      by now destruct t.
    cbn [obind param nth_error] in Hf.
    destruct (bind (TVarchar 20) (VStr ty)) as [x|e] eqn:Hb; [|discriminate].
    replace (need_col t "status") with (Ok (A := coltype) (TVarchar 20)) in Hf
      by now destruct t.
    replace (need_col t "is_featured") with (Ok (A := coltype) TBoolean) in Hf
      by now destruct t.
    cbn [obind] in Hf. injection Hf as <-.
    exists x. split; [reflexivity|].
    apply List.Forall_forall. intros r Hr.
    apply firstn_subset, sort_rows_In, filter_In in Hr. destruct Hr as (Hin & Hkeep).
    apply andb_true_iff in Hkeep. destruct Hkeep as (Hty & Hkeep).
    apply andb_true_iff in Hkeep. destruct Hkeep as (Hst & Hkeep).
    apply andb_true_iff in Hkeep. destruct Hkeep as (Hfe & _).
    repeat split; auto.
    + now apply sql_eq_eq in Hty.
    + now apply sql_eq_eq in Hst.
    + destruct (col r "is_featured") as [| |[|]| | |]; try discriminate; reflexivity.
Qed.

(** X18.  The featured lists pass a negative limit on to the statement,
    which the database refuses: the answer is 500.  (The paged lists clamp
    their limit to 1..50; these do not.) *)
Theorem featured_list_with_negative_limit_fails
    (t : table) (ty : string) (req : request) (d : db) (n : Z) (x : cell) :
  parseInt (get "limit" (query req)) = Some n -> n < 0 ->
  bind TInteger (VNum n) = Ok (CInt n) ->
  bind (TVarchar 20) (VStr ty) = Ok x ->
  featuring t ty req d
  = (mkAnswer 500
       (Standard (Failure "Internal Server Error" (Some "An unexpected error occurred"))),
     logged (StSelectPage t) d).
Proof.
  intros Hp Hn Hint Hty. unfold featuring, guarded, bindM.
  assert (Hlimit : parseInt_or (get "limit" (query req)) 4 = n).
  { unfold parseInt_or. rewrite Hp. destruct (n =? 0) eqn:H0; auto.
    apply Z.eqb_eq in H0. lia. }
  rewrite Hlimit. unfold getFeatured, select_top.
  cbn [compile_clauses compile_clause compile_cond].
  replace (need_col t (typeField t)) with (Ok (A := coltype) (TVarchar 20))
    by now destruct t.
  cbn [obind param nth_error]. rewrite Hty.
  replace (need_col t "status") with (Ok (A := coltype) (TVarchar 20)) by now destruct t.
  replace (need_col t "is_featured") with (Ok (A := coltype) TBoolean) by now destruct t.
  replace (need_col t "posted_date") with (Ok (A := coltype) TTimestamptz)
    by now destruct t.
  cbn [obind or_default]. unfold row_count. rewrite Hint. cbn [obind].
  destruct (n <? 0) eqn:Hneg; [reflexivity|]. apply Z.ltb_ge in Hneg. lia.
Qed.

End Featured.

Lemma featured_shown_ok :
  featuring (E := Reference.engine) Work "internship" Samples.bare Cases.one_featured
  = (mkAnswer 200 (Listed Cases.featured_rows 1 None), snd Cases.featured_shown).
Proof.
  assert (Hok : Nat.eqb (code (fst Cases.featured_shown)) 200
                && match carried (fst Cases.featured_shown) with
                   | Listed _ 1 None => true
                   | _ => false
                   end = true) by (vm_compute; reflexivity).
  unfold Cases.featured_rows. unfold Cases.featured_shown in *.
  change (getFeaturedInternships Samples.bare Cases.one_featured)
    with (featuring (E := Reference.engine) Work "internship" Samples.bare
            Cases.one_featured) in *.
  set (c := featuring _ _ _ _) in *. clearbody c.
  destruct c as [[st sent] d']. cbn [fst snd code carried] in *.
  apply andb_true_iff in Hok. destruct Hok as (Hst & Hbody).
  apply Nat.eqb_eq in Hst. subst st.
  destruct sent as [| |data [|[|n]] [note|]]; try discriminate Hbody. reflexivity.
Qed.

(** One featured internship is stored; the list shows it. *)
Lemma featured_list_witness :
  1%nat = length Cases.featured_rows /\
  Z.of_nat (length Cases.featured_rows)
  <= parseInt_or (E := Reference.engine) (get "limit" (query Samples.bare)) 4 /\
  (exists x, bind (Engine := Reference.engine) (TVarchar 20) (VStr "internship") = Ok x /\
     Forall (fun r => In r (rows_of Work Cases.one_featured) /\
                      col r (typeField Work) = x /\
                      col r "status" = CText "active" /\
                      col r "is_featured" = CBool true) Cases.featured_rows) /\
  work_rows (snd Cases.featured_shown) = work_rows Cases.one_featured /\
  event_rows (snd Cases.featured_shown) = event_rows Cases.one_featured.
Proof.
  apply (featured_list_holds_featured_rows (E := Reference.engine)
           Work "internship" Samples.bare Cases.one_featured (snd Cases.featured_shown)
           Cases.featured_rows 1 None).
  - intros n. reflexivity.
  - exact featured_shown_ok.
Defined.

Lemma featured_negative_limit_witness :
  getFeaturedInternships (E := Reference.engine) Cases.minus_one Cases.one_featured
  = (mkAnswer 500
       (Standard (Failure "Internal Server Error" (Some "An unexpected error occurred"))),
     logged (StSelectPage Work) Cases.one_featured).
Proof.
  apply (featured_list_with_negative_limit_fails (E := Reference.engine)
           Work "internship" Cases.minus_one Cases.one_featured (-1)
           (CText "internship")).
  - reflexivity.
  - lia.
  - reflexivity.
  - reflexivity.
Defined.

Import Routes.

(** ** Which handler a request reaches *)

Lemma first_match_app (l1 l2 : list route) (m : verb) (p : string) :
  first_match (l1 ++ l2) m p
  = match first_match l1 m p with
    | Some found => Some found
    | None => first_match l2 m p
    end.
Proof.
  induction l1 as [|r l1 IH]; simpl; auto.
  destruct (handles m r); auto. destruct (match_pieces (path r) p []); auto.
Qed.

Lemma first_match_target (l : list route) (m : verb) (p : string)
    (e : endpoint) (ps : list (string * string)) :
  first_match l m p = Some (e, ps) -> In e (map target l).
Proof.
  induction l as [|r l IH]; simpl; [discriminate|].
  destruct (handles m r); auto.
  destruct (match_pieces (path r) p []); auto.
  intros H; injection H as <- _. now left.
Qed.

Lemma lower_slash (c : ascii) : lower_ascii c = "/"%char -> c = "/"%char.
Proof.
  destruct c as [[] [] [] [] [] [] [] []]; vm_compute; intros H;
    try reflexivity; discriminate H.
Qed.

Lemma skip_ci_cons (a : ascii) (p : string) (c : ascii) (s : string) :
  skip_ci (String a p) (String c s)
  = if Ascii.eqb (lower_ascii c) a then skip_ci p s else None.
Proof. reflexivity. Qed.

(** Fixed text without [/], found at the head of a path and followed by
    the end of the path, is one segment of it. *)
Lemma fixed_text_is_a_segment (text s after : string) :
  occurs "/" text = false ->
  skip_ci text s = Some after -> after = "" \/ after = "/" ->
  exists v, segment s = (v, after) /\ String.length v = String.length text.
Proof.
  intros Htext. revert s. induction text as [|a text IH]; intros s; simpl.
  - intros H Hafter; injection H as ->. exists "".
    destruct Hafter as [-> | ->]; auto.
  - simpl in Htext. apply orb_false_iff in Htext. destruct Htext as (Ha & Htext).
    destruct s as [|c s]; [discriminate|].
    destruct (Ascii.eqb (lower_ascii c) a) eqn:Hc; [|discriminate].
    apply Ascii.eqb_eq in Hc. intros Hs Hafter.
    destruct (IH Htext s Hs Hafter) as (v & Hv & Hlen).
    exists (String c v). simpl. rewrite Hv.
    destruct (Ascii.eqb c "/") eqn:Hslash.
    + apply Ascii.eqb_eq in Hslash. subst c. simpl in Hc. subst a. discriminate Ha.
    + split; [reflexivity|]. simpl. now rewrite Hlen.
Qed.

(** Every path that the route of the statistics matches is matched by the
    route of [:id], registered before it. *)
Lemma stats_path_is_an_id_path (p : string) (ps : list (string * string)) :
  match_pieces [Fixed "opportunities"; Fixed "stats"] p [] = Some ps ->
  match_pieces [Fixed "opportunities"; Named "id"] p [] <> None.
Proof.
  cbn [match_pieces].
  destruct (skip_ci (String "/" "opportunities") p) as [after|]; [|discriminate].
  destruct after as [|c after]; [discriminate|].
  rewrite skip_ci_cons.
  destruct (Ascii.eqb (lower_ascii c) "/") eqn:Hc; [|discriminate].
  apply Ascii.eqb_eq, lower_slash in Hc. subst c.
  destruct (skip_ci "stats" after) as [rest|] eqn:Hs; [|discriminate].
  destruct (String.eqb rest "" || String.eqb rest "/") eqn:Hend; [|discriminate].
  intros _.
  assert (Hrest : rest = "" \/ rest = "/").
  { apply orb_true_iff in Hend. destruct Hend as [H|H]; apply String.eqb_eq in H; auto. }
  destruct (fixed_text_is_a_segment "stats" after rest eq_refl Hs Hrest) as (v & Hv & Hlen).
  change (Ascii.eqb "/" "/") with true. cbn iota. rewrite Hv.
  destruct v as [|c v]; [simpl in Hlen; discriminate Hlen|].
  cbn [String.eqb]. rewrite Hend. discriminate.
Qed.

(** X19.  No request reaches the handler of the statistics.  Its route,
    [GET /opportunities/stats], is registered after [GET
    /opportunities/:id], which matches every path it matches: such a request
    goes to the fetch by identifier, with [stats] as the identifier.  Every
    other handler is reached by some request. *)
Theorem statistics_route_is_shadowed :
  (forall m p, fst (dispatch m p) <> GetStats) /\
  dispatch GET "/opportunities/stats" = (GetById, [("id", "stats")]) /\
  (forall e, e <> GetStats -> exists m p, fst (dispatch m p) = e).
Proof.
  split; [|split].
  - intros m p. unfold dispatch.
    destruct (first_match api m p) as [[e ps]|] eqn:Hfound; [|discriminate].
    cbn [fst]. intros ->.
    change api with
      (([ mkRoute GET [Fixed "health"] Health; mkRoute GET [] Root ]
        ++ workRoutes ++ eventRoutes)
       ++ [mkRoute GET [Fixed "opportunities"; Named "id"] GetById]
       ++ [ mkRoute PATCH [Fixed "opportunities"; Named "id"] Update;
            mkRoute DELETE [Fixed "opportunities"; Named "id"] Delete ]
       ++ [mkRoute GET [Fixed "opportunities"; Fixed "stats"] GetStats]
       ++ batchRoutes) in Hfound.
    rewrite first_match_app in Hfound.
    destruct (first_match _ m p) as [[e1 ps1]|] eqn:H1 in Hfound.
    { injection Hfound as -> _. apply first_match_target in H1.
      simpl in H1. intuition discriminate. }
    rewrite first_match_app in Hfound. cbn [first_match path target] in Hfound.
    destruct (handles m (mkRoute GET [Fixed "opportunities"; Named "id"] GetById))
      eqn:Hget.
    + destruct (match_pieces [Fixed "opportunities"; Named "id"] p []) eqn:Hid;
        [discriminate Hfound|].
      rewrite first_match_app in Hfound.
      destruct (first_match _ m p) as [[e2 ps2]|] eqn:H2 in Hfound.
      { injection Hfound as -> _. apply first_match_target in H2.
        simpl in H2. intuition discriminate. }
      rewrite first_match_app in Hfound. cbn [first_match path target] in Hfound.
      change (handles m (mkRoute GET [Fixed "opportunities"; Fixed "stats"] GetStats))
        with (handles m (mkRoute GET [Fixed "opportunities"; Named "id"] GetById))
        in Hfound.
      rewrite Hget in Hfound.
      destruct (match_pieces [Fixed "opportunities"; Fixed "stats"] p []) eqn:Hstats.
      * now apply stats_path_is_an_id_path in Hstats.
      * apply first_match_target in Hfound. simpl in Hfound. intuition discriminate.
    + rewrite first_match_app in Hfound.
      destruct (first_match _ m p) as [[e2 ps2]|] eqn:H2 in Hfound.
      { injection Hfound as -> _. apply first_match_target in H2.
        simpl in H2. intuition discriminate. }
      rewrite first_match_app in Hfound. cbn [first_match path target] in Hfound.
      change (handles m (mkRoute GET [Fixed "opportunities"; Fixed "stats"] GetStats))
        with (handles m (mkRoute GET [Fixed "opportunities"; Named "id"] GetById))
        in Hfound.
      rewrite Hget in Hfound.
      apply first_match_target in Hfound. simpl in Hfound. intuition discriminate.
  - reflexivity.
  - intros e He. destruct e; try contradiction.
    + exists GET, "/health"; reflexivity.
    + exists GET, "/"; reflexivity.
    + exists POST, "/internships"; reflexivity.
    + exists GET, "/internships"; reflexivity.
    + exists GET, "/internships/featured"; reflexivity.
    + exists POST, "/jobs"; reflexivity.
    + exists GET, "/jobs"; reflexivity.
    + exists GET, "/jobs/featured"; reflexivity.
    + exists GET, "/work/organization/acme"; reflexivity.
    + exists GET, "/work/expiring"; reflexivity.
    + exists POST, "/hackathons"; reflexivity.
    + exists GET, "/hackathons"; reflexivity.
    + exists GET, "/hackathons/featured"; reflexivity.
    + exists POST, "/scholarships"; reflexivity.
    + exists GET, "/scholarships"; reflexivity.
    + exists POST, "/learning"; reflexivity.
    + exists GET, "/learning"; reflexivity.
    + exists GET, "/learning/featured"; reflexivity.
    + exists GET, "/events/upcoming"; reflexivity.
    + exists GET, "/events/free"; reflexivity.
    + exists GET, "/opportunities/1"; reflexivity.
    + exists PATCH, "/opportunities/1"; reflexivity.
    + exists DELETE, "/opportunities/1"; reflexivity.
    + exists POST, "/opportunities/batch"; reflexivity.
    + exists OTHER, "/"; reflexivity.
Qed.

(** ** A status the table does not allow *)

Section ForbiddenStatus.
Context {E : Engine}.

Lemma fold_insert_in (sets : list (string * cell)) (acc : row) (c : string) (x : cell) :
  List.NoDup (map fst sets) -> In (c, x) sets ->
  col (fold_left (fun r '(c0, y) => <[c0 := y]> r) sets acc) c = x.
Proof.
  revert acc. induction sets as [|[c0 y] sets IH]; intros acc Hnd Hin; [destruct Hin|].
  simpl in *. inversion Hnd as [|? ? Hnotin Hnd']; subst.
  destruct Hin as [Heq|Hin].
  - injection Heq as -> ->. rewrite fold_insert_other by exact Hnotin.
    apply col_insert_same.
  - now apply IH.
Qed.

Lemma resolve_sets_in (t : table) (vals : list value) (now : Z)
    (items : list setitem) (sets : list (string * cell)) (c : string) (p : nat) :
  resolve_sets t vals now items = Ok sets -> In (SetParam c p) items ->
  exists ty v x, col_type t c = Some ty /\ param vals p = Ok v /\ bind ty v = Ok x /\
                 In (c, x) sets.
Proof.
  revert sets. induction items as [|[c0 p0|c0] items IH]; intros sets; simpl;
    [intros _ []| |].
  - unfold need_col. destruct (col_type t c0) as [ty|] eqn:Hty; simpl; [|discriminate].
    destruct (param vals p0) as [v|] eqn:Hv; simpl; [|discriminate].
    destruct (bind ty v) as [x|] eqn:Hx; simpl; [|discriminate].
    destruct (resolve_sets t vals now items) as [more|]; simpl; [|discriminate].
    intros H; injection H as <-. intros [Heq|Hin].
    + injection Heq as -> ->. exists ty, v, x. repeat split; auto. now left.
    + destruct (IH _ eq_refl Hin) as (ty' & v' & x' & H1 & H2 & H3 & H4).
      exists ty', v', x'. repeat split; auto. now right.
  - destruct (need_col t c0); simpl; [|discriminate].
    destruct (resolve_sets t vals now items) as [more|]; simpl; [|discriminate].
    intros H; injection H as <-. intros [Heq|Hin]; [discriminate Heq|].
    destruct (IH _ eq_refl Hin) as (ty' & v' & x' & H1 & H2 & H3 & H4).
    exists ty', v', x'. repeat split; auto. now right.
Qed.

(** Every allowed field of the patch that is not [undefined] is in the SET
    list, bound to its value. *)
Lemma collect_fields_has (updates : obj) (c : string) (more : list value) :
  In c allowedFields -> In c (keys updates) -> get c updates <> VUndef ->
  exists p, In (SetParam c p) (setClause (collect_fields updates)) /\
            param (setValues (collect_fields updates) ++ more) p = Ok (get c updates).
Proof.
  intros Hallowed Hkey Hdef. unfold collect_fields.
  assert (Hstep : forall ks st,
            setIndex st = S (length (setValues st)) ->
            let st' := fold_left (collect_field updates) ks st in
            setIndex st' = S (length (setValues st')) /\
            (forall p, In (SetParam c p) (setClause st) ->
                       param (setValues st) p = Ok (get c updates) ->
                       In (SetParam c p) (setClause st') /\
                       param (setValues st') p = Ok (get c updates)) /\
            (In c ks ->
             exists p, In (SetParam c p) (setClause st') /\
                       param (setValues st') p = Ok (get c updates))).
  { induction ks as [|k ks IH]; intros st Hidx; cbn [fold_left].
    - split; [exact Hidx|]. split; [auto|intros []].
    - set (st1 := collect_field updates st k).
      assert (Hidx1 : setIndex st1 = S (length (setValues st1))).
      { unfold st1, collect_field. destruct (_ && _); cbn [setIndex setValues]; auto.
        rewrite length_app. simpl. lia. }
      assert (Hkeep : forall p, In (SetParam c p) (setClause st) ->
                param (setValues st) p = Ok (get c updates) ->
                In (SetParam c p) (setClause st1) /\
                param (setValues st1) p = Ok (get c updates)).
      { intros p Hin Hp. unfold st1, collect_field.
        destruct (_ && _); cbn [setClause setValues]; auto.
        split; [apply in_or_app; now left | now apply param_app]. }
      destruct (IH st1 Hidx1) as (Hidx' & Hkeep' & Hnew). split; [exact Hidx'|]. split.
      + intros p Hin Hp. destruct (Hkeep p Hin Hp). now apply Hkeep'.
      + intros [->|Hin]; [|now apply Hnew].
        exists (setIndex st). apply (Hkeep' (setIndex st)).
        * unfold st1, collect_field.
          rewrite (proj2 (mem_string_In c allowedFields) Hallowed).
          destruct (get c updates); try contradiction; cbn [is_undefined negb andb setClause];
            apply in_or_app; right; now left.
        * unfold st1, collect_field.
          rewrite (proj2 (mem_string_In c allowedFields) Hallowed).
          destruct (get c updates) eqn:Hg; try contradiction;
            cbn [is_undefined negb andb setValues]; rewrite Hidx; apply param_last. }
  destruct (Hstep (keys updates) (mkSet [] [] 1) eq_refl) as (_ & _ & Hnew).
  destruct (Hnew Hkey) as (p & Hin & Hp). exists p. split; [exact Hin|].
  now apply param_app.
Qed.

Lemma status_is_checked (t : table) : In (CheckIn "status" (statuses t)) (constraints t).
Proof. destruct t; simpl; tauto. Qed.

(** X20.  A PATCH cannot give a row a status that the schema does not
    allow for its table: the work table knows no [archived].  Such a PATCH
    never returns a row; it throws, and every row of both tables is as it
    was. *)
Theorem patch_to_a_forbidden_status_fails
    (t : table) (id : string) (updates : obj) (s : string) (d : db) :
  get "status" updates = VStr s ->
  mem_string s (statuses t) = false ->
  bind (TVarchar 20) (VStr s) = Ok (CText s) ->
  exists e d', Model.update t id updates d = (Throw e, d') /\
               work_rows d' = work_rows d /\ event_rows d' = event_rows d.
Proof.
  intros Hstatus Hbad Hbind.
  assert (Hkey : In "status" (keys updates)).
  { apply has_keys. destruct (has "status" updates) eqn:Hh; auto.
    apply get_absent in Hh. congruence. }
  destruct (collect_fields_has updates "status" [VStr id]) as (p & Hin & Hp);
    [simpl; tauto | exact Hkey | congruence |].
  unfold Model.update.
  destruct (Nat.eqb _ 0); [unfold throw; eauto|].
  unfold bindM, update_by_id.
  destruct (negb (distinct _)) eqn:Hdistinct; [eauto|].
  destruct (negb (Nat.eqb _ _)); [eauto|].
  destruct (resolve_sets _ _ _ _) as [sets|e] eqn:Hsets; [|eauto].
  unfold run_update.
  destruct (id_is _ _) as [hit|e]; [|eauto].
  destruct (update_rows _ _ _ _ _) as [[all changed]|e] eqn:Hrows; [|eauto].
  apply update_rows_inv in Hrows. destruct Hrows as (Hok & -> & ->).
  rewrite rows_of_logged in *.
  assert (Hnone : forall r, In r (rows_of t d) -> hit r = false).
  { intros r Hr. destruct (hit r) eqn:Hhit; auto. exfalso.
    destruct (Hok r Hr Hhit) as (r1 & Hr1 & Hcheck). injection Hr1 as <-.
    pose proof (check_all_holds _ _ Hcheck _ (status_is_checked t)) as Hholds.
    assert (Hcol : col (touch (clock d)
                     (fold_left (fun r '(c, x) => <[c := x]> r) sets r)) "status"
                   = CText s).
    { unfold touch. rewrite col_insert_other by discriminate.
      destruct (resolve_sets_in _ _ _ _ _ "status" p Hsets) as (ty & v & x & Hty & Hv & Hx & Hx').
      { apply in_or_app. now left. }
      rewrite Hp in Hv. injection Hv as <-. rewrite Hstatus in Hx.
      assert (ty = TVarchar 20) as -> by (destruct t; simpl in Hty; now injection Hty).
      rewrite Hbind in Hx. injection Hx as <-.
      apply fold_insert_in; [|exact Hx'].
      rewrite (resolve_sets_columns _ _ _ _ _ Hsets).
      apply distinct_NoDup. now apply negb_false_iff in Hdistinct. }
    simpl in Hholds. rewrite Hcol in Hholds. congruence. }
  assert (Hfilter : List.filter hit (rows_of t d) = []).
  { clear - Hnone. induction (rows_of t d) as [|r l IH]; simpl; auto.
    rewrite (Hnone r) by now left. apply IH. intros; apply Hnone; now right. }
  assert (Hmap : map (fun r => if hit r
                               then touch (clock d)
                                      (rewritten
                                         (fun r0 =>
                                            Ok (fold_left (fun r1 '(c, x) => <[c := x]> r1)
                                                  sets r0)) r)
                               else r) (rows_of t d) = rows_of t d).
  { clear - Hnone. induction (rows_of t d) as [|r l IH]; simpl; auto.
    rewrite (Hnone r) by now left. f_equal. apply IH. intros; apply Hnone; now right. }
  rewrite Hfilter, Hmap. simpl. unfold throw.
  eexists. eexists. split; [reflexivity|]. destruct t; split; reflexivity.
Qed.

End ForbiddenStatus.

(** A PATCH of the stored job to the status [archived], which the work
    table does not admit. *)
Lemma patch_to_a_forbidden_status_witness :
  exists e d',
    Model.update (E := Reference.engine) Work Samples.first_id
      [("status", VStr "archived")] Samples.one_job = (Throw e, d') /\
    work_rows d' = work_rows Samples.one_job /\
    event_rows d' = event_rows Samples.one_job.
Proof.
  apply (patch_to_a_forbidden_status_fails (E := Reference.engine)
           Work Samples.first_id [("status", VStr "archived")] "archived"
           Samples.one_job); reflexivity.
Defined.

(** ** Pages side by side *)


Section Tiling.
Context {E : Engine}.



End Tiling.


(** ** The statistics *)

Lemma distinct_cells_In (xs : list cell) (x : cell) :
  In x (distinct_cells xs) <-> In x xs.
Proof.
  induction xs as [|y xs IH]; simpl; [tauto|].
  rewrite filter_In, IH. split.
  - intros [->|(Hin & _)]; auto.
  - intros [->|Hin]; auto.
    destruct (cell_eqb x y) eqn:Hxy.
    + apply cell_eqb_eq in Hxy. auto.
    + right. split; auto.
Qed.

Lemma distinct_cells_NoDup (xs : list cell) : List.NoDup (distinct_cells xs).
Proof.
  induction xs as [|y xs IH]; simpl; constructor.
  - rewrite filter_In. intros (_ & H). now rewrite cell_eqb_refl in H.
  - now apply List.NoDup_filter.
Qed.

(** A sum over distinct cells, one cell taken out. *)
Lemma sum_without (g : cell -> nat) (x : cell) (xs : list cell) :
  List.NoDup xs ->
  list_sum (map g xs)
  = ((if existsb (fun y => cell_eqb y x) xs then g x else 0)
     + list_sum (map g (List.filter (fun y => negb (cell_eqb y x)) xs)))%nat.
Proof.
  induction 1 as [|y xs Hy Hnd IH]; [reflexivity|]. simpl.
  destruct (cell_eqb y x) eqn:Hyx; simpl.
  - apply cell_eqb_eq in Hyx. subst y. rewrite IH.
    assert (Hno : existsb (fun y => cell_eqb y x) xs = false).
    { destruct (existsb _ xs) eqn:Hex; auto. apply existsb_exists in Hex.
      destruct Hex as (z & Hz & Hzx). apply cell_eqb_eq in Hzx. now subst. }
    rewrite Hno. lia.
  - rewrite IH. lia.
Qed.

Lemma of_type_none (t : table) (k : cell) (rs : list row) :
  existsb (fun y => cell_eqb y k) (map (fun r => col r (typeField t)) rs) = false ->
  of_type t k rs = [].
Proof.
  unfold of_type. induction rs as [|r rs IH]; simpl; auto.
  destruct (cell_eqb (col r (typeField t)) k); simpl; [discriminate|auto].
Qed.

(** Every row is in the group of exactly one type. *)
Lemma groups_cover (t : table) (rs : list row) :
  list_sum (map (fun k => length (of_type t k rs))
              (distinct_cells (map (fun r => col r (typeField t)) rs)))
  = length rs.
Proof.
  induction rs as [|r rs IH]; [reflexivity|].
  cbn [map distinct_cells list_sum].
  assert (Hhead : length (of_type t (col r (typeField t)) (r :: rs))
                  = S (length (of_type t (col r (typeField t)) rs))).
  { unfold of_type. cbn [List.filter]. now rewrite cell_eqb_refl. }
  rewrite Hhead. clear Hhead.
  assert (Hsame : forall ks,
            Forall (fun k => cell_eqb k (col r (typeField t)) = false) ks ->
            map (fun k => length (of_type t k (r :: rs))) ks
            = map (fun k => length (of_type t k rs)) ks).
  { induction 1 as [|k ks Hk _ IHk]; cbn [map]; auto. rewrite IHk. f_equal.
    unfold of_type. cbn [List.filter].
    destruct (cell_eqb (col r (typeField t)) k) eqn:Hrk; auto.
    apply cell_eqb_eq in Hrk. subst k. now rewrite cell_eqb_refl in Hk. }
  rewrite Hsame.
  2:{ apply List.Forall_forall. intros k Hk. apply filter_In in Hk.
      now apply negb_true_iff. }
  pose proof (sum_without (fun k => length (of_type t k rs)) (col r (typeField t))
             (distinct_cells (map (fun r0 => col r0 (typeField t)) rs))
             (distinct_cells_NoDup _)) as Hsum.
  rewrite IH in Hsum. cbn [length].
  match goal with
  | |- list_sum (?x :: ?l) = _ => change (list_sum (x :: l)) with (x + list_sum l)%nat
  end.
  destruct (existsb _ (distinct_cells _)) eqn:Hex; [lia|].
  rewrite of_type_none; [cbn [length]; lia|].
  destruct (existsb _ (map _ rs)) eqn:Hex'; auto.
  apply existsb_exists in Hex'. destruct Hex' as (z & Hz & Hzk).
  assert (Hin : existsb (fun y => cell_eqb y (col r (typeField t)))
                  (distinct_cells (map (fun r0 => col r0 (typeField t)) rs)) = true).
  { apply existsb_exists. exists z. split; [now apply distinct_cells_In|exact Hzk]. }
  congruence.
Qed.

Lemma filter_all (rs : list row) : List.filter (fun _ => true) rs = rs.
Proof. induction rs as [|r rs IH]; simpl; auto. now rewrite IH. Qed.

Section Statistics.
Context {E : Engine}.

(** X22.  The statistics of a table count every row once: there is one
    line per type that occurs in the table, no type has two lines, and the
    totals of the lines, read back as numbers, add up to the number of
    rows.  The statement changes nothing. *)
Theorem statistics_count_every_row_once (t : table) (d : db) :
  exists stats sizes,
    Queries.getStats t d = (Ok stats, logged (StCount t) d) /\
    List.NoDup (map stat_type stats) /\
    (forall r, In r (rows_of t d) -> In (col r (typeField t)) (map stat_type stats)) /\
    Forall2 (fun s n => parseInt_string (stat_total s) = Some (Z.of_nat n)) stats sizes /\
    list_sum sizes = length (rows_of t d).
Proof.
  unfold Queries.getStats. rewrite rows_of_logged.
  set (rs := rows_of t d).
  set (ks := distinct_cells (map (fun r => col r (typeField t)) rs)).
  eexists. exists (map (fun k => length (of_type t k rs)) ks).
  split; [reflexivity|]. rewrite map_map. cbn [stat_type]. rewrite map_id.
  split; [apply distinct_cells_NoDup|]. split; [|split].
  - intros r Hr. apply distinct_cells_In.
    exact (in_map (fun r0 => col r0 (typeField t)) rs r Hr).
  - induction ks as [|k ks IH]; simpl; constructor; auto.
    cbn [stat_total]. unfold counted. rewrite filter_all. apply parseInt_row_count.
  - apply groups_cover.
Qed.

End Statistics.

(** ** The lists of free events and of one organization *)

Section Lists.
Context {E : Engine}.

Lemma limit_bounds (vals : list value) (lp : nat) (n : Z) (lim : nat) (rows : list row) :
  (forall k, bind TInteger (VNum k) = Ok (CInt k)) ->
  param vals lp = Ok (VNum n) ->
  obind (param vals lp) (row_count "LIMIT") = Ok lim ->
  Z.of_nat (length (firstn lim rows)) <= n.
Proof.
  intros Hint Hp Hlim. rewrite Hp in Hlim. cbn [obind] in Hlim.
  unfold row_count in Hlim. rewrite Hint in Hlim. cbn [obind] in Hlim.
  destruct (n <? 0) eqn:Hneg; [discriminate|].
  injection Hlim as <-. apply Z.ltb_ge in Hneg.
  pose proof (firstn_le_length (Z.to_nat n) rows). lia.
Qed.

(** X23.  What the list of free events shows: at most as many rows as the
    limit says (20 when the query has no usable limit), each of them a
    stored event that is active and unpaid and, when the query names a
    type, of that type; [count] is their number.  The request changes no
    row. *)
Theorem free_events_list_holds_free_events
    (req : request) (d d' : db)
    (data : list row) (count : nat) (note : option (string * string)) :
  (forall n, bind TInteger (VNum n) = Ok (CInt n)) ->
  getFreeEvents req d = (mkAnswer 200 (Listed data count note), d') ->
  count = length data /\
  Z.of_nat (length data) <= parseInt_or (get "limit" (query req)) 20 /\
  Forall (fun r => In r (event_rows d) /\
                   col r "status" = CText "active" /\
                   col r "fees" = CText "unpaid" /\
                   (truthy (get "type" (query req)) = true ->
                    bind (TVarchar 20) (get "type" (query req))
                    = Ok (col r "event_type"))) data /\
  work_rows d' = work_rows d /\ event_rows d' = event_rows d.
Proof.
  intros Hint. unfold getFreeEvents, guarded, bindM.
  destruct (findFreeEvents _ _ d) as [[rows|e] d1] eqn:Hq.
  2:{ intros H; injection H as Hc _. now apply error_code_is_not_200 in Hc. }
  unfold ret. intros H; injection H as <- <- _ <-.
  unfold findFreeEvents in Hq. apply select_top_inv in Hq.
  destruct Hq as (f & lim & Hf & Hlim & -> & ->).
  split; [reflexivity|]. split; [|split; [|split; reflexivity]].
  - eapply limit_bounds; [exact Hint| |exact Hlim].
    unfold or_else. destruct (truthy (get "type" (query req))) eqn:Ht.
    + rewrite Ht. reflexivity.
    + reflexivity.
  - unfold or_else in Hf.
    destruct (truthy (get "type" (query req))) eqn:Ht.
    + rewrite Ht in Hf.
      cbn [app compile_clauses compile_clause compile_cond need_col columns] in Hf.
      change (need_col Event "status") with (Ok (A := coltype) (TVarchar 20)) in Hf.
      change (need_col Event "fees") with (Ok (A := coltype) (TVarchar 20)) in Hf.
      change (need_col Event "event_type") with (Ok (A := coltype) (TVarchar 20)) in Hf.
      cbn [obind param nth_error] in Hf.
      destruct (bind (TVarchar 20) (get "type" (query req))) as [x|e] eqn:Hb;
        [|discriminate].
      cbn [obind] in Hf. injection Hf as <-.
      apply List.Forall_forall. intros r Hr.
      apply firstn_subset, sort_rows_In, filter_In in Hr. destruct Hr as (Hin & Hkeep).
      apply andb_true_iff in Hkeep. destruct Hkeep as (Hst & Hkeep).
      apply andb_true_iff in Hkeep. destruct Hkeep as (Hfe & Hkeep).
      apply andb_true_iff in Hkeep. destruct Hkeep as (Hty & _).
      apply sql_eq_eq in Hst, Hfe, Hty.
      destruct Hst as (Hst & _), Hfe as (Hfe & _), Hty as (Hty & _).
      split; [exact Hin|]. split; [exact Hst|]. split; [exact Hfe|].
      intros _. now rewrite Hty.
    + assert (Hnull : truthy VNull = false) by reflexivity.
      rewrite Hnull in Hf.
      cbn [app compile_clauses compile_clause compile_cond] in Hf.
      change (need_col Event "status") with (Ok (A := coltype) (TVarchar 20)) in Hf.
      change (need_col Event "fees") with (Ok (A := coltype) (TVarchar 20)) in Hf.
      cbn [obind] in Hf. injection Hf as <-.
      apply List.Forall_forall. intros r Hr.
      apply firstn_subset, sort_rows_In, filter_In in Hr. destruct Hr as (Hin & Hkeep).
      apply andb_true_iff in Hkeep. destruct Hkeep as (Hst & Hkeep).
      apply andb_true_iff in Hkeep. destruct Hkeep as (Hfe & _).
      apply sql_eq_eq in Hst, Hfe. destruct Hst as (Hst & _), Hfe as (Hfe & _).
      split; [exact Hin|]. split; [exact Hst|]. split; [exact Hfe|]. discriminate.
Qed.

(** X24.  What the list of an organization shows: at most as many rows as
    the limit says (10 when the query has no usable limit), each of them a
    stored work opportunity that is active and whose organization or
    company contains the name of the path, letter case apart; the answer
    repeats the name and [count] is the number of rows.  The request
    changes no row. *)
Theorem organization_list_holds_its_rows
    (name : string) (req : request) (d d' : db)
    (data : list row) (count : nat) (note : option (string * string)) :
  (forall n, bind TInteger (VNum n) = Ok (CInt n)) ->
  getByOrganization name req d = (mkAnswer 200 (Listed data count note), d') ->
  count = length data /\
  note = Some ("organization", name) /\
  Z.of_nat (length data) <= parseInt_or (get "limit" (query req)) 10 /\
  Forall (fun r => In r (work_rows d) /\
                   col r "status" = CText "active" /\
                   exists c s pat,
                     (c = "organization" \/ c = "company") /\
                     col r c = CText s /\
                     bind TText (VStr ("%" ++ name ++ "%")) = Ok (CText pat) /\
                     sql_like (sql_lower s) (sql_lower pat) = true) data /\
  work_rows d' = work_rows d /\ event_rows d' = event_rows d.
Proof.
  intros Hint. unfold getByOrganization, guarded, bindM.
  destruct (findByOrganization _ _ d) as [[rows|e] d1] eqn:Hq.
  2:{ intros H; injection H as Hc _. now apply error_code_is_not_200 in Hc. }
  unfold ret. intros H; injection H as <- <- <- <-.
  unfold findByOrganization in Hq. apply select_top_inv in Hq.
  destruct Hq as (f & lim & Hf & Hlim & -> & ->).
  split; [reflexivity|]. split; [reflexivity|].
  split; [|split; [|split; reflexivity]].
  - eapply limit_bounds; [exact Hint| |exact Hlim]. reflexivity.
  - cbn [compile_clauses compile_clause compile_cond] in Hf.
    change (need_col Work "organization") with (Ok (A := coltype) (TVarchar 200)) in Hf.
    change (need_col Work "company") with (Ok (A := coltype) (TVarchar 200)) in Hf.
    change (need_col Work "status") with (Ok (A := coltype) (TVarchar 20)) in Hf.
    cbn [obind param nth_error] in Hf.
    change (wrapped (VStr name)) with (VStr ("%" ++ name ++ "%")) in Hf.
    destruct (bind TText (VStr ("%" ++ name ++ "%"))) as [x|e] eqn:Hb; [|discriminate].
    cbn [obind] in Hf. injection Hf as <-.
    apply List.Forall_forall. intros r Hr.
    apply firstn_subset, sort_rows_In, filter_In in Hr. destruct Hr as (Hin & Hkeep).
    apply andb_true_iff in Hkeep. destruct Hkeep as (Hname & Hkeep).
    apply andb_true_iff in Hkeep. destruct Hkeep as (Hst & _).
    apply sql_eq_eq in Hst. destruct Hst as (Hst & _).
    split; [exact Hin|]. split; [exact Hst|].
    apply orb_true_iff in Hname. destruct Hname as [Hm|Hm].
    + destruct (col r "organization") as [|s| | | |] eqn:Hc; try discriminate Hm.
      destruct x as [|pat| | | |]; try discriminate Hm.
      exists "organization", s, pat. auto.
    + destruct (col r "company") as [|s| | | |] eqn:Hc; try discriminate Hm.
      destruct x as [|pat| | | |]; try discriminate Hm.
      exists "company", s, pat. auto.
Qed.

End Lists.

Lemma free_shown_ok :
  getFreeEvents (E := Reference.engine) Cases.free_hackathons Cases.one_free
  = (mkAnswer 200 (Listed Cases.free_rows 1 None), snd Cases.free_shown).
Proof.
  assert (Hok : Nat.eqb (code (fst Cases.free_shown)) 200
                && match carried (fst Cases.free_shown) with
                   | Listed _ 1 None => true
                   | _ => false
                   end = true) by (vm_compute; reflexivity).
  unfold Cases.free_rows. unfold Cases.free_shown in *.
  set (c := getFreeEvents _ _) in *. clearbody c.
  destruct c as [[st sent] d']. cbn [fst snd code carried] in *.
  apply andb_true_iff in Hok. destruct Hok as (Hst & Hbody).
  apply Nat.eqb_eq in Hst. subst st.
  destruct sent as [| |data [|[|n]] [note|]]; try discriminate Hbody. reflexivity.
Qed.

(** One free hackathon is stored; the list of free hackathons shows it. *)
Lemma free_events_list_witness :
  1%nat = length Cases.free_rows /\
  Z.of_nat (length Cases.free_rows)
  <= parseInt_or (E := Reference.engine) (get "limit" (query Cases.free_hackathons)) 20 /\
  Forall (fun r => In r (event_rows Cases.one_free) /\
                   col r "status" = CText "active" /\
                   col r "fees" = CText "unpaid" /\
                   (truthy (get "type" (query Cases.free_hackathons)) = true ->
                    bind (Engine := Reference.engine) (TVarchar 20)
                      (get "type" (query Cases.free_hackathons))
                    = Ok (col r "event_type"))) Cases.free_rows /\
  work_rows (snd Cases.free_shown) = work_rows Cases.one_free /\
  event_rows (snd Cases.free_shown) = event_rows Cases.one_free.
Proof.
  apply (free_events_list_holds_free_events (E := Reference.engine)
           Cases.free_hackathons Cases.one_free (snd Cases.free_shown)
           Cases.free_rows 1 None).
  - intros n. reflexivity.
  - exact free_shown_ok.
Defined.

Lemma acme_listed_ok :
  getByOrganization (E := Reference.engine) "acme" Samples.bare (snd Cases.acme_created)
  = (mkAnswer 200 (Listed Cases.acme_listed_rows 1 (Some ("organization", "acme"))),
     snd Cases.acme_listed).
Proof.
  assert (Hok : Nat.eqb (code (fst Cases.acme_listed)) 200
                && match carried (fst Cases.acme_listed) with
                   | Listed _ 1 (Some (k, v)) =>
                       String.eqb k "organization" && String.eqb v "acme"
                   | _ => false
                   end = true) by (vm_compute; reflexivity).
  unfold Cases.acme_listed_rows. unfold Cases.acme_listed in *.
  set (c := getByOrganization _ _ _) in *. clearbody c.
  destruct c as [[st sent] d']. cbn [fst snd code carried] in *.
  apply andb_true_iff in Hok. destruct Hok as (Hst & Hbody).
  apply Nat.eqb_eq in Hst. subst st.
  destruct sent as [| |data [|[|n]] [[k v]|]]; try discriminate Hbody.
  apply andb_true_iff in Hbody. destruct Hbody as (Hk & Hv).
  apply String.eqb_eq in Hk, Hv. now subst.
Qed.

(** The posting of Acme is stored; the list of [acme] shows it. *)
Lemma organization_list_witness :
  1%nat = length Cases.acme_listed_rows /\
  Some ("organization", "acme") = Some ("organization", "acme") /\
  Z.of_nat (length Cases.acme_listed_rows)
  <= parseInt_or (E := Reference.engine) (get "limit" (query Samples.bare)) 10 /\
  Forall (fun r => In r (work_rows (snd Cases.acme_created)) /\
                   col r "status" = CText "active" /\
                   exists c s pat,
                     (c = "organization" \/ c = "company") /\
                     col r c = CText s /\
                     bind (Engine := Reference.engine) TText (VStr ("%" ++ "acme" ++ "%"))
                     = Ok (CText pat) /\
                     sql_like (Engine := Reference.engine)
                       (sql_lower (Engine := Reference.engine) s)
                       (sql_lower (Engine := Reference.engine) pat) = true)
    Cases.acme_listed_rows /\
  work_rows (snd Cases.acme_listed) = work_rows (snd Cases.acme_created) /\
  event_rows (snd Cases.acme_listed) = event_rows (snd Cases.acme_created).
Proof.
  apply (organization_list_holds_its_rows (E := Reference.engine)
           "acme" Samples.bare (snd Cases.acme_created) (snd Cases.acme_listed)
           Cases.acme_listed_rows 1 (Some ("organization", "acme"))).
  - intros n. reflexivity.
  - exact acme_listed_ok.
Defined.
